(** * rapid-annotate: the interactive annotator, its colour allocator and the
      assist merge, embedded from the TypeScript sources

    Sources embedded here:
    - [src/utils/colorUtils.ts]: [getLabelColor], [resetLabelColors];
    - [services/geminiService]: [generateAssistedAnnotations];
    - [src/components/InteractiveAnnotator.tsx]: [getNormalizedCoords],
      [handleMouseDown], [handleMouseMove], [handleMouseUp],
      [handleGeminiAssistRequest], [toDisplayCoords], [getHandlePositions]
      and the per-box part of the render function; then [updateRenderSize],
      [handleLabelChange], [handleDeleteSelected] and [handleSave];
    - [components/BoundingBox.tsx]: the rectangle of the grid overlay;
    - [services/geminiService]: [generateBoundingBoxesForImages];
    - [App.tsx]: [handleImagesUploaded], [handleClearAll],
      [handleSubmitForAnnotation], [handleOpenEditor], [handleCloseEditor],
      [handleSaveAnnotations];
    - [src/components/ExportControls.tsx]: the base name of a label file.

    Numbers.  A JavaScript [number] is modelled as an exact rational ([Q]).
    Rounding, NaN and the infinities are outside the model.  The handlers
    divide by the rendered width and height only; [inModel] collects what a
    state needs for the rational model to follow the JavaScript (no division
    by zero, no arithmetic on [undefined]), the handlers preserve it, and
    the theorems about pointer moves on an arbitrary state assume it.  Since
    [Q] is a setoid, numeric results are compared with [==].

    React state.  The component state is a record; every handler is a
    function from the state at the render that installed it (plus what the
    browser supplies: pointer coordinates, the answer to [prompt], fresh
    UUIDs, the outcome of the remote call) to the next state.  The upload
    callback of [App] is called after the files have been read, by a
    callback captured when they were chosen: it takes the state of that
    render apart from the state its updaters run on. *)

From Stdlib Require Import QArith Qminmax Qabs Lqa.
From stdpp Require Import base option list strings gmap.

(** ** Colour allocator ([src/utils/colorUtils.ts]) *)

Module ColorUtils.

(** The two module-level variables [labelColorMap] and [colorIndex].  A
    colour is an [option string]: [None] is JavaScript's [undefined], what
    indexing an empty palette yields. *)
Record ColorState := mkColorState {
  labelColorMap : gmap string (option string);
  colorIndex : nat
}.

(** State at module load: [new Map()], [colorIndex = 0]. *)
Definition initial : ColorState := mkColorState ∅ 0.

Section Allocator.

(** [BOUNDING_BOX_COLORS] is imported from [../constants]; the allocator is
    stated for any palette. *)
Variable BOUNDING_BOX_COLORS : list string.

(** [getLabelColor(label)]: the returned colour and the state afterwards. *)
Definition getLabelColor (label : string) (s : ColorState) : option string * ColorState :=
  let s' :=
    if bool_decide (is_Some (labelColorMap s !! label)) then s
    else mkColorState
           (<[label := BOUNDING_BOX_COLORS !! (colorIndex s mod length BOUNDING_BOX_COLORS)]>
              (labelColorMap s))
           (S (colorIndex s)) in
  (default None (labelColorMap s' !! label), s').

(** [resetLabelColors()]. *)
Definition resetLabelColors (_ : ColorState) : ColorState := mkColorState ∅ 0.

(** A run of calls [getLabelColor(l1); getLabelColor(l2); ...]: the colours
    returned, in call order, and the final state. *)
Fixpoint getLabelColors (labels : list string) (s : ColorState)
  : list (option string) * ColorState :=
  match labels with
  | [] => ([], s)
  | l :: rest =>
      let '(c, s1) := getLabelColor l s in
      let '(cs, s2) := getLabelColors rest s1 in
      (c :: cs, s2)
  end.

(** *** Properties of the allocator *)

Lemma getLabelColors_cons (l : string) (rest : list string) (s : ColorState) :
  getLabelColors (l :: rest) s =
    ((getLabelColor l s).1 :: (getLabelColors rest (getLabelColor l s).2).1,
     (getLabelColors rest (getLabelColor l s).2).2).
Proof.
  cbn [getLabelColors].
  destruct (getLabelColor l s) as [c s1]. cbn [fst snd].
  now destruct (getLabelColors rest s1) as [cs s2].
Qed.

Lemma getLabelColor_seen (label : string) (s : ColorState) (c : option string) :
  labelColorMap s !! label = Some c ->
  getLabelColor label s = (c, s).
Proof.
  intros Hc. unfold getLabelColor.
  rewrite bool_decide_eq_true_2 by (rewrite Hc; eauto).
  cbn. now rewrite Hc.
Qed.

Lemma getLabelColor_new (label : string) (s : ColorState) :
  labelColorMap s !! label = None ->
  getLabelColor label s =
    (BOUNDING_BOX_COLORS !! (colorIndex s mod length BOUNDING_BOX_COLORS),
     mkColorState
       (<[label := BOUNDING_BOX_COLORS !! (colorIndex s mod length BOUNDING_BOX_COLORS)]>
          (labelColorMap s))
       (S (colorIndex s))).
Proof.
  intros Hn. unfold getLabelColor.
  rewrite bool_decide_eq_false_2 by (rewrite Hn; intros [x Hx]; discriminate).
  cbn. now rewrite lookup_insert_eq.
Qed.

(** A call records the colour it returns. *)
Lemma getLabelColor_records (label : string) (s : ColorState) :
  labelColorMap (getLabelColor label s).2 !! label = Some (getLabelColor label s).1.
Proof.
  destruct (labelColorMap s !! label) as [c|] eqn:E.
  - rewrite (getLabelColor_seen _ _ _ E). exact E.
  - rewrite (getLabelColor_new _ _ E). cbn. apply lookup_insert_eq.
Qed.

(** An assignment, once made, survives every later call. *)
Lemma getLabelColor_keeps (l label : string) (s : ColorState) (c : option string) :
  labelColorMap s !! label = Some c ->
  labelColorMap (getLabelColor l s).2 !! label = Some c.
Proof.
  intros Hc.
  destruct (labelColorMap s !! l) as [d|] eqn:E.
  - now rewrite (getLabelColor_seen _ _ _ E).
  - rewrite (getLabelColor_new _ _ E). cbn.
    rewrite lookup_insert_ne; [exact Hc|]. intros ->. congruence.
Qed.

Lemma getLabelColors_keeps (ls : list string) :
  forall (s : ColorState) (label : string) (c : option string),
  labelColorMap s !! label = Some c ->
  labelColorMap (getLabelColors ls s).2 !! label = Some c.
Proof.
  induction ls as [|l ls IH]; intros s label c Hc; [exact Hc|].
  rewrite getLabelColors_cons. cbn [snd].
  apply IH. now apply getLabelColor_keeps.
Qed.

(** Within an epoch the counter is the number of labels in the map, and the
    map's keys are the labels asked for since the reset. *)
Definition epoch_inv (seen : list string) (s : ColorState) : Prop :=
  colorIndex s = size (labelColorMap s) /\
  dom (labelColorMap s) = (list_to_set seen : gset string).

Lemma epoch_inv_initial : epoch_inv [] initial.
Proof. split; cbn; [now rewrite map_size_empty | now rewrite dom_empty_L]. Qed.

Lemma epoch_inv_step (seen : list string) (l : string) (s : ColorState) :
  epoch_inv seen s -> epoch_inv (seen ++ [l]) (getLabelColor l s).2.
Proof.
  intros [Hn Hd]. unfold epoch_inv.
  rewrite list_to_set_app_L, <- Hd.
  destruct (labelColorMap s !! l) as [d|] eqn:E.
  - rewrite (getLabelColor_seen _ _ _ E). cbn [snd]. split; [exact Hn|].
    assert (l ∈ dom (labelColorMap s)) as Hin by (apply elem_of_dom; eauto).
    apply set_eq. intros x.
    rewrite elem_of_union, elem_of_list_to_set, list_elem_of_singleton.
    split; [tauto | intros [Hx | ->]; assumption].
  - rewrite (getLabelColor_new _ _ E). cbn [snd labelColorMap colorIndex]. split.
    + rewrite map_size_insert_None by exact E. now rewrite Hn.
    + rewrite dom_insert_L. apply set_eq. intros x.
      rewrite !elem_of_union, elem_of_list_to_set, list_elem_of_singleton,
        elem_of_singleton.
      tauto.
Qed.

Lemma epoch_inv_run (ls : list string) :
  forall (seen : list string) (s : ColorState),
  epoch_inv seen s -> epoch_inv (seen ++ ls) (getLabelColors ls s).2.
Proof.
  induction ls as [|l ls IH]; intros seen s Hinv.
  - now rewrite app_nil_r.
  - rewrite getLabelColors_cons. cbn [snd].
    replace (seen ++ l :: ls) with ((seen ++ [l]) ++ ls)
      by now rewrite <- app_assoc.
    apply IH. now apply epoch_inv_step.
Qed.

Lemma epoch_inv_count (seen : list string) (s : ColorState) :
  epoch_inv seen s -> colorIndex s = length (remove_dups seen).
Proof.
  intros [Hn Hd]. rewrite Hn, <- size_dom, Hd.
  rewrite <- (size_list_to_set (C := gset string) (remove_dups seen))
    by apply NoDup_remove_dups.
  f_equal. apply set_eq. intros x.
  now rewrite !elem_of_list_to_set, elem_of_remove_dups.
Qed.

Lemma epoch_inv_fresh (seen : list string) (s : ColorState) (l : string) :
  epoch_inv seen s -> l ∉ seen -> labelColorMap s !! l = None.
Proof.
  intros [_ Hd] Hl. apply not_elem_of_dom. rewrite Hd.
  now rewrite elem_of_list_to_set.
Qed.

(** C7: within an epoch a label keeps the colour of its first call, whatever
    calls come in between; a label not seen since the last reset receives
    [palette[count mod paletteSize]], where [count] is the number of distinct
    labels seen since that reset; and after [resetLabelColors] a sequence of
    labels receives the same colours as it did in the first epoch. *)
Theorem getLabelColor_deterministic :
  (forall (s : ColorState) (label : string) (between : list string),
      (getLabelColor label (getLabelColors between (getLabelColor label s).2).2).1
      = (getLabelColor label s).1) /\
  (forall (s0 : ColorState) (seen : list string) (label : string),
      label ∉ seen ->
      (getLabelColor label (getLabelColors seen (resetLabelColors s0)).2).1
      = BOUNDING_BOX_COLORS !! (length (remove_dups seen) mod length BOUNDING_BOX_COLORS)) /\
  (forall (s0 : ColorState) (labels : list string),
      (getLabelColors labels (resetLabelColors s0)).1
      = (getLabelColors labels initial).1).
Proof.
  split; [|split].
  - intros s label between.
    pose proof (getLabelColor_records label s) as Hrec.
    pose proof (getLabelColors_keeps between _ _ _ Hrec) as Hk.
    now rewrite (getLabelColor_seen _ _ _ Hk).
  - intros s0 seen label Hfresh.
    pose proof (epoch_inv_run seen [] initial epoch_inv_initial) as Hinv.
    cbn [app] in Hinv. unfold resetLabelColors. fold initial.
    rewrite (getLabelColor_new _ _ (epoch_inv_fresh _ _ _ Hinv Hfresh)). cbn.
    now rewrite (epoch_inv_count _ _ Hinv).
  - intros s0 labels. reflexivity.
Qed.

(** *** Colours and the palette *)

(** Every colour on record is a colour of the palette. *)
Definition fromPalette (s : ColorState) : Prop :=
  forall l c, labelColorMap s !! l = Some c ->
              exists col, c = Some col /\ col ∈ BOUNDING_BOX_COLORS.

Lemma palette_lookup (n : nat) :
  BOUNDING_BOX_COLORS <> [] ->
  exists col, BOUNDING_BOX_COLORS !! (n mod length BOUNDING_BOX_COLORS) = Some col /\
              col ∈ BOUNDING_BOX_COLORS.
Proof.
  intros Hne.
  destruct (lookup_lt_is_Some_2 BOUNDING_BOX_COLORS (n mod length BOUNDING_BOX_COLORS))
    as [col Hcol].
  - apply Nat.mod_upper_bound. destruct BOUNDING_BOX_COLORS; [contradiction | discriminate].
  - exists col. split; [exact Hcol | eapply list_elem_of_lookup_2, Hcol].
Qed.

Lemma getLabelColor_fromPalette (l : string) (s : ColorState) :
  BOUNDING_BOX_COLORS <> [] ->
  fromPalette s ->
  fromPalette (getLabelColor l s).2 /\
  exists col, (getLabelColor l s).1 = Some col /\ col ∈ BOUNDING_BOX_COLORS.
Proof.
  intros Hne Hs. destruct (labelColorMap s !! l) as [c|] eqn:E.
  - rewrite (getLabelColor_seen _ _ _ E). split; [exact Hs | exact (Hs _ _ E)].
  - rewrite (getLabelColor_new _ _ E). cbn [fst snd]. split; [|now apply palette_lookup].
    intros l' c Hl'. cbn in Hl'. apply lookup_insert_Some in Hl' as [[_ <-] | [_ Hl']].
    + now apply palette_lookup.
    + exact (Hs _ _ Hl').
Qed.

Lemma getLabelColors_fromPalette (labels : list string) :
  BOUNDING_BOX_COLORS <> [] ->
  forall s : ColorState,
  fromPalette s ->
  Forall (fun c => exists col, c = Some col /\ col ∈ BOUNDING_BOX_COLORS)
    (getLabelColors labels s).1.
Proof.
  intros Hne. induction labels as [|l labels IH]; intros s Hs; [constructor|].
  rewrite getLabelColors_cons. cbn [fst].
  destruct (getLabelColor_fromPalette l s Hne Hs) as [Hs' Hcol].
  constructor; [exact Hcol | now apply IH].
Qed.

(** With a palette that is not empty, every colour handed out since a reset
    is a colour of the palette: no label is ever given [undefined]. *)
Theorem getLabelColor_never_undefined (s0 : ColorState) (labels : list string) :
  BOUNDING_BOX_COLORS <> [] ->
  Forall (fun c => exists col, c = Some col /\ col ∈ BOUNDING_BOX_COLORS)
    (getLabelColors labels (resetLabelColors s0)).1.
Proof.
  intros Hne. apply getLabelColors_fromPalette; [exact Hne|].
  intros l c H. cbn in H. now rewrite lookup_empty in H.
Qed.

(** The labels on record, in the order in which they got their colours:
    the label at place [i] has the colour [i] of the palette, cyclically. *)
Definition allocated (order : list string) (s : ColorState) : Prop :=
  NoDup order /\
  length order = colorIndex s /\
  (forall l, l ∈ order -> labelColorMap s !! l <> None) /\
  (forall l c, labelColorMap s !! l = Some c ->
               exists i, order !! i = Some l /\
                         c = BOUNDING_BOX_COLORS !! (i mod length BOUNDING_BOX_COLORS)).

Lemma allocated_initial : allocated [] initial.
Proof.
  split; [constructor|]. split; [reflexivity|]. split.
  - intros l H. now apply elem_of_nil in H.
  - intros l c H. cbn in H. now rewrite lookup_empty in H.
Qed.

Lemma allocated_step (order : list string) (l : string) (s : ColorState) :
  allocated order s ->
  exists order', allocated order' (getLabelColor l s).2.
Proof.
  intros (Hnd & Hlen & Hin & Hcol). destruct (labelColorMap s !! l) as [c|] eqn:E.
  - rewrite (getLabelColor_seen _ _ _ E). exists order. now repeat split.
  - rewrite (getLabelColor_new _ _ E). cbn [snd]. exists (order ++ [l]).
    split; [|split; [|split]].
    + apply NoDup_app. split; [exact Hnd|]. split; [|apply NoDup_singleton].
      intros x Hx Hx'. apply list_elem_of_singleton in Hx'. subst x.
      now apply (Hin l Hx).
    + rewrite length_app. cbn. lia.
    + intros l' Hl'. cbn. destruct (decide (l = l')) as [<- | Hne].
      * now rewrite lookup_insert_eq.
      * rewrite lookup_insert_ne by exact Hne. apply Hin.
        apply elem_of_app in Hl' as [Hl' | Hl']; [exact Hl'|].
        apply list_elem_of_singleton in Hl'. congruence.
    + intros l' c Hl'. cbn in Hl'.
      apply lookup_insert_Some in Hl' as [[<- <-] | [_ Hl']].
      * exists (length order). split; [now apply list_lookup_middle|].
        now rewrite Hlen.
      * destruct (Hcol _ _ Hl') as (i & Hi & ->). exists i.
        split; [now apply lookup_app_l_Some | reflexivity].
Qed.

Lemma allocated_run (labels : list string) :
  forall (order : list string) (s : ColorState),
  allocated order s ->
  exists order', allocated order' (getLabelColors labels s).2.
Proof.
  induction labels as [|l labels IH]; intros order s Hs; [now exists order|].
  rewrite getLabelColors_cons. cbn [snd].
  destruct (allocated_step order l s Hs) as [order' Hs']. exact (IH _ _ Hs').
Qed.

(** As long as the palette lasts, distinct labels have distinct colours:
    with a palette without a repeated colour and no more distinct labels
    since the reset than the palette has colours, two of these labels that
    are given the same colour are the same label. *)
Theorem getLabelColor_distinct_while_palette_lasts (s0 : ColorState)
    (labels : list string) (l1 l2 : string) :
  NoDup BOUNDING_BOX_COLORS ->
  (length (remove_dups labels) <= length BOUNDING_BOX_COLORS)%nat ->
  l1 ∈ labels -> l2 ∈ labels ->
  let s := (getLabelColors labels (resetLabelColors s0)).2 in
  (getLabelColor l1 s).1 = (getLabelColor l2 s).1 ->
  l1 = l2.
Proof.
  intros Hpal Hfit H1 H2. cbn zeta. unfold resetLabelColors. fold initial.
  pose proof (epoch_inv_run labels [] initial epoch_inv_initial) as Hinv.
  cbn [app] in Hinv.
  destruct (allocated_run labels [] initial allocated_initial)
    as (order & Hnd & Hlen & _ & Hcol).
  set (s := (getLabelColors labels initial).2) in *.
  pose proof (epoch_inv_count _ _ Hinv) as Hcount.
  assert (Hrec : forall l, l ∈ labels -> exists c, labelColorMap s !! l = Some c).
  { intros l Hl. destruct Hinv as [_ Hdom].
    apply (elem_of_dom (D := gset string)). rewrite Hdom.
    now apply elem_of_list_to_set. }
  destruct (Hrec l1 H1) as [c1 Hc1], (Hrec l2 H2) as [c2 Hc2].
  rewrite (getLabelColor_seen _ _ _ Hc1), (getLabelColor_seen _ _ _ Hc2). cbn [fst].
  intros <-.
  destruct (Hcol _ _ Hc1) as (i1 & Hi1 & Hp1), (Hcol _ _ Hc2) as (i2 & Hi2 & Hp2).
  pose proof (lookup_lt_Some _ _ _ Hi1) as Hb1.
  pose proof (lookup_lt_Some _ _ _ Hi2) as Hb2.
  rewrite Nat.mod_small in Hp1, Hp2 by lia.
  destruct (lookup_lt_is_Some_2 BOUNDING_BOX_COLORS i1 ltac:(lia)) as [col Hcol1].
  assert (Hcol2 : BOUNDING_BOX_COLORS !! i2 = Some col) by congruence.
  pose proof (NoDup_lookup _ _ _ _ Hpal Hcol1 Hcol2) as ->. congruence.
Qed.

End Allocator.

(** The theorem at a three-colour palette: after the epoch [a; b; a], the new
    label [c] is the third distinct label and receives the third colour. *)
Lemma getLabelColor_deterministic_witness :
  ("c" ∉ ["a"; "b"; "a"]) /\
  (getLabelColor ["#f00"; "#0f0"; "#00f"] "c"
     (getLabelColors ["#f00"; "#0f0"; "#00f"] ["a"; "b"; "a"]
        (resetLabelColors initial)).2).1
  = ["#f00"; "#0f0"; "#00f"] !! (length (remove_dups ["a"; "b"; "a"]) mod 3).
Proof.
  assert (Hf : "c" ∉ ["a"; "b"; "a"]).
  { rewrite !not_elem_of_cons. repeat split; try discriminate. apply not_elem_of_nil. }
  split; [exact Hf|].
  exact (proj1 (proj2 (getLabelColor_deterministic ["#f00"; "#0f0"; "#00f"]))
           initial ["a"; "b"; "a"] "c" Hf).
Defined.

(** The second theorem at the same palette: four labels asked for, the
    fourth of which comes after the palette is used up. *)
Lemma getLabelColor_never_undefined_witness :
  Forall (fun c => exists col, c = Some col /\ col ∈ ["#f00"; "#0f0"; "#00f"])
    (getLabelColors ["#f00"; "#0f0"; "#00f"] ["a"; "b"; "c"; "d"]
       (resetLabelColors initial)).1.
Proof.
  apply (getLabelColor_never_undefined ["#f00"; "#0f0"; "#00f"] initial
           ["a"; "b"; "c"; "d"]).
  discriminate.
Defined.

(** Three labels on three colours: [a] and [c] do not share a colour. *)
Lemma getLabelColor_distinct_while_palette_lasts_witness :
  (getLabelColor ["#f00"; "#0f0"; "#00f"] "a"
     (getLabelColors ["#f00"; "#0f0"; "#00f"] ["a"; "b"; "a"; "c"]
        (resetLabelColors initial)).2).1
  <> (getLabelColor ["#f00"; "#0f0"; "#00f"] "c"
        (getLabelColors ["#f00"; "#0f0"; "#00f"] ["a"; "b"; "a"; "c"]
           (resetLabelColors initial)).2).1.
Proof.
  intros Hsame.
  assert (Hpal : NoDup ["#f00"; "#0f0"; "#00f"]).
  { repeat (apply NoDup_cons; split;
            [rewrite ?not_elem_of_cons; repeat split; try discriminate;
             apply not_elem_of_nil |]).
    apply NoDup_nil_2. }
  assert (Heq : "a" = "c").
  { apply (getLabelColor_distinct_while_palette_lasts ["#f00"; "#0f0"; "#00f"] initial
             ["a"; "b"; "a"; "c"] "a" "c" Hpal).
    - vm_compute. lia.
    - left.
    - right. right. right. left.
    - exact Hsame. }
  discriminate Heq.
Defined.

End ColorUtils.

(** ** Data model ([src/types.ts]) *)

Module Types.

(** [AnnotationSource]. *)
Inductive AnnotationSource : Type :=
  | gemini
  | human_added
  | human_edited
  | gemini_assisted.

(** [BoundingBox]; the projection for [id] is [box_id], since [id] is the
    identity function.  [color] is the optional field. *)
Record BoundingBox := mkBox {
  box_id : string;
  label : string;
  x_min : Q;
  y_min : Q;
  width : Q;
  height : Q;
  color : option string;
  source : AnnotationSource
}.

End Types.

Export Types.

(** ** Assist call ([generateAssistedAnnotations] of the Gemini service) *)

Module GeminiService.

(** What [JSON.parse] can return. *)
#[local] Unset Elimination Schemes.
Inductive JsValue : Type :=
  | JNull
  | JBool (b : bool)
  | JNum (q : Q)
  | JStr (s : string)
  | JArr (items : list JsValue)
  | JObj (fields : list (string * JsValue)).
#[local] Set Elimination Schemes.

(** [b.key]: [None] is [undefined].  Only objects have the properties read
    here; a key that occurs twice keeps one value, taken here as the first of
    the list. *)
Definition getProp (b : JsValue) (key : string) : option JsValue :=
  match b with
  | JObj fields => snd <$> List.find (fun kv => String.eqb (fst kv) key) fields
  | _ => None
  end.

(** A value thrown or a rejection reason: an [Error] with its message, or
    something that is not an [Error] (the [ProgressEvent] of a failed file
    read). *)
Inductive Thrown : Type :=
  | ThrownError (message : string)
  | ThrownOther.

(** The model's reply: its text, and what [parseGeminiJsonResponse] gets from
    [JSON.parse] on the unfenced text ([None] when [JSON.parse] throws). *)
Record GenerateContentResponse := mkResponse {
  text : string;
  parsed : option JsValue
}.

(** What the browser and the network do during one call. *)
Inductive RemoteRun : Type :=
  | FileReadRejects (e : Thrown)
  | GenerateContentRejects (e : Thrown)
  | GenerateContentResolves (r : GenerateContentResponse).

(** [s.includes(sub)]. *)
Fixpoint includes (s sub : string) : bool :=
  String.prefix sub s ||
  match s with
  | EmptyString => false
  | String _ rest => includes rest sub
  end.

(** [parseGeminiJsonResponse(responseText)]. *)
Definition parseGeminiJsonResponse (r : GenerateContentResponse) : Thrown + JsValue :=
  match parsed r with
  | Some v => inr v
  | None =>
      inl (ThrownError
             ("Gemini returned an invalid JSON response. The prompt might need adjustment or the model produced unexpected output. Original response: "
              +:+ text r))
  end.

Section Service.

(** [ai]: [true] when the client was built (an API key was configured). *)
Variable ai : bool.

(** [crypto.randomUUID()]: the [n]-th identifier the browser hands out. *)
Variable randomUUID : nat -> string.

(** Message of the [TypeError] the engine throws on [null.label]. *)
Variable nullPropertyMessage : string.

(** The test of the [forEach] callback: the five typed fields, or the
    [TypeError] for a [null] element. *)
Definition validBoxFields (b : JsValue) : Thrown + option (string * Q * Q * Q * Q) :=
  match b with
  | JNull => inl (ThrownError nullPropertyMessage)
  | _ =>
      inr match getProp b "label", getProp b "x_min", getProp b "y_min",
                getProp b "width", getProp b "height" with
          | Some (JStr l), Some (JNum x), Some (JNum y), Some (JNum w), Some (JNum h) =>
              Some (l, x, y, w, h)
          | _, _, _, _, _ => None
          end
  end.

(** The [color] a payload entry may carry along through the spread [...b];
    the annotator replaces it before it is read. *)
Definition payloadColor (b : JsValue) : option string :=
  match getProp b "color" with
  | Some (JStr c) => Some c
  | _ => None
  end.

(** [newBoxesRaw.forEach(b => ...)]: the boxes pushed, in order, or the
    exception that ends the loop; with it, the number of UUIDs drawn so far
    ([n] before the loop). *)
Fixpoint validateNewBoxes (raw : list JsValue) (validated : list BoundingBox) (n : nat)
  : (Thrown + list BoundingBox) * nat :=
  match raw with
  | [] => (inr validated, n)
  | b :: rest =>
      match validBoxFields b with
      | inl e => (inl e, n)
      | inr (Some (l, x, y, w, h)) =>
          validateNewBoxes rest
            (validated ++ [mkBox (randomUUID n) l x y w h (payloadColor b) gemini_assisted])
            (S n)
      | inr None => validateNewBoxes rest validated n
      end
  end.

(** The body of the [try] block. *)
Definition assistTry (run : RemoteRun) (n : nat) : (Thrown + list BoundingBox) * nat :=
  match run with
  | FileReadRejects e => (inl e, n)
  | GenerateContentRejects e => (inl e, n)
  | GenerateContentResolves r =>
      match parseGeminiJsonResponse r with
      | inl e => (inl e, n)
      | inr (JArr newBoxesRaw) => validateNewBoxes newBoxesRaw [] n
      | inr _ => (inr [], n)
      end
  end.

(** The [catch] block: the message of the [Error] it throws. *)
Definition assistCatch (error : Thrown) : string :=
  let errorMessage :=
    match error with
    | ThrownError m => m
    | ThrownOther => "Failed to get assistance from Gemini."
    end in
  match error with
  | ThrownError m =>
      if includes m "API key not valid" then
        "Invalid Gemini API Key. Please check your configuration."
      else if includes m "resource has been exhausted" || includes m "Quota exceeded" then
        "Gemini API quota exceeded. Please try again later."
      else errorMessage
  | ThrownOther => errorMessage
  end.

(** [generateAssistedAnnotations(imageFile, userAssistPrompt,
    existingAnnotations)]: [inl message] when the promise rejects with
    [Error(message)], [inr boxes] when it resolves; with it, the number of
    UUIDs drawn so far.  The prompt and the existing boxes only go into the
    request text, whose effect is [run]. *)
Definition generateAssistedAnnotations (run : RemoteRun) (n : nat)
  : (string + list BoundingBox) * nat :=
  if negb ai then
    (inl "Gemini API client is not initialized. API_KEY might be missing.", n)
  else
    match assistTry run n with
    | (inr validatedNewBoxes, n') => (inr validatedNewBoxes, n')
    | (inl error, n') => (inl (assistCatch error), n')
    end.

(** *** What the validation pushes *)

(** The fields of the entries of a reply that pass the test, in order. *)
Fixpoint acceptedFields (raw : list JsValue) : list (string * Q * Q * Q * Q) :=
  match raw with
  | [] => []
  | b :: rest =>
      match validBoxFields b with
      | inr (Some fields) => fields :: acceptedFields rest
      | _ => acceptedFields rest
      end
  end.

(** The box [b] carries the label and the geometry [fields]. *)
Definition carries (fields : string * Q * Q * Q * Q) (b : BoundingBox) : Prop :=
  let '(l, x, y, w, h) := fields in
  label b = l /\ x_min b = x /\ y_min b = y /\ width b = w /\ height b = h.

(** Without a [null] entry the loop runs to its end, and pushes one box per
    entry that passes the test, in the order of the entries. *)
Lemma validateNewBoxes_pushes (raw : list JsValue) :
  forall (validated : list BoundingBox) (n : nat),
  JNull ∉ raw ->
  exists pushed,
    validateNewBoxes raw validated n
      = (inr (validated ++ pushed), (n + length pushed)%nat) /\
    Forall2 carries (acceptedFields raw) pushed /\
    map box_id pushed = map randomUUID (seq n (length pushed)) /\
    Forall (fun b => source b = gemini_assisted) pushed.
Proof.
  induction raw as [|b rest IH]; intros validated n Hnull.
  - exists []. cbn. rewrite app_nil_r, Nat.add_0_r.
    split; [reflexivity|]. split; [constructor|]. split; [reflexivity | constructor].
  - apply not_elem_of_cons in Hnull as [Hb Hrest].
    cbn [validateNewBoxes acceptedFields].
    destruct (validBoxFields b) as [e | [[[[[l x] y] w] h]|]] eqn:E.
    + destruct b; try discriminate E. congruence.
    + destruct (IH (validated ++ [mkBox (randomUUID n) l x y w h (payloadColor b)
                                    gemini_assisted]) (S n) Hrest)
        as (pushed & Heq & Hcar & Hids & Hsrc).
      eexists (_ :: pushed). rewrite Heq, <- app_assoc. cbn [app length].
      rewrite Nat.add_succ_r. split; [reflexivity|].
      split; [constructor; [cbn; auto | exact Hcar]|].
      split; [cbn; now rewrite Hids|].
      constructor; [reflexivity | exact Hsrc].
    + exact (IH validated n Hrest).
Qed.

End Service.

End GeminiService.

(** ** The editor ([src/components/InteractiveAnnotator.tsx]) *)

Module Annotator.

Import ColorUtils GeminiService.

Local Open Scope Q_scope.

Inductive InteractionMode : Type := Select | Draw | Resize | Move.

Inductive ResizeHandle : Type :=
  | handle_n | handle_s | handle_e | handle_w
  | handle_nw | handle_ne | handle_sw | handle_se.

#[global] Instance InteractionMode_eq_dec : EqDecision InteractionMode.
Proof. solve_decision. Defined.

#[global] Instance ResizeHandle_eq_dec : EqDecision ResizeHandle.
Proof. solve_decision. Defined.

(** [InteractionState]: [Partial<BoundingBox>] and the four anchors; every
    field may be [undefined] ([None]). *)
Record InteractionState := mkInteraction {
  part_id : option string;
  part_label : option string;
  part_x_min : option Q;
  part_y_min : option Q;
  part_width : option Q;
  part_height : option Q;
  part_color : option string;
  part_source : option AnnotationSource;
  startX : option Q;
  startY : option Q;
  boxInitialX : option Q;
  boxInitialY : option Q
}.

(** [{ x_min, y_min, width, height }]. *)
Definition drawingBox (x y w h : Q) : InteractionState :=
  mkInteraction None None (Some x) (Some y) (Some w) (Some h) None None
    None None None None.

(** [{ startX, startY, boxInitialX, boxInitialY }]. *)
Definition moveAnchor (sx sy bx by' : Q) : InteractionState :=
  mkInteraction None None None None None None None None
    (Some sx) (Some sy) (Some bx) (Some by').

(** [{ startX, startY, ...box }]. *)
Definition resizeAnchor (sx sy : Q) (box : BoundingBox) : InteractionState :=
  mkInteraction (Some (box_id box)) (Some (label box))
    (Some (x_min box)) (Some (y_min box)) (Some (width box)) (Some (height box))
    (color box) (Some (source box))
    (Some sx) (Some sy) None None.

(** A [BoundingBox] read as a [Partial<BoundingBox>]. *)
Definition partialOfBox (box : BoundingBox) : InteractionState :=
  mkInteraction (Some (box_id box)) (Some (label box))
    (Some (x_min box)) (Some (y_min box)) (Some (width box)) (Some (height box))
    (color box) (Some (source box))
    None None None None.

(** [imageRenderSize]. *)
Record ImageRenderSize := mkRenderSize {
  renderedWidth : Q;
  renderedHeight : Q;
  offsetX : Q;
  offsetY : Q
}.

(** The part of [svg.getBoundingClientRect()] that is read. *)
Record DOMRect := mkRect {
  left : Q;
  top : Q;
  rect_width : Q;
  rect_height : Q
}.

(** The part of the [img] element that is read. *)
Record HTMLImageElement := mkImage {
  naturalWidth : Q;
  naturalHeight : Q
}.

(** The object returned by [getNormalizedCoords]. *)
Record Coords := mkCoords {
  coords_x : Q;
  coords_y : Q
}.

(** The component state, then what the handlers read and write outside it:
    the elements behind [svgRef] and [imageRef] ([None] while a ref is
    [null]), the colour allocator of [colorUtils] and the number of UUIDs the
    browser has handed out. *)
Record State := mkState {
  boxes : list BoundingBox;
  selectedBoxId : option string;
  interactionMode : InteractionMode;
  currentDrawingBox : option InteractionState;
  resizeHandle : option ResizeHandle;
  assistPrompt : string;
  isAssisting : bool;
  assistError : option string;
  imageRenderSize : ImageRenderSize;
  svgRef : option DOMRect;
  imageRef : option HTMLImageElement;
  labelColors : ColorState;
  uuidsDrawn : nat
}.

Definition setBoxes (f : list BoundingBox -> list BoundingBox) (st : State) : State :=
  mkState (f (boxes st)) (selectedBoxId st) (interactionMode st)
    (currentDrawingBox st) (resizeHandle st) (assistPrompt st)
    (isAssisting st) (assistError st) (imageRenderSize st) (svgRef st)
    (imageRef st) (labelColors st) (uuidsDrawn st).

Definition setSelectedBoxId (v : option string) (st : State) : State :=
  mkState (boxes st) v (interactionMode st) (currentDrawingBox st)
    (resizeHandle st) (assistPrompt st) (isAssisting st) (assistError st)
    (imageRenderSize st) (svgRef st) (imageRef st) (labelColors st)
    (uuidsDrawn st).

Definition setInteractionMode (v : InteractionMode) (st : State) : State :=
  mkState (boxes st) (selectedBoxId st) v (currentDrawingBox st)
    (resizeHandle st) (assistPrompt st) (isAssisting st) (assistError st)
    (imageRenderSize st) (svgRef st) (imageRef st) (labelColors st)
    (uuidsDrawn st).

Definition setCurrentDrawingBox (v : option InteractionState) (st : State) : State :=
  mkState (boxes st) (selectedBoxId st) (interactionMode st) v
    (resizeHandle st) (assistPrompt st) (isAssisting st) (assistError st)
    (imageRenderSize st) (svgRef st) (imageRef st) (labelColors st)
    (uuidsDrawn st).

Definition setResizeHandle (v : option ResizeHandle) (st : State) : State :=
  mkState (boxes st) (selectedBoxId st) (interactionMode st)
    (currentDrawingBox st) v (assistPrompt st) (isAssisting st)
    (assistError st) (imageRenderSize st) (svgRef st) (imageRef st)
    (labelColors st) (uuidsDrawn st).

Definition setAssistPrompt (v : string) (st : State) : State :=
  mkState (boxes st) (selectedBoxId st) (interactionMode st)
    (currentDrawingBox st) (resizeHandle st) v (isAssisting st)
    (assistError st) (imageRenderSize st) (svgRef st) (imageRef st)
    (labelColors st) (uuidsDrawn st).

Definition setIsAssisting (v : bool) (st : State) : State :=
  mkState (boxes st) (selectedBoxId st) (interactionMode st)
    (currentDrawingBox st) (resizeHandle st) (assistPrompt st) v
    (assistError st) (imageRenderSize st) (svgRef st) (imageRef st)
    (labelColors st) (uuidsDrawn st).

Definition setAssistError (v : option string) (st : State) : State :=
  mkState (boxes st) (selectedBoxId st) (interactionMode st)
    (currentDrawingBox st) (resizeHandle st) (assistPrompt st)
    (isAssisting st) v (imageRenderSize st) (svgRef st) (imageRef st)
    (labelColors st) (uuidsDrawn st).

Definition setImageRenderSize (v : ImageRenderSize) (st : State) : State :=
  mkState (boxes st) (selectedBoxId st) (interactionMode st)
    (currentDrawingBox st) (resizeHandle st) (assistPrompt st)
    (isAssisting st) (assistError st) v (svgRef st) (imageRef st)
    (labelColors st) (uuidsDrawn st).

Definition setLabelColors (v : ColorState) (st : State) : State :=
  mkState (boxes st) (selectedBoxId st) (interactionMode st)
    (currentDrawingBox st) (resizeHandle st) (assistPrompt st)
    (isAssisting st) (assistError st) (imageRenderSize st) (svgRef st)
    (imageRef st) v (uuidsDrawn st).

Definition setUuidsDrawn (v : nat) (st : State) : State :=
  mkState (boxes st) (selectedBoxId st) (interactionMode st)
    (currentDrawingBox st) (resizeHandle st) (assistPrompt st)
    (isAssisting st) (assistError st) (imageRenderSize st) (svgRef st)
    (imageRef st) (labelColors st) v.

(** *** JavaScript tests *)

(** [a < b] on numbers. *)
Definition Qltb (a b : Q) : bool := negb (Qle_bool b a).

(** Truthiness of an optional number: [undefined] and [0] are falsy. *)
Definition truthyNum (o : option Q) : bool :=
  match o with
  | Some q => negb (Qeq_bool q 0)
  | None => false
  end.

(** Truthiness of [string | null]: [null] and the empty string are falsy. *)
Definition truthyStr (o : option string) : bool :=
  match o with
  | Some s => negb (String.eqb s "")
  | None => false
  end.

(** [b.id === selectedBoxId]. *)
Definition isSelectedBox (sel : option string) (b : BoundingBox) : bool :=
  match sel with
  | Some s => String.eqb (box_id b) s
  | None => false
  end.

(** A field typed [number] that is read without a test.  On the states the
    handlers build it is defined whenever it is read (see [anchored]). *)
Definition asNumber (o : option Q) : Q := default 0 o.

(** White space removed by [trim], within ASCII. *)
Definition isWhiteSpace (c : Ascii.ascii) : bool :=
  let n := Ascii.nat_of_ascii c in
  ((9 <=? n)%nat && (n <=? 13)%nat) || (n =? 32)%nat.

(** [!s.trim()]. *)
Fixpoint isBlank (s : string) : bool :=
  match s with
  | EmptyString => true
  | String c rest => isWhiteSpace c && isBlank rest
  end.

(** *** Coordinates *)

(** [getNormalizedCoords(clientX, clientY)]; [None] is [null]. *)
Definition getNormalizedCoords (st : State) (clientX clientY : Q) : option Coords :=
  match svgRef st with
  | None => None
  | Some svgRect =>
      if Qeq_bool (renderedWidth (imageRenderSize st)) 0 then None
      else
        let x := (clientX - left svgRect - offsetX (imageRenderSize st))
                 / renderedWidth (imageRenderSize st) in
        let y := (clientY - top svgRect - offsetY (imageRenderSize st))
                 / renderedHeight (imageRenderSize st) in
        Some (mkCoords (Qmax 0 (Qmin 1 x)) (Qmax 0 (Qmin 1 y)))
  end.

(** The object returned by [toDisplayCoords] when it is not [{}]. *)
Record DisplayRect := mkDisplay {
  disp_x : Q;
  disp_y : Q;
  disp_width : Q;
  disp_height : Q
}.

(** [toDisplayCoords(box)]; [None] is the empty record [{}]. *)
Definition toDisplayCoords (size : ImageRenderSize) (box : InteractionState)
  : option DisplayRect :=
  if negb (truthyNum (part_x_min box)) || negb (truthyNum (part_y_min box))
     || negb (truthyNum (part_width box)) || negb (truthyNum (part_height box))
     || Qeq_bool (renderedWidth size) 0
  then None
  else
    Some (mkDisplay
            (asNumber (part_x_min box) * renderedWidth size + offsetX size)
            (asNumber (part_y_min box) * renderedHeight size + offsetY size)
            (asNumber (part_width box) * renderedWidth size)
            (asNumber (part_height box) * renderedHeight size)).

(** An entry of the array returned by [getHandlePositions]. *)
Record HandlePosition := mkHandle {
  handle_id : ResizeHandle;
  cx : Q;
  cy : Q;
  cursor : string
}.

(** [getHandlePositions(box)]. *)
Definition getHandlePositions (size : ImageRenderSize) (box : BoundingBox)
  : list HandlePosition :=
  match toDisplayCoords size (partialOfBox box) with
  | None => []
  | Some disp =>
      if Qeq_bool (disp_x disp) 0 then []
      else
        [ mkHandle handle_nw (disp_x disp) (disp_y disp) "nwse-resize";
          mkHandle handle_ne (disp_x disp + disp_width disp) (disp_y disp) "nesw-resize";
          mkHandle handle_sw (disp_x disp) (disp_y disp + disp_height disp) "nesw-resize";
          mkHandle handle_se (disp_x disp + disp_width disp)
            (disp_y disp + disp_height disp) "nwse-resize" ]
  end.

(** What the callback of [boxes.map] in the render function draws for one
    box: the rectangle and the handle circles; [None] is [null]. *)
Definition renderBox (st : State) (box : BoundingBox)
  : option (DisplayRect * list HandlePosition) :=
  match toDisplayCoords (imageRenderSize st) (partialOfBox box) with
  | None => None
  | Some rect =>
      Some (rect,
            if isSelectedBox (selectedBoxId st) box
            then getHandlePositions (imageRenderSize st) box
            else [])
  end.

(** *** Handlers *)

Section Handlers.

(** The palette imported from [../constants], and the environment of the
    Gemini service. *)
Variable BOUNDING_BOX_COLORS : list string.
Variable ai : bool.
Variable randomUUID : nat -> string.
Variable nullPropertyMessage : string.

(** [bs.map(b => ({...b, color: getLabelColor(b.label)}))], applied to the
    initial annotations and to the boxes an assist call returns. *)
Fixpoint withColors (bs : list BoundingBox) (colors : ColorState)
  : list BoundingBox * ColorState :=
  match bs with
  | [] => ([], colors)
  | b :: rest =>
      let '(c, colors1) := getLabelColor BOUNDING_BOX_COLORS (label b) colors in
      let '(rest', colors2) := withColors rest colors1 in
      (mkBox (box_id b) (label b) (x_min b) (y_min b) (width b) (height b) c (source b)
         :: rest',
       colors2)
  end.

(** The state of the first render, once React has attached the refs: the
    [useState] initial values. *)
Definition mount (initialAnnotations : list BoundingBox)
    (img : option HTMLImageElement) (svg : option DOMRect)
    (colors : ColorState) (uuids : nat) : State :=
  let '(bs, colors') := withColors initialAnnotations colors in
  mkState bs None Select None None "" false None (mkRenderSize 0 0 0 0)
    svg img colors' uuids.

(** [updateRenderSize()], run when the image has loaded and when the SVG
    element is resized. *)
Definition updateRenderSize (st : State) : State :=
  match imageRef st, svgRef st with
  | Some img, Some svgRect =>
      let imgAspectRatio := naturalWidth img / naturalHeight img in
      let svgAspectRatio := rect_width svgRect / rect_height svgRect in
      let '(renderedWidth, renderedHeight) :=
        if Qltb svgAspectRatio imgAspectRatio
        then (rect_width svgRect, rect_width svgRect / imgAspectRatio)
        else (rect_height svgRect * imgAspectRatio, rect_height svgRect) in
      let offsetX := (rect_width svgRect - renderedWidth) / 2 in
      let offsetY := (rect_height svgRect - renderedHeight) / 2 in
      setImageRenderSize (mkRenderSize renderedWidth renderedHeight offsetX offsetY) st
  | _, _ => st
  end.

(** The tool buttons: [onClick={() => setInteractionMode('select')}] and
    [... ('draw')]. *)
Definition clickSelectTool (st : State) : State := setInteractionMode Select st.
Definition clickDrawTool (st : State) : State := setInteractionMode Draw st.

(** The test of the handle check in [handleMouseDown]: the press is within
    [handleSize] of the bottom-right corner on both axes. *)
Definition nearBottomRight (size : ImageRenderSize) (coords : Coords)
    (selectedBox : BoundingBox) : bool :=
  let handleSize := 10 / Qmin (renderedWidth size) (renderedHeight size) in
  Qltb (Qabs (coords_x coords - (x_min selectedBox + width selectedBox))) handleSize
  && Qltb (Qabs (coords_y coords - (y_min selectedBox + height selectedBox))) handleSize.

(** The test of the hit loop in [handleMouseDown]. *)
Definition containsPoint (coords : Coords) (box : BoundingBox) : bool :=
  Qle_bool (x_min box) (coords_x coords)
  && Qle_bool (coords_x coords) (x_min box + width box)
  && Qle_bool (y_min box) (coords_y coords)
  && Qle_bool (coords_y coords) (y_min box + height box).

(** [handleMouseDown(e)] on the SVG element. *)
Definition handleMouseDown (st : State) (clientX clientY : Q) : State :=
  match getNormalizedCoords st clientX clientY with
  | None => st
  | Some coords =>
      match interactionMode st with
      | Draw =>
          setCurrentDrawingBox
            (Some (drawingBox (coords_x coords) (coords_y coords) 0 0)) st
      | Select | Move | Resize =>
          let onHandle :=
            match List.find (isSelectedBox (selectedBoxId st)) (boxes st) with
            | Some selectedBox => nearBottomRight (imageRenderSize st) coords selectedBox
            | None => false
            end in
          if onHandle then
            setResizeHandle (Some handle_se) (setInteractionMode Resize st)
          else
            (* the loop runs from the last box to the first *)
            match List.find (containsPoint coords) (rev (boxes st)) with
            | Some box =>
                setCurrentDrawingBox
                  (Some (moveAnchor (coords_x coords) (coords_y coords)
                           (x_min box) (y_min box)))
                  (setInteractionMode Move (setSelectedBoxId (Some (box_id box)) st))
            | None =>
                let st1 := setSelectedBoxId None st in
                match interactionMode st with
                | Move | Resize => setInteractionMode Select st1
                | _ => st1
                end
            end
      end
  end.

(** [onMouseDown] of a handle circle of [box] (it stops propagation, so
    [handleMouseDown] does not run). *)
Definition handleCircleMouseDown (st : State) (box : BoundingBox)
    (handle : ResizeHandle) (clientX clientY : Q) : State :=
  let st1 := setResizeHandle (Some handle) (setInteractionMode Resize st) in
  match getNormalizedCoords st clientX clientY with
  | Some currentBoxCoords =>
      setCurrentDrawingBox
        (Some (resizeAnchor (coords_x currentBoxCoords) (coords_y currentBoxCoords) box))
        st1
  | None => st1
  end.

(** The draw branch of [handleMouseMove]: the new [currentDrawingBox]. *)
Definition drawTo (coords : Coords) (cdb : InteractionState) (bx by' : Q)
  : InteractionState :=
  let newWidth := Qabs (coords_x coords - bx) in
  let newHeight := Qabs (coords_y coords - by') in
  mkInteraction (part_id cdb) (part_label cdb)
    (Some (Qmin (coords_x coords) bx)) (Some (Qmin (coords_y coords) by'))
    (Some newWidth) (Some newHeight)
    (part_color cdb) (part_source cdb)
    (startX cdb) (startY cdb) (boxInitialX cdb) (boxInitialY cdb).

(** [{ ...b, x_min: newXMin, y_min: newYMin, source: 'human-edited' }]. *)
Definition movedBox (newXMin newYMin : Q) (b : BoundingBox) : BoundingBox :=
  mkBox (box_id b) (label b) newXMin newYMin (width b) (height b) (color b)
    human_edited.

(** [{ ...b, x_min, y_min, width, height, source: 'human-edited' }]. *)
Definition resizedBox (x y w h : Q) (b : BoundingBox) : BoundingBox :=
  mkBox (box_id b) (label b) x y w h (color b) human_edited.

(** The move branch, past its guards. *)
Definition moveTo (st : State) (coords : Coords) (cdb : InteractionState)
    (sx : Q) : State :=
  match List.find (isSelectedBox (selectedBoxId st)) (boxes st),
        boxInitialX cdb, boxInitialY cdb with
  | Some selectedBox, Some bix, Some biy =>
      let dx := coords_x coords - sx in
      let dy := coords_y coords - asNumber (startY cdb) in
      let newXMin := bix + dx in
      let newYMin := biy + dy in
      let newXMin := Qmax 0 (Qmin newXMin (1 - width selectedBox)) in
      let newYMin := Qmax 0 (Qmin newYMin (1 - height selectedBox)) in
      setBoxes
        (map (fun b => if isSelectedBox (selectedBoxId st) b
                       then movedBox newXMin newYMin b else b))
        st
  | _, _, _ => st
  end.

(** The resize branch, past its guards. *)
Definition resizeTo (st : State) (coords : Coords) (handle : ResizeHandle) : State :=
  match List.find (isSelectedBox (selectedBoxId st)) (boxes st) with
  | None => st
  | Some selectedBox =>
      let x := x_min selectedBox in
      let y := y_min selectedBox in
      let w := width selectedBox in
      let h := height selectedBox in
      let '(w, h) :=
        if decide (handle = handle_se)
        then (Qmax 0.01 (coords_x coords - x), Qmax 0.01 (coords_y coords - y))
        else (w, h) in
      let w := if Qltb 1 (x + w) then 1 - x else w in
      let h := if Qltb 1 (y + h) then 1 - y else h in
      setBoxes
        (map (fun b => if isSelectedBox (selectedBoxId st) b
                       then resizedBox x y w h b else b))
        st
  end.

(** [handleMouseMove(e)]. *)
Definition handleMouseMove (st : State) (clientX clientY : Q) : State :=
  match getNormalizedCoords st clientX clientY, currentDrawingBox st with
  | Some coords, Some cdb =>
      match interactionMode st, part_x_min cdb, part_y_min cdb with
      | Draw, Some bx, Some by' =>
          setCurrentDrawingBox (Some (drawTo coords cdb bx by')) st
      | mode, _, _ =>
          match mode, truthyStr (selectedBoxId st), startX cdb, resizeHandle st with
          | Move, true, Some sx, _ => moveTo st coords cdb sx
          | Resize, true, _, Some handle => resizeTo st coords handle
          | _, _, _, _ => st
          end
      end
  | _, _ => st
  end.

(** The first [if] of [handleMouseUp]: the in-progress box is committed
    when the mode is [draw], its width and height are truthy and [prompt]
    returns a truthy label; [answer] is what [prompt] returns if it is
    called ([None] for [null]). *)
Definition commitDrawing (st : State) (answer : option string) : State :=
  match interactionMode st, currentDrawingBox st with
  | Draw, Some cdb =>
      if truthyNum (part_width cdb) && truthyNum (part_height cdb) then
        if truthyStr answer then
          let newLabel := default "" answer in
          let '(c, colors') :=
            getLabelColor BOUNDING_BOX_COLORS newLabel (labelColors st) in
          let newBox :=
            mkBox (randomUUID (uuidsDrawn st)) newLabel
              (asNumber (part_x_min cdb)) (asNumber (part_y_min cdb))
              (asNumber (part_width cdb)) (asNumber (part_height cdb))
              c human_added in
          setSelectedBoxId (Some (box_id newBox))
            (setBoxes (fun prev => prev ++ [newBox])
               (setLabelColors colors'
                  (setUuidsDrawn (S (uuidsDrawn st)) st)))
        else st
      else st
  | _, _ => st
  end.

(** [handleMouseUp()], also installed as [onMouseLeave]. *)
Definition handleMouseUp (st : State) (answer : option string) : State :=
  let st1 := commitDrawing st answer in
  let st2 :=
    match interactionMode st with
    | Move | Resize => setInteractionMode Select st1
    | _ => st1
    end in
  setResizeHandle None (setCurrentDrawingBox None st2).

(** The [onGeminiAssist] prop; the application passes
    [handleGeminiAssistInEditor], which forwards to the service. *)
Definition onGeminiAssist (run : RemoteRun) (n : nat)
  : (string + list BoundingBox) * nat :=
  generateAssistedAnnotations ai randomUUID nullPropertyMessage run n.

(** [handleGeminiAssistRequest()], from the click to the settled promise;
    [run] is what the network does if the request is sent. *)
Definition handleGeminiAssistRequest (st : State) (run : RemoteRun) : State :=
  if isBlank (assistPrompt st) then
    setAssistError (Some "Please enter a prompt for Gemini Assist.") st
  else
    let st1 := setAssistError None (setIsAssisting true st) in
    let '(result, n) := onGeminiAssist run (uuidsDrawn st) in
    let st2 :=
      match result with
      | inr newSuggestedBoxes =>
          let '(boxesWithColors, colors') :=
            withColors newSuggestedBoxes (labelColors st) in
          setAssistPrompt ""
            (setBoxes (fun prev => prev ++ boxesWithColors)
               (setLabelColors colors' st1))
      | inl message =>
          setAssistError
            (Some (if String.eqb message "" then "Gemini Assist failed." else message))
            st1
      end in
    setIsAssisting false (setUuidsDrawn n st2).

(** A run of pointer moves, oldest first. *)
Definition handleMouseMoves (st : State) (moves : list (Q * Q)) : State :=
  fold_left (fun s m => handleMouseMove s (fst m) (snd m)) moves st.

End Handlers.


(** *** States the rational model covers *)

(** The rendered image has a height whenever it has a width, so that
    [getNormalizedCoords] divides by no zero. *)
Definition laidOut (size : ImageRenderSize) : Prop :=
  ~ renderedWidth size == 0 -> ~ renderedHeight size == 0.

(** The fields read without a test are defined: [startY] comes with
    [startX], and [x_min], [y_min] with a [width]. *)
Definition anchored (cdb : InteractionState) : Prop :=
  (is_Some (startX cdb) -> is_Some (startY cdb)) /\
  (is_Some (part_width cdb) -> is_Some (part_x_min cdb) /\ is_Some (part_y_min cdb)).

Definition inModel (st : State) : Prop :=
  laidOut (imageRenderSize st) /\
  forall cdb, currentDrawingBox st = Some cdb -> anchored cdb.

(** The data-model invariant of a committed box. *)
Definition validBox (b : BoundingBox) : Prop :=
  0 <= x_min b /\ 0 <= y_min b /\ 0 < width b /\ 0 < height b /\
  x_min b + width b <= 1 /\ y_min b + height b <= 1.

(** *** Tests and their meaning *)

Lemma Qltb_true (a b : Q) : Qltb a b = true <-> a < b.
Proof.
  unfold Qltb. rewrite negb_true_iff, <- not_true_iff_false, Qle_bool_iff.
  split; [apply Qnot_le_lt | apply Qlt_not_le].
Qed.

Lemma Qltb_false (a b : Q) : Qltb a b = false <-> b <= a.
Proof.
  unfold Qltb. rewrite negb_false_iff. apply Qle_bool_iff.
Qed.

Lemma truthyNum_false (o : option Q) :
  truthyNum o = false <-> o = None \/ exists q, o = Some q /\ q == 0.
Proof.
  destruct o as [q|]; cbn.
  - rewrite negb_false_iff, Qeq_bool_iff. split.
    + intros H. right. eauto.
    + intros [H | (q' & [= <-] & H)]; [discriminate | exact H].
  - split; [auto | reflexivity].
Qed.

Lemma truthyNum_true (o : option Q) :
  truthyNum o = true <-> exists q, o = Some q /\ ~ q == 0.
Proof.
  destruct o as [q|]; cbn.
  - rewrite negb_true_iff, <- not_true_iff_false, Qeq_bool_iff. split.
    + eauto.
    + now intros (q' & [= <-] & H).
  - split; [discriminate | now intros (q & H & _)].
Qed.

Lemma clamp01 (x : Q) : 0 <= Qmax 0 (Qmin 1 x) <= 1.
Proof.
  destruct (Q.max_spec 0 (Qmin 1 x)) as [[? ?] | [? ?]];
    destruct (Q.min_spec 1 x) as [[? ?] | [? ?]]; lra.
Qed.

Lemma clamp01_id (x : Q) : 0 <= x <= 1 -> Qmax 0 (Qmin 1 x) == x.
Proof.
  intros Hx.
  destruct (Q.max_spec 0 (Qmin 1 x)) as [[? ?] | [? ?]];
    destruct (Q.min_spec 1 x) as [[? ?] | [? ?]]; lra.
Qed.

(** The coordinates of a pointer event lie in the unit square. *)
Lemma getNormalizedCoords_unit (st : State) (clientX clientY : Q) (coords : Coords) :
  getNormalizedCoords st clientX clientY = Some coords ->
  0 <= coords_x coords <= 1 /\ 0 <= coords_y coords <= 1.
Proof.
  unfold getNormalizedCoords. destruct (svgRef st); [|discriminate].
  destruct (Qeq_bool _ 0); [discriminate|].
  intros [= <-]. cbn. split; apply clamp01.
Qed.

(** *** Scenarios *)

(** A palette and a source of UUIDs for the scenarios. *)
Definition scenePalette : list string := ["#FF0000"; "#00FF00"; "#0000FF"].

Definition sceneUUID (n : nat) : string :=
  match n with
  | O => "uuid-0"
  | 1%nat => "uuid-1"
  | _ => "uuid-2"
  end.

(** An editor just opened on the stored annotations [initial]: an 800 by 600
    image in a 400 by 300 SVG element at the origin of the viewport, laid
    out (same aspect ratio, so no letterbox). *)
Definition openedEditor (initial : list BoundingBox) : State :=
  updateRenderSize
    (mount scenePalette initial (Some (mkImage 800 600)) (Some (mkRect 0 0 400 300))
       ColorUtils.initial 0).

(** A stored box as the editor holds it, with the colour it was given. *)
Definition coloured (c : string) (b : BoundingBox) : BoundingBox :=
  mkBox (box_id b) (label b) (x_min b) (y_min b) (width b) (height b) (Some c)
    (source b).

(** A box in the interior of the image, as automatic detection delivers
    it. *)
Definition interiorBox (x y w h : Q) : BoundingBox :=
  mkBox "b" "car" x y w h None gemini.

(** A box that touches the left edge of the image. *)
Definition leftEdgeBox : BoundingBox :=
  mkBox "left" "car" 0 0.25 0.5 0.5 None human_added.

(** *** Layout *)

Lemma Qdiv_pos (a b : Q) : 0 < a -> 0 < b -> 0 < a / b.
Proof.
  intros Ha Hb. unfold Qdiv.
  apply Qmult_lt_0_compat; [exact Ha | now apply Qinv_lt_0_compat].
Qed.

(** For an image and an SVG element with positive sizes, the rendered size
    has a positive width and a positive height: pointer events are then
    normalized without a division by zero. *)
Lemma updateRenderSize_positive (st : State) (img : HTMLImageElement) (svgRect : DOMRect) :
  imageRef st = Some img -> svgRef st = Some svgRect ->
  0 < naturalWidth img -> 0 < naturalHeight img ->
  0 < rect_width svgRect -> 0 < rect_height svgRect ->
  0 < renderedWidth (imageRenderSize (updateRenderSize st)) /\
  0 < renderedHeight (imageRenderSize (updateRenderSize st)).
Proof.
  intros Himg Hsvg Hnw Hnh Hw Hh. unfold updateRenderSize. rewrite Himg, Hsvg.
  pose proof (Qdiv_pos _ _ Hnw Hnh) as Haspect.
  destruct (Qltb _ _); cbn; split;
    auto using Qdiv_pos, Qmult_lt_0_compat.
Qed.

Lemma updateRenderSize_laidOut (st : State) (img : HTMLImageElement) (svgRect : DOMRect) :
  imageRef st = Some img -> svgRef st = Some svgRect ->
  0 < naturalWidth img -> 0 < naturalHeight img ->
  0 < rect_width svgRect -> 0 < rect_height svgRect ->
  laidOut (imageRenderSize (updateRenderSize st)).
Proof.
  intros Himg Hsvg Hnw Hnh Hw Hh _.
  destruct (updateRenderSize_positive st img svgRect) as [_ H]; try assumption.
  intros E. rewrite E in H. lra.
Qed.

(** The scenario of the specification: an 800 by 600 image in a 400 by 300
    container; the box (0.25, 0.25, 0.5, 0.5) is displayed as the rectangle
    (100, 75, 200, 150). *)
Example toDisplayCoords_scenario :
  exists rect,
    toDisplayCoords (imageRenderSize (openedEditor []))
      (partialOfBox (interiorBox 0.25 0.25 0.5 0.5)) = Some rect /\
    disp_x rect == 100 /\ disp_y rect == 75 /\
    disp_width rect == 200 /\ disp_height rect == 150.
Proof. eexists. split; [vm_compute; reflexivity|]. repeat split. Qed.

(** *** Display transform *)

Lemma toDisplayCoords_Some (size : ImageRenderSize) (box : BoundingBox) :
  ~ x_min box == 0 -> ~ y_min box == 0 -> ~ width box == 0 -> ~ height box == 0 ->
  ~ renderedWidth size == 0 ->
  toDisplayCoords size (partialOfBox box) =
    Some (mkDisplay (x_min box * renderedWidth size + offsetX size)
            (y_min box * renderedHeight size + offsetY size)
            (width box * renderedWidth size)
            (height box * renderedHeight size)).
Proof.
  intros Hx Hy Hw Hh HW. unfold toDisplayCoords, truthyNum. cbn.
  rewrite <- Qeq_bool_iff in Hx, Hy, Hw, Hh, HW.
  apply not_true_is_false in Hx, Hy, Hw, Hh, HW.
  now rewrite Hx, Hy, Hw, Hh, HW.
Qed.

(** The round trip of C2 where [toDisplayCoords] does return a rectangle:
    the two corners of the displayed rectangle, as viewport coordinates, are
    mapped back onto the corners of the box. *)
Lemma display_roundtrip (st : State) (svgRect : DOMRect) (box : BoundingBox) :
  svgRef st = Some svgRect ->
  ~ renderedWidth (imageRenderSize st) == 0 ->
  ~ renderedHeight (imageRenderSize st) == 0 ->
  ~ x_min box == 0 -> ~ y_min box == 0 -> ~ width box == 0 -> ~ height box == 0 ->
  0 <= x_min box -> 0 <= y_min box -> 0 <= width box -> 0 <= height box ->
  x_min box + width box <= 1 -> y_min box + height box <= 1 ->
  exists disp topLeft bottomRight,
    toDisplayCoords (imageRenderSize st) (partialOfBox box) = Some disp /\
    getNormalizedCoords st (disp_x disp + left svgRect) (disp_y disp + top svgRect)
      = Some topLeft /\
    getNormalizedCoords st (disp_x disp + disp_width disp + left svgRect)
      (disp_y disp + disp_height disp + top svgRect) = Some bottomRight /\
    coords_x topLeft == x_min box /\ coords_y topLeft == y_min box /\
    coords_x bottomRight - coords_x topLeft == width box /\
    coords_y bottomRight - coords_y topLeft == height box.
Proof.
  intros Hsvg HW HH Hx Hy Hw Hh Hx0 Hy0 Hw0 Hh0 Hx1 Hy1.
  rewrite (toDisplayCoords_Some _ _ Hx Hy Hw Hh HW).
  unfold getNormalizedCoords. rewrite Hsvg.
  pose proof HW as HWb. rewrite <- Qeq_bool_iff in HWb.
  apply not_true_is_false in HWb. rewrite HWb.
  eexists _, _, _. split; [reflexivity|]. split; [reflexivity|].
  split; [reflexivity|]. cbn.
  set (W := renderedWidth (imageRenderSize st)) in *.
  set (H := renderedHeight (imageRenderSize st)) in *.
  set (ox := offsetX (imageRenderSize st)). set (oy := offsetY (imageRenderSize st)).
  assert (E1 : (x_min box * W + ox + left svgRect - left svgRect - ox) / W == x_min box)
    by (field; exact HW).
  assert (E2 : (y_min box * H + oy + top svgRect - top svgRect - oy) / H == y_min box)
    by (field; exact HH).
  assert (E3 : (x_min box * W + ox + width box * W + left svgRect - left svgRect - ox) / W
               == x_min box + width box) by (field; exact HW).
  assert (E4 : (y_min box * H + oy + height box * H + top svgRect - top svgRect - oy) / H
               == y_min box + height box) by (field; exact HH).
  rewrite E1, E2, E3, E4.
  rewrite !clamp01_id by lra. repeat split; lra.
Qed.

(** C10: a box with [x_min = 0], [y_min = 0], [width = 0] or [height = 0] gets
    the empty record from [toDisplayCoords] whatever the rendered size, so
    the render function draws nothing for it and it has no resize handles. *)
Theorem toDisplayCoords_zero_field_empty (st : State) (box : BoundingBox) :
  x_min box == 0 \/ y_min box == 0 \/ width box == 0 \/ height box == 0 ->
  toDisplayCoords (imageRenderSize st) (partialOfBox box) = None /\
  renderBox st box = None /\
  getHandlePositions (imageRenderSize st) box = [].
Proof.
  intros Hzero.
  assert (Hnone : toDisplayCoords (imageRenderSize st) (partialOfBox box) = None).
  { unfold toDisplayCoords, truthyNum. cbn.
    rewrite <- !Qeq_bool_iff in Hzero.
    destruct Hzero as [E | [E | [E | E]]]; rewrite E; cbn;
      rewrite ?orb_true_r; reflexivity. }
  unfold renderBox, getHandlePositions. now rewrite Hnone.
Qed.

(** On a laid-out 400 by 300 rendering, the selected box at the left edge
    is not drawn and has no handles. *)
Lemma toDisplayCoords_zero_field_empty_witness :
  let st := setSelectedBoxId (Some "left") (openedEditor [leftEdgeBox]) in
  ~ renderedWidth (imageRenderSize st) * renderedHeight (imageRenderSize st) == 0 /\
  toDisplayCoords (imageRenderSize st) (partialOfBox leftEdgeBox) = None /\
  renderBox st leftEdgeBox = None /\
  getHandlePositions (imageRenderSize st) leftEdgeBox = [].
Proof.
  split; [discriminate|].
  apply (toDisplayCoords_zero_field_empty
           (setSelectedBoxId (Some "left") (openedEditor [leftEdgeBox])) leftEdgeBox).
  left. reflexivity.
Defined.

(** C2, at a box on the left edge: the box lies inside the unit square and
    the rendering has an area, yet [toDisplayCoords] returns the empty record,
    so there are no displayed corners for [getNormalizedCoords] to map back. *)
Theorem display_roundtrip_breaks_at_left_edge :
  let size := imageRenderSize (openedEditor [leftEdgeBox]) in
  (0 <= x_min leftEdgeBox /\ 0 <= y_min leftEdgeBox /\
   0 < width leftEdgeBox /\ 0 < height leftEdgeBox /\
   x_min leftEdgeBox + width leftEdgeBox <= 1 /\
   y_min leftEdgeBox + height leftEdgeBox <= 1) /\
  ~ renderedWidth size * renderedHeight size == 0 /\
  toDisplayCoords size (partialOfBox leftEdgeBox) = None.
Proof.
  cbn. repeat split; try discriminate; try reflexivity.
Qed.

(** The user selects the only box [box] by a press and release at viewport
    point [(sx, sy)], then presses the [handle] circle of the box, as the
    editor holds it, at [(hx, hy)]. *)
Definition grabHandle (box : BoundingBox) (sx sy : Q) (handle : ResizeHandle)
    (hx hy : Q) : State :=
  let selected :=
    handleMouseUp scenePalette sceneUUID
      (handleMouseDown (openedEditor [box]) sx sy) None in
  match boxes selected with
  | shown :: _ => handleCircleMouseDown selected shown handle hx hy
  | [] => selected
  end.

(** *** Updating the selected box *)

Section UpdateSelected.

Variable sel : option string.
Variable g : BoundingBox -> BoundingBox.
Hypothesis g_id : forall b, box_id (g b) = box_id b.

(** The shape of every [setBoxes(prev => prev.map(b => b.id === selectedBoxId
    ? {...} : b))]. *)
Let update (bs : list BoundingBox) : list BoundingBox :=
  map (fun b => if isSelectedBox sel b then g b else b) bs.

Lemma isSelectedBox_update (b : BoundingBox) :
  isSelectedBox sel (g b) = isSelectedBox sel b.
Proof. unfold isSelectedBox. now rewrite g_id. Qed.

Lemma update_ids (bs : list BoundingBox) :
  map box_id (update bs) = map box_id bs.
Proof.
  unfold update. induction bs as [|b bs IH]; [reflexivity|]. cbn. rewrite IH. f_equal.
  destruct (isSelectedBox sel b); [apply g_id | reflexivity].
Qed.

Lemma find_update (bs : list BoundingBox) :
  List.find (isSelectedBox sel) (update bs) = g <$> List.find (isSelectedBox sel) bs.
Proof.
  unfold update. induction bs as [|b bs IH]; [reflexivity|]. cbn.
  destruct (isSelectedBox sel b) eqn:E.
  - now rewrite isSelectedBox_update, E.
  - rewrite E. exact IH.
Qed.

Lemma Forall_update (P : BoundingBox -> Prop) (bs : list BoundingBox) :
  Forall P bs ->
  (forall b, b ∈ bs -> isSelectedBox sel b = true -> P (g b)) ->
  Forall P (update bs).
Proof.
  intros HP Hg. unfold update. rewrite Forall_map, Forall_forall.
  rewrite Forall_forall in HP.
  intros b Hb. destruct (isSelectedBox sel b) eqn:E; auto.
Qed.

End UpdateSelected.

(** With unique ids, the box that [find] returns is the only one the update
    touches. *)
Lemma selected_unique (sel : option string) (bs : list BoundingBox)
    (sb b : BoundingBox) :
  NoDup (map box_id bs) ->
  List.find (isSelectedBox sel) bs = Some sb ->
  b ∈ bs -> isSelectedBox sel b = true -> b = sb.
Proof.
  intros Hnd Hfind Hb Hsel.
  apply find_some in Hfind as [Hin Hs].
  apply list_elem_of_In in Hin.
  assert (Hid : box_id b = box_id sb).
  { unfold isSelectedBox in *. destruct sel as [s|]; [|discriminate].
    apply String.eqb_eq in Hsel, Hs. congruence. }
  clear Hsel Hs. induction bs as [|a bs IH]; [inversion Hb|].
  cbn in Hnd. apply NoDup_cons in Hnd as [Hna Hnd].
  apply elem_of_cons in Hb as [-> | Hb]; apply elem_of_cons in Hin as [-> | Hin].
  - reflexivity.
  - exfalso. apply Hna. rewrite Hid.
    now apply list_elem_of_In, in_map, list_elem_of_In.
  - exfalso. apply Hna. rewrite <- Hid.
    now apply list_elem_of_In, in_map, list_elem_of_In.
  - now apply IH.
Qed.

(** *** One pointer move *)

Ltac qsplit_max a b :=
  let m := fresh "m" in
  destruct (Q.max_spec a b) as [[? ?] | [? ?]];
  set (m := Qmax a b) in *; clearbody m.

Ltac qsplit_min a b :=
  let m := fresh "m" in
  destruct (Q.min_spec a b) as [[? ?] | [? ?]];
  set (m := Qmin a b) in *; clearbody m.

(** Case analysis on the comparisons, minima and maxima of a goal, then
    linear arithmetic. *)
Ltac qcases :=
  repeat match goal with
  | |- context [Qltb ?a ?b] =>
      let E := fresh "E" in
      destruct (Qltb a b) eqn:E;
      [apply Qltb_true in E | apply Qltb_false in E]
  | |- context [Qmax ?a ?b] => qsplit_max a b
  | _ : context [Qmax ?a ?b] |- _ => qsplit_max a b
  | |- context [Qmin ?a ?b] => qsplit_min a b
  | _ : context [Qmin ?a ?b] |- _ => qsplit_min a b
  end;
  cbn [fst snd] in *; try lra.

Lemma movedBox_id (nx ny : Q) (b : BoundingBox) : box_id (movedBox nx ny b) = box_id b.
Proof. reflexivity. Qed.

Lemma resizedBox_id (x y w h : Q) (b : BoundingBox) :
  box_id (resizedBox x y w h b) = box_id b.
Proof. reflexivity. Qed.

(** The move branch either leaves the boxes alone or puts every box with
    the selected id at a corner clamped against the extent of the first
    such box. *)
Lemma moveTo_spec (st : State) (coords : Coords) (cdb : InteractionState) (sx : Q) :
  boxes (moveTo st coords cdb sx) = boxes st \/
  exists sb nx ny,
    List.find (isSelectedBox (selectedBoxId st)) (boxes st) = Some sb /\
    boxes (moveTo st coords cdb sx) =
      map (fun b => if isSelectedBox (selectedBoxId st) b then movedBox nx ny b else b)
        (boxes st) /\
    0 <= nx /\ 0 <= ny /\
    (width sb <= 1 -> nx + width sb <= 1) /\
    (height sb <= 1 -> ny + height sb <= 1).
Proof.
  unfold moveTo.
  destruct (List.find _ (boxes st)) as [sb|]; [|now left].
  destruct (boxInitialX cdb) as [bix|]; [|now left].
  destruct (boxInitialY cdb) as [biy|]; [|now left].
  right. eexists sb, _, _. split; [reflexivity|]. split; [reflexivity|].
  split; [qcases | split; [qcases | split; intros ?; qcases]].
Qed.

(** The extent the resize branch computes along one axis: [lo] and [ext]
    are the box's corner and extent, [c] the pointer coordinate. *)
Definition resizedExtent (handle : ResizeHandle) (lo ext c : Q) : Q :=
  let e := if decide (handle = handle_se) then Qmax 0.01 (c - lo) else ext in
  if Qltb 1 (lo + e) then 1 - lo else e.

Lemma resizeTo_spec (st : State) (coords : Coords) (handle : ResizeHandle) :
  match List.find (isSelectedBox (selectedBoxId st)) (boxes st) with
  | None => resizeTo st coords handle = st
  | Some sb =>
      boxes (resizeTo st coords handle) =
        map (fun b => if isSelectedBox (selectedBoxId st) b
                      then resizedBox (x_min sb) (y_min sb)
                             (resizedExtent handle (x_min sb) (width sb) (coords_x coords))
                             (resizedExtent handle (y_min sb) (height sb) (coords_y coords))
                             b
                      else b)
          (boxes st)
  end.
Proof.
  unfold resizeTo, resizedExtent.
  destruct (List.find _ (boxes st)) as [sb|]; [|reflexivity].
  now destruct (decide (handle = handle_se)).
Qed.

Lemma resizedExtent_valid (handle : ResizeHandle) (lo ext c : Q) :
  0 <= lo -> 0 < ext -> lo + ext <= 1 ->
  0 < resizedExtent handle lo ext c /\ lo + resizedExtent handle lo ext c <= 1.
Proof.
  intros Hlo Hext Hsum. unfold resizedExtent.
  destruct (decide (handle = handle_se)); split; qcases.
Qed.

Lemma resizedExtent_other (handle : ResizeHandle) (lo ext c : Q) :
  handle <> handle_se -> lo + ext <= 1 -> resizedExtent handle lo ext c = ext.
Proof.
  intros Hh Hsum. unfold resizedExtent.
  destruct (decide (handle = handle_se)); [contradiction|].
  destruct (Qltb 1 (lo + ext)) eqn:E; [|reflexivity].
  apply Qltb_true in E. lra.
Qed.

Lemma resizedExtent_se (lo ext c : Q) :
  lo <= 0.99 -> c <= 1 -> resizedExtent handle_se lo ext c == Qmax 0.01 (c - lo).
Proof.
  intros Hlo Hc. unfold resizedExtent.
  destruct (decide (handle_se = handle_se)); [|contradiction]. qcases.
Qed.

(** What a pointer move can do: nothing to the boxes, the move branch, or
    the resize branch; it never touches the selection, the mode, the handle
    or the geometry of the display. *)
Lemma handleMouseMove_spec (st : State) (clientX clientY : Q) :
  let st' := handleMouseMove st clientX clientY in
  (selectedBoxId st' = selectedBoxId st /\
   interactionMode st' = interactionMode st /\
   resizeHandle st' = resizeHandle st /\
   imageRenderSize st' = imageRenderSize st /\
   svgRef st' = svgRef st) /\
  (boxes st' = boxes st \/
   (exists coords cdb sx,
       interactionMode st = Move /\
       getNormalizedCoords st clientX clientY = Some coords /\
       st' = moveTo st coords cdb sx) \/
   (exists coords handle,
       interactionMode st = Resize /\
       resizeHandle st = Some handle /\
       currentDrawingBox st <> None /\
       getNormalizedCoords st clientX clientY = Some coords /\
       st' = resizeTo st coords handle)).
Proof.
  cbn zeta. unfold handleMouseMove.
  destruct (getNormalizedCoords st clientX clientY) as [coords|] eqn:Hc;
    [|split; [repeat split | now left]].
  destruct (currentDrawingBox st) as [cdb|] eqn:Hcdb;
    [|split; [repeat split | now left]].
  assert (Hmv : forall sx,
             (selectedBoxId (moveTo st coords cdb sx) = selectedBoxId st /\
              interactionMode (moveTo st coords cdb sx) = interactionMode st /\
              resizeHandle (moveTo st coords cdb sx) = resizeHandle st /\
              imageRenderSize (moveTo st coords cdb sx) = imageRenderSize st /\
              svgRef (moveTo st coords cdb sx) = svgRef st)).
  { intros sx. unfold moveTo.
    destruct (List.find _ (boxes st)); [|repeat split].
    destruct (boxInitialX cdb); [|repeat split].
    destruct (boxInitialY cdb); repeat split. }
  assert (Hrs : forall handle,
             (selectedBoxId (resizeTo st coords handle) = selectedBoxId st /\
              interactionMode (resizeTo st coords handle) = interactionMode st /\
              resizeHandle (resizeTo st coords handle) = resizeHandle st /\
              imageRenderSize (resizeTo st coords handle) = imageRenderSize st /\
              svgRef (resizeTo st coords handle) = svgRef st)).
  { intros handle. unfold resizeTo.
    destruct (List.find _ (boxes st)); [|repeat split].
    destruct (decide (handle = handle_se)); repeat split. }
  destruct (interactionMode st) eqn:Hmode;
    destruct (part_x_min cdb), (part_y_min cdb);
    destruct (truthyStr (selectedBoxId st));
    destruct (startX cdb) as [sx|]; destruct (resizeHandle st) as [handle|] eqn:Hh;
    try (split; [repeat split; auto | now left]);
    try (split; [apply Hmv | right; left; eexists _, _, _; repeat split; eauto]);
    try (split; [apply Hrs | right; right; eexists _, _; repeat split; eauto;
                              congruence]).
Qed.

Lemma validBox_moved (nx ny : Q) (sb : BoundingBox) :
  validBox sb -> 0 <= nx -> 0 <= ny ->
  (width sb <= 1 -> nx + width sb <= 1) ->
  (height sb <= 1 -> ny + height sb <= 1) ->
  validBox (movedBox nx ny sb).
Proof.
  unfold validBox. cbn. intros (? & ? & ? & ? & ? & ?) ? ? Hw Hh.
  assert (width sb <= 1) by lra. assert (height sb <= 1) by lra.
  specialize (Hw ltac:(assumption)). specialize (Hh ltac:(assumption)).
  repeat (split; [assumption || lra|]). lra.
Qed.

Lemma validBox_resized (handle : ResizeHandle) (cx' cy' : Q) (sb b : BoundingBox) :
  validBox sb ->
  validBox (resizedBox (x_min sb) (y_min sb)
              (resizedExtent handle (x_min sb) (width sb) cx')
              (resizedExtent handle (y_min sb) (height sb) cy') b).
Proof.
  unfold validBox. cbn. intros (? & ? & ? & ? & ? & ?).
  destruct (resizedExtent_valid handle (x_min sb) (width sb) cx') as [? ?]; try assumption.
  destruct (resizedExtent_valid handle (y_min sb) (height sb) cy') as [? ?]; try assumption.
  repeat (split; [assumption|]). assumption.
Qed.

(** The box that [find] returns for the selection stays valid. *)
Lemma handleMouseMove_selected_valid (st : State) (clientX clientY : Q)
    (sb : BoundingBox) :
  List.find (isSelectedBox (selectedBoxId st)) (boxes st) = Some sb ->
  validBox sb ->
  exists sb',
    List.find (isSelectedBox (selectedBoxId st)) (boxes (handleMouseMove st clientX clientY))
      = Some sb' /\
    validBox sb'.
Proof.
  intros Hfind Hvalid.
  destruct (handleMouseMove_spec st clientX clientY) as [_ Hcases].
  destruct Hcases as [Hsame | [(coords & cdb & sx & _ & _ & ->) | (coords & handle & _ & _ & _ & _ & ->)]].
  - rewrite Hsame. eauto.
  - destruct (moveTo_spec st coords cdb sx) as [Hsame | (sb0 & nx & ny & Hf & -> & ? & ? & ? & ?)].
    + rewrite Hsame. eauto.
    + rewrite (find_update _ _ (movedBox_id nx ny)), Hfind. cbn.
      assert (sb0 = sb) as -> by congruence.
      eexists. split; [reflexivity|]. now apply validBox_moved.
  - pose proof (resizeTo_spec st coords handle) as Hspec. rewrite Hfind in Hspec.
    rewrite Hspec, (find_update _ _ (resizedBox_id _ _ _ _)), Hfind. cbn.
    eexists. split; [reflexivity|]. now apply validBox_resized.
Qed.

(** With unique ids, every box stays valid, and the ids stay as they are. *)
Lemma handleMouseMove_all_valid (st : State) (clientX clientY : Q) :
  Forall validBox (boxes st) ->
  NoDup (map box_id (boxes st)) ->
  Forall validBox (boxes (handleMouseMove st clientX clientY)) /\
  NoDup (map box_id (boxes (handleMouseMove st clientX clientY))).
Proof.
  intros Hall Hnd.
  destruct (handleMouseMove_spec st clientX clientY) as [_ Hcases].
  destruct Hcases as [Hsame | [(coords & cdb & sx & _ & _ & ->) | (coords & handle & _ & _ & _ & _ & ->)]].
  - now rewrite Hsame.
  - destruct (moveTo_spec st coords cdb sx) as [Hsame | (sb & nx & ny & Hf & -> & ? & ? & ? & ?)].
    + now rewrite Hsame.
    + split.
      * apply Forall_update; [exact Hall|]. intros b Hb Hsel.
        rewrite (selected_unique _ _ _ _ Hnd Hf Hb Hsel).
        apply validBox_moved; try assumption.
        rewrite Forall_forall in Hall. apply Hall.
        apply find_some in Hf as [Hin _]. now apply list_elem_of_In.
      * now rewrite (update_ids _ _ (movedBox_id nx ny)).
  - pose proof (resizeTo_spec st coords handle) as Hspec.
    destruct (List.find _ (boxes st)) as [sb|] eqn:Hf.
    + rewrite Hspec. split.
      * apply Forall_update; [exact Hall|]. intros b _ _.
        apply validBox_resized.
        rewrite Forall_forall in Hall. apply Hall.
        apply find_some in Hf as [Hin _]. now apply list_elem_of_In.
      * now rewrite (update_ids _ _ (resizedBox_id _ _ _ _)).
    + now rewrite Hspec.
Qed.

Lemma handleMouseMoves_cons (st : State) (m : Q * Q) (moves : list (Q * Q)) :
  handleMouseMoves st (m :: moves) =
    handleMouseMoves (handleMouseMove st (fst m) (snd m)) moves.
Proof. reflexivity. Qed.

(** C1: in the Move and Resize modes, whatever the pointer coordinates of a
    run of pointer moves, the box the selection designates stays inside the
    image ([0 <= x_min], [0 <= y_min], [x_min + width <= 1],
    [y_min + height <= 1], positive extents) after the run, hence after each
    of its moves; when ids are unique, so does every box of the set. *)
Theorem move_resize_keep_box_in_image (st : State) (moves : list (Q * Q)) :
  inModel st ->
  interactionMode st = Move \/ interactionMode st = Resize ->
  (forall sb,
      List.find (isSelectedBox (selectedBoxId st)) (boxes st) = Some sb ->
      validBox sb ->
      exists sb',
        List.find (isSelectedBox (selectedBoxId st)) (boxes (handleMouseMoves st moves))
          = Some sb' /\
        validBox sb') /\
  (Forall validBox (boxes st) ->
   NoDup (map box_id (boxes st)) ->
   Forall validBox (boxes (handleMouseMoves st moves))).
Proof.
  intros _ _. split.
  - revert st. induction moves as [|m moves IH]; intros st sb Hfind Hvalid.
    + eauto.
    + rewrite handleMouseMoves_cons.
      destruct (handleMouseMove_selected_valid st (fst m) (snd m) sb Hfind Hvalid)
        as (sb1 & Hfind1 & Hvalid1).
      destruct (handleMouseMove_spec st (fst m) (snd m)) as [(Hsel & _) _].
      cbn zeta in Hsel. rewrite <- Hsel in Hfind1 |- *.
      now apply (IH _ sb1).
  - revert st. induction moves as [|m moves IH]; intros st Hall Hnd.
    + exact Hall.
    + rewrite handleMouseMoves_cons.
      destruct (handleMouseMove_all_valid st (fst m) (snd m) Hall Hnd) as [Hall1 Hnd1].
      now apply IH.
Qed.

(** A box is dragged far out of the image, to the right and below, then to
    the left and above. *)
Lemma move_resize_keep_box_in_image_witness :
  let st := handleMouseDown (openedEditor [interiorBox 0.2 0.2 0.4 0.4]) 160 120 in
  let moves := [(5000, 7000); (-300, -20)] in
  interactionMode st = Move /\
  Forall validBox (boxes (handleMouseMoves st moves)).
Proof.
  cbn zeta.
  set (st := handleMouseDown (openedEditor [interiorBox 0.2 0.2 0.4 0.4]) 160 120).
  assert (Hmode : interactionMode st = Move) by reflexivity.
  assert (Hmodel : inModel st).
  { split.
    - intros _. discriminate.
    - intros cdb [= <-]. split; [intros _; cbn; eauto | intros [w Hw]; discriminate]. }
  assert (Hall : Forall validBox (boxes st)).
  { repeat constructor; cbn; lra. }
  assert (Hnd : NoDup (map box_id (boxes st))).
  { repeat constructor. apply not_elem_of_nil. }
  split; [exact Hmode|].
  exact (proj2 (move_resize_keep_box_in_image st [(5000, 7000); (-300, -20)]
                  Hmodel (or_introl Hmode)) Hall Hnd).
Defined.

(** *** Resize *)

(** Past its guards, a pointer move in the resize mode is [resizeTo]. *)
Lemma handleMouseMove_resize (st : State) (clientX clientY : Q)
    (cdb : InteractionState) (coords : Coords) (handle : ResizeHandle) :
  interactionMode st = Resize ->
  resizeHandle st = Some handle ->
  truthyStr (selectedBoxId st) = true ->
  currentDrawingBox st = Some cdb ->
  getNormalizedCoords st clientX clientY = Some coords ->
  handleMouseMove st clientX clientY = resizeTo st coords handle.
Proof.
  intros Hmode Hh Hsel Hcdb Hc.
  unfold handleMouseMove. rewrite Hc, Hcdb, Hmode, Hsel, Hh.
  now destruct (part_x_min cdb), (part_y_min cdb).
Qed.

(** What the [se] branch does when the pointer move is processed: the corner
    [x_min], [y_min] stays, and along each axis the extent is
    [max(0.01, pointer - corner)] as long as the corner leaves room for the
    minimum extent. *)
Lemma resize_se_tracks_pointer (st : State) (clientX clientY : Q)
    (cdb : InteractionState) (coords : Coords) (sb : BoundingBox) :
  interactionMode st = Resize ->
  resizeHandle st = Some handle_se ->
  truthyStr (selectedBoxId st) = true ->
  currentDrawingBox st = Some cdb ->
  getNormalizedCoords st clientX clientY = Some coords ->
  List.find (isSelectedBox (selectedBoxId st)) (boxes st) = Some sb ->
  x_min sb <= 0.99 -> y_min sb <= 0.99 ->
  exists sb',
    List.find (isSelectedBox (selectedBoxId st)) (boxes (handleMouseMove st clientX clientY))
      = Some sb' /\
    x_min sb' = x_min sb /\ y_min sb' = y_min sb /\
    width sb' == Qmax 0.01 (coords_x coords - x_min sb) /\
    height sb' == Qmax 0.01 (coords_y coords - y_min sb).
Proof.
  intros Hmode Hh Hsel Hcdb Hc Hfind Hx Hy.
  destruct (getNormalizedCoords_unit _ _ _ _ Hc) as [[_ Hcx] [_ Hcy]].
  rewrite (handleMouseMove_resize _ _ _ _ _ _ Hmode Hh Hsel Hcdb Hc).
  pose proof (resizeTo_spec st coords handle_se) as Hspec. rewrite Hfind in Hspec.
  rewrite Hspec, (find_update _ _ (resizedBox_id _ _ _ _)), Hfind. cbn.
  eexists. split; [reflexivity|]. cbn.
  split; [reflexivity|]. split; [reflexivity|].
  split; now apply resizedExtent_se.
Qed.

(** Any other handle leaves the geometry of a valid box as it is. *)
Lemma resize_other_handles_inert (st : State) (coords : Coords)
    (handle : ResizeHandle) (sb : BoundingBox) :
  handle <> handle_se ->
  List.find (isSelectedBox (selectedBoxId st)) (boxes st) = Some sb ->
  validBox sb ->
  List.find (isSelectedBox (selectedBoxId st)) (boxes (resizeTo st coords handle))
    = Some (resizedBox (x_min sb) (y_min sb) (width sb) (height sb) sb).
Proof.
  intros Hh Hfind (_ & _ & _ & _ & Hx & Hy).
  pose proof (resizeTo_spec st coords handle) as Hspec. rewrite Hfind in Hspec.
  rewrite Hspec, (find_update _ _ (resizedBox_id _ _ _ _)), Hfind. cbn.
  now rewrite !resizedExtent_other.
Qed.

(** C9: on the box (0.1, 0.1, 0.2, 0.2), grabbed by its [se] handle, a drag
    to the normalized point (0.05, 0.4) gives width 0.01, the minimum extent,
    and height 0.3, the corner staying at (0.1, 0.1); and on any valid
    selected box a pointer move of an [se] resize, whatever the pointer
    position, leaves the corner in place and both extents positive. *)
Theorem resize_se_keeps_positive_extent :
  (let grabbed := grabHandle (interiorBox 0.1 0.1 0.2 0.2) 80 60 handle_se 120 90 in
   interactionMode grabbed = Resize /\
   resizeHandle grabbed = Some handle_se /\
   exists pointer b',
     getNormalizedCoords grabbed 20 120 = Some pointer /\
     coords_x pointer == 0.05 /\ coords_y pointer == 0.4 /\
     boxes (handleMouseMove grabbed 20 120) = [b'] /\
     x_min b' == 0.1 /\ y_min b' == 0.1 /\
     width b' == 0.01 /\ height b' == 0.3) /\
  (forall (st : State) (clientX clientY : Q) (sb : BoundingBox),
      inModel st ->
      interactionMode st = Resize ->
      resizeHandle st = Some handle_se ->
      List.find (isSelectedBox (selectedBoxId st)) (boxes st) = Some sb ->
      validBox sb ->
      exists sb',
        List.find (isSelectedBox (selectedBoxId st))
          (boxes (handleMouseMove st clientX clientY)) = Some sb' /\
        x_min sb' = x_min sb /\ y_min sb' = y_min sb /\
        0 < width sb' /\ 0 < height sb').
Proof.
  split.
  - cbn zeta. split; [reflexivity|]. split; [reflexivity|].
    eexists _, _. split; [vm_compute; reflexivity|].
    split; [reflexivity|]. split; [reflexivity|].
    split; [vm_compute; reflexivity|]. cbn. repeat split.
  - intros st clientX clientY sb _ Hmode Hh Hfind Hvalid.
    destruct (handleMouseMove_spec st clientX clientY) as [_ Hcases].
    destruct Hcases as [Hsame | [(coords & cdb & sx & Hm & _) | (coords & handle & _ & Hh' & _ & _ & ->)]].
    + rewrite Hsame. exists sb. unfold validBox in Hvalid. tauto.
    + congruence.
    + pose proof (resizeTo_spec st coords handle) as Hspec. rewrite Hfind in Hspec.
      rewrite Hspec, (find_update _ _ (resizedBox_id _ _ _ _)), Hfind. cbn.
      eexists. split; [reflexivity|]. cbn.
      destruct Hvalid as (? & ? & ? & ? & ? & ?).
      split; [reflexivity|]. split; [reflexivity|].
      split; now apply resizedExtent_valid.
Qed.

(** The general part at the scenario: the drag goes left of the box and far
    below the image. *)
Lemma resize_se_keeps_positive_extent_witness :
  let shown := coloured "#FF0000" (interiorBox 0.1 0.1 0.2 0.2) in
  let st := grabHandle (interiorBox 0.1 0.1 0.2 0.2) 80 60 handle_se 120 90 in
  boxes st = [shown] /\
  validBox shown /\
  exists sb',
    List.find (isSelectedBox (selectedBoxId st)) (boxes (handleMouseMove st 20 9000))
      = Some sb' /\
    x_min sb' = 0.1 /\ y_min sb' = 0.1 /\ 0 < width sb' /\ 0 < height sb'.
Proof.
  cbn zeta.
  set (shown := coloured "#FF0000" (interiorBox 0.1 0.1 0.2 0.2)).
  set (st := grabHandle (interiorBox 0.1 0.1 0.2 0.2) 80 60 handle_se 120 90).
  assert (Hvalid : validBox shown) by (unfold validBox; cbn; lra).
  assert (Hmodel : inModel st).
  { split.
    - intros _. discriminate.
    - intros cdb [= <-]. split; intros _; cbn; eauto. }
  split; [reflexivity|]. split; [exact Hvalid|].
  exact (proj2 resize_se_keeps_positive_extent st 20 9000 shown
           Hmodel eq_refl eq_refl eq_refl Hvalid).
Defined.

(** C4, at the [nw] handle: the box (0.2, 0.2, 0.4, 0.4) shows an [nw]
    handle; grabbed there and dragged to the normalized point (0.1, 0.1), the
    box keeps its geometry: [x_min] and [y_min] do not follow the pointer. *)
Theorem resize_nw_does_not_track_pointer :
  let box := interiorBox 0.2 0.2 0.4 0.4 in
  let grabbed := grabHandle box 160 120 handle_nw 80 60 in
  handle_nw ∈ map handle_id (getHandlePositions (imageRenderSize grabbed) box) /\
  interactionMode grabbed = Resize /\
  resizeHandle grabbed = Some handle_nw /\
  exists pointer b',
    getNormalizedCoords grabbed 40 30 = Some pointer /\
    coords_x pointer == 0.1 /\ coords_y pointer == 0.1 /\
    boxes (handleMouseMove grabbed 40 30) = [b'] /\
    x_min b' == 0.2 /\ y_min b' == 0.2 /\ width b' == 0.4 /\ height b' == 0.4 /\
    ~ x_min b' == coords_x pointer /\ ~ y_min b' == coords_y pointer.
Proof.
  cbn zeta. split; [vm_compute; left|]. split; [reflexivity|]. split; [reflexivity|].
  eexists _, _. split; [vm_compute; reflexivity|].
  split; [reflexivity|]. split; [reflexivity|].
  split; [vm_compute; reflexivity|]. cbn.
  repeat split; discriminate.
Qed.

(** *** Draw *)

Lemma getNormalizedCoords_ext (s st : State) (clientX clientY : Q) :
  svgRef s = svgRef st -> imageRenderSize s = imageRenderSize st ->
  getNormalizedCoords s clientX clientY = getNormalizedCoords st clientX clientY.
Proof. intros H1 H2. unfold getNormalizedCoords. now rewrite H1, H2. Qed.

(** The press of a draw gesture touches only [currentDrawingBox]. *)
Lemma handleMouseDown_draw (st : State) (clientX clientY : Q) :
  interactionMode st = Draw ->
  let st' := handleMouseDown st clientX clientY in
  boxes st' = boxes st /\ interactionMode st' = Draw /\
  svgRef st' = svgRef st /\ imageRenderSize st' = imageRenderSize st /\
  currentDrawingBox st' =
    match getNormalizedCoords st clientX clientY with
    | Some coords => Some (drawingBox (coords_x coords) (coords_y coords) 0 0)
    | None => currentDrawingBox st
    end.
Proof.
  intros Hmode. cbn zeta. unfold handleMouseDown.
  destruct (getNormalizedCoords st clientX clientY); [|auto].
  rewrite Hmode. cbn. auto.
Qed.

(** The first pointer move after the press spans the press point [p] and
    the pointer [q]: corner at the minima, extents the absolute
    differences. *)
Lemma draw_first_move (st : State) (pressX pressY clientX clientY : Q)
    (p q : Coords) :
  interactionMode st = Draw ->
  getNormalizedCoords st pressX pressY = Some p ->
  getNormalizedCoords st clientX clientY = Some q ->
  currentDrawingBox (handleMouseMove (handleMouseDown st pressX pressY) clientX clientY)
  = Some (drawingBox (Qmin (coords_x q) (coords_x p)) (Qmin (coords_y q) (coords_y p))
            (Qabs (coords_x q - coords_x p)) (Qabs (coords_y q - coords_y p))).
Proof.
  intros Hmode Hp Hq.
  destruct (handleMouseDown_draw st pressX pressY Hmode) as (_ & Hm & Hsvg & Hsize & Hcdb).
  cbn zeta in *. rewrite Hp in Hcdb.
  unfold handleMouseMove.
  rewrite (getNormalizedCoords_ext _ st _ _ Hsvg Hsize), Hq, Hcdb, Hm.
  reflexivity.
Qed.

(** Pointer moves of a draw gesture leave the box set alone. *)
Lemma handleMouseMoves_draw (moves : list (Q * Q)) :
  forall st : State,
  interactionMode st = Draw ->
  boxes (handleMouseMoves st moves) = boxes st /\
  interactionMode (handleMouseMoves st moves) = Draw.
Proof.
  induction moves as [|m moves IH]; intros st Hmode; [auto|].
  rewrite handleMouseMoves_cons.
  destruct (handleMouseMove_spec st (fst m) (snd m)) as [(_ & Hm & _) Hcases].
  cbn zeta in *.
  assert (Hb : boxes (handleMouseMove st (fst m) (snd m)) = boxes st).
  { destruct Hcases as [Hsame | [(? & ? & ? & Hmv & _) | (? & ? & Hrs & _)]];
      [exact Hsame | congruence | congruence]. }
  destruct (IH (handleMouseMove st (fst m) (snd m))) as [IHb IHm]; [congruence|].
  split; congruence.
Qed.

(** The in-progress box has no area: its width or its height is [0]. *)
Definition zeroExtent (cdb : InteractionState) : Prop :=
  (exists w, part_width cdb = Some w /\ w == 0) \/
  (exists h, part_height cdb = Some h /\ h == 0).

Lemma handleMouseUp_zeroExtent (palette : list string) (randomUUID : nat -> string)
    (st : State) (answer : option string) :
  (forall cdb, currentDrawingBox st = Some cdb -> zeroExtent cdb) ->
  boxes (handleMouseUp palette randomUUID st answer) = boxes st.
Proof.
  intros Hzero.
  assert (Hst1 : boxes (commitDrawing palette randomUUID st answer) = boxes st).
  { unfold commitDrawing.
    destruct (interactionMode st); try reflexivity.
    destruct (currentDrawingBox st) as [cdb|]; [|reflexivity].
    assert (E : truthyNum (part_width cdb) && truthyNum (part_height cdb) = false).
    { apply andb_false_iff.
      destruct (Hzero cdb eq_refl) as [(w & Hw & Hw0) | (h & Hh & Hh0)].
      - left. apply truthyNum_false. right. eauto.
      - right. apply truthyNum_false. right. eauto. }
    now rewrite E. }
  unfold handleMouseUp. destruct (interactionMode st); cbn; exact Hst1.
Qed.

(** The in-progress box of a draw gesture whose pointer has not left the
    press point [c]. *)
Definition restingAt (c : Coords) (cdb : InteractionState) : Prop :=
  exists x y w h,
    part_x_min cdb = Some x /\ part_y_min cdb = Some y /\
    part_width cdb = Some w /\ part_height cdb = Some h /\
    x == coords_x c /\ y == coords_y c /\ w == 0 /\ h == 0.

Lemma restingAt_zeroExtent (c : Coords) (cdb : InteractionState) :
  restingAt c cdb -> zeroExtent cdb.
Proof. intros (x & y & w & h & _ & _ & Hw & _ & _ & _ & Hw0 & _). left. eauto. Qed.

Lemma Qabs_zero (a b : Q) : a == b -> Qabs (a - b) == 0.
Proof. intros E. apply Qabs_case; intros _; lra. Qed.

Lemma Qmin_same (a b : Q) : b == a -> Qmin a b == a.
Proof. intros E. destruct (Q.min_spec a b) as [[_ ->] | [_ ->]]; [reflexivity | exact E]. Qed.

(** Pointer moves at the press point keep the in-progress box resting. *)
Lemma handleMouseMoves_resting (c : Coords) (clientX clientY : Q) (k : nat) :
  forall st : State,
  interactionMode st = Draw ->
  getNormalizedCoords st clientX clientY = Some c ->
  (forall cdb, currentDrawingBox st = Some cdb -> restingAt c cdb) ->
  forall cdb,
    currentDrawingBox (handleMouseMoves st (repeat (clientX, clientY) k)) = Some cdb ->
    restingAt c cdb.
Proof.
  induction k as [|k IH]; intros st Hmode Hc Hrest; [exact Hrest|].
  cbn [repeat]. rewrite handleMouseMoves_cons. cbn [fst snd].
  destruct (handleMouseMove_spec st clientX clientY) as [(_ & Hm & _ & Hsize & Hsvg) _].
  cbn zeta in *.
  apply IH.
  - congruence.
  - now rewrite (getNormalizedCoords_ext _ st _ _ Hsvg Hsize).
  - unfold handleMouseMove. rewrite Hc, Hmode.
    destruct (currentDrawingBox st) as [cdb0|] eqn:Hcdb; [|now rewrite Hcdb].
    destruct (Hrest cdb0 eq_refl) as (x & y & w & h & Hx & Hy & Hw & Hh & Ex & Ey & _ & _).
    rewrite Hx, Hy. cbn. intros cdb [= <-].
    exists (Qmin (coords_x c) x), (Qmin (coords_y c) y),
      (Qabs (coords_x c - x)), (Qabs (coords_y c - y)).
    repeat (split; [reflexivity|]).
    split; [now apply Qmin_same|]. split; [now apply Qmin_same|].
    split; apply Qabs_zero; now symmetry.
Qed.

(** The guard of [handleMouseUp]: a draw gesture (press, any pointer moves,
    release) that reaches the release with an in-progress box of zero width
    or zero height leaves the box set as it was before the press, whatever
    [prompt] would answer; and that is what a press and a release at one
    point give when every pointer move in between is at that point. *)
Theorem draw_without_area_adds_no_box (palette : list string)
    (randomUUID : nat -> string) (st : State) (pressX pressY : Q)
    (answer : option string) :
  interactionMode st = Draw ->
  (forall moves : list (Q * Q),
      let released := handleMouseMoves (handleMouseDown st pressX pressY) moves in
      (forall cdb, currentDrawingBox released = Some cdb -> zeroExtent cdb) ->
      boxes (handleMouseUp palette randomUUID released answer) = boxes st) /\
  (currentDrawingBox st = None ->
   forall k : nat,
      boxes (handleMouseUp palette randomUUID
               (handleMouseMoves (handleMouseDown st pressX pressY)
                  (repeat (pressX, pressY) k))
               answer)
      = boxes st).
Proof.
  intros Hmode.
  destruct (handleMouseDown_draw st pressX pressY Hmode)
    as (Hb & Hm & Hsvg & Hsize & Hcdb).
  cbn zeta in *.
  assert (Hgesture : forall moves,
             boxes (handleMouseMoves (handleMouseDown st pressX pressY) moves) = boxes st).
  { intros moves.
    destruct (handleMouseMoves_draw moves _ Hm) as [-> _]. exact Hb. }
  split.
  - intros moves Hzero.
    rewrite (handleMouseUp_zeroExtent _ _ _ _ Hzero). apply Hgesture.
  - intros Hnone k.
    rewrite handleMouseUp_zeroExtent; [apply Hgesture|].
    destruct (getNormalizedCoords st pressX pressY) as [c|] eqn:Hc.
    + intros cdb Hk. apply (restingAt_zeroExtent c).
      revert cdb Hk. apply handleMouseMoves_resting.
      * exact Hm.
      * now rewrite (getNormalizedCoords_ext _ st _ _ Hsvg Hsize).
      * rewrite Hcdb. intros cdb [= <-].
        exists (coords_x c), (coords_y c), 0, 0. cbn.
        repeat split; reflexivity.
    + (* the editor is not laid out: the press records nothing *)
      assert (Hstay : forall j,
                 currentDrawingBox
                   (handleMouseMoves (handleMouseDown st pressX pressY)
                      (repeat (pressX, pressY) j)) = None).
      { rewrite Hnone in Hcdb. clear Hb Hm Hgesture.
        generalize dependent (handleMouseDown st pressX pressY).
        intros s _ _ Hs j. revert s Hs.
        induction j as [|j IH]; intros s Hs; [exact Hs|].
        cbn [repeat]. rewrite handleMouseMoves_cons. apply IH.
        cbn [fst snd]. unfold handleMouseMove. rewrite Hs.
        now destruct (getNormalizedCoords s pressX pressY). }
      intros cdb Hk. rewrite Hstay in Hk. discriminate.
Qed.

(** A click in the draw tool, with two pointer events at the press point
    and a label ready, on an editor holding one box. *)
Lemma draw_without_area_adds_no_box_witness :
  let st := clickDrawTool (openedEditor [interiorBox 0.2 0.2 0.4 0.4]) in
  interactionMode st = Draw /\
  boxes (handleMouseUp scenePalette sceneUUID
           (handleMouseMoves (handleMouseDown st 200 150) [(200, 150); (200, 150)])
           (Some "new object"))
  = [coloured "#FF0000" (interiorBox 0.2 0.2 0.4 0.4)].
Proof.
  cbn zeta. split; [reflexivity|].
  refine (proj1 (draw_without_area_adds_no_box scenePalette sceneUUID
                   (clickDrawTool (openedEditor [interiorBox 0.2 0.2 0.4 0.4]))
                   200 150 (Some "new object") eq_refl)
            [(200, 150); (200, 150)] _).
  vm_compute. intros cdb [= <-]. left. eexists. split; reflexivity.
Defined.

(** C3, at a leftward and upward drag: press at the normalized point
    (0.5, 0.5), pointer moves to (0.4, 0.4) and then to (0.3, 0.3).  The
    in-progress box ends with corner (0.3, 0.3) but width and height 0.1,
    not the absolute differences 0.2 to the press point: the second move
    measures from the corner the first move stored, not from the press
    point. *)
Theorem draw_move_measures_from_stored_corner :
  let pressed := handleMouseDown (clickDrawTool (openedEditor [])) 200 150 in
  let dragged := handleMouseMoves pressed [(160, 120); (120, 90)] in
  interactionMode pressed = Draw /\
  exists p q cdb x y w h,
    getNormalizedCoords pressed 200 150 = Some p /\
    coords_x p == 0.5 /\ coords_y p == 0.5 /\
    getNormalizedCoords dragged 120 90 = Some q /\
    coords_x q == 0.3 /\ coords_y q == 0.3 /\
    currentDrawingBox dragged = Some cdb /\
    part_x_min cdb = Some x /\ part_y_min cdb = Some y /\
    part_width cdb = Some w /\ part_height cdb = Some h /\
    x == 0.3 /\ y == 0.3 /\ w == 0.1 /\ h == 0.1 /\
    ~ w == Qabs (coords_x q - coords_x p) /\
    ~ h == Qabs (coords_y q - coords_y p).
Proof.
  cbn zeta. split; [reflexivity|].
  eexists _, _, _, _, _, _, _.
  split; [vm_compute; reflexivity|]. split; [reflexivity|]. split; [reflexivity|].
  split; [vm_compute; reflexivity|]. split; [reflexivity|]. split; [reflexivity|].
  split; [vm_compute; reflexivity|].
  repeat (split; [reflexivity|]).
  split; discriminate.
Qed.

(** C8, at a press and a release at one point with a detour in between:
    on an editor without boxes, press at the normalized point (0.5, 0.5),
    pointer moves to (0.4, 0.4) and back to (0.5, 0.5), release there.  The
    release is at the press point, yet the in-progress box has width and
    height 0.1 (the second move measured from the corner the first one
    stored, the defect of C3), so the guard of [handleMouseUp] lets it
    through: the box (0.4, 0.4, 0.1, 0.1) is added to the box set. *)
Theorem draw_return_to_press_point_commits :
  let st := clickDrawTool (openedEditor []) in
  let pressed := handleMouseDown st 200 150 in
  let returned := handleMouseMoves pressed [(160, 120); (200, 150)] in
  let released := handleMouseUp scenePalette sceneUUID returned (Some "car") in
  interactionMode st = Draw /\
  boxes st = [] /\
  (exists p,
      getNormalizedCoords st 200 150 = Some p /\
      getNormalizedCoords returned 200 150 = Some p /\
      coords_x p == 0.5 /\ coords_y p == 0.5) /\
  (exists b,
      boxes released = [b] /\
      x_min b == 0.4 /\ y_min b == 0.4 /\ width b == 0.1 /\ height b == 0.1 /\
      source b = human_added) /\
  boxes released <> boxes st /\
  length (boxes released) = 1%nat.
Proof.
  cbn zeta. split; [reflexivity|]. split; [reflexivity|]. split.
  - eexists. split; [vm_compute; reflexivity|]. split; [vm_compute; reflexivity|].
    split; reflexivity.
  - split.
    + eexists. split; [vm_compute; reflexivity|]. cbn.
      split; [reflexivity|]. split; [reflexivity|]. split; [reflexivity|].
      split; reflexivity.
    + split; [vm_compute; discriminate | vm_compute; reflexivity].
Qed.

(** *** Assist *)

Section Assist.

Variable BOUNDING_BOX_COLORS : list string.
Variable ai : bool.
Variable randomUUID : nat -> string.
Variable nullPropertyMessage : string.

Abbreviation handleAssist := (handleGeminiAssistRequest BOUNDING_BOX_COLORS ai randomUUID
                            nullPropertyMessage).
Abbreviation callAssist := (onGeminiAssist ai randomUUID nullPropertyMessage).

(** The request of [handleGeminiAssistRequest] is rejected. *)
Definition assistFails (run : RemoteRun) (n : nat) : Prop :=
  exists message, fst (callAssist run n) = inl message.

(** The colouring pass changes nothing but [color]. *)
Lemma withColors_fields (bs : list BoundingBox) :
  forall colors : ColorState,
  Forall2 (fun b b' =>
             box_id b' = box_id b /\ label b' = label b /\ source b' = source b /\
             x_min b' = x_min b /\ y_min b' = y_min b /\
             width b' = width b /\ height b' = height b)
    bs (fst (withColors BOUNDING_BOX_COLORS bs colors)).
Proof.
  induction bs as [|b bs IH]; intros colors; cbn [withColors]; [constructor|].
  destruct (getLabelColor BOUNDING_BOX_COLORS (label b) colors) as [c colors1].
  specialize (IH colors1).
  destruct (withColors BOUNDING_BOX_COLORS bs colors1) as [rest colors2].
  constructor; [cbn; repeat split | exact IH].
Qed.

(** A failed request: what the handler leaves behind. *)
Lemma handleAssist_failure (st : State) (run : RemoteRun) :
  assistFails run (uuidsDrawn st) ->
  boxes (handleAssist st run) = boxes st /\
  selectedBoxId (handleAssist st run) = selectedBoxId st /\
  labelColors (handleAssist st run) = labelColors st /\
  exists m, assistError (handleAssist st run) = Some m /\ m <> "".
Proof.
  intros [message Hfail]. unfold handleGeminiAssistRequest.
  destruct (isBlank (assistPrompt st)).
  - cbn. repeat split. eexists. split; [reflexivity | discriminate].
  - destruct (callAssist run (uuidsDrawn st)) as [result n]. cbn in Hfail. subst result.
    cbn. repeat split. eexists. split; [reflexivity|].
    destruct (String.eqb message "") eqn:E; [discriminate|].
    now apply String.eqb_neq in E.
Qed.

(** The ways a request fails: no client, a rejected file read or remote
    call, a reply that is not JSON, a [null] entry in the reply. *)
Lemma assistFails_causes (run : RemoteRun) (n : nat) :
  ai = false \/
  (exists e, run = FileReadRejects e) \/
  (exists e, run = GenerateContentRejects e) \/
  (exists r, run = GenerateContentResolves r /\ parsed r = None) \/
  (exists r entries, run = GenerateContentResolves r /\
                     parsed r = Some (JArr (JNull :: entries))) ->
  assistFails run n.
Proof.
  unfold assistFails, onGeminiAssist, generateAssistedAnnotations.
  intros [-> | Hrun]; [cbn; eauto|].
  destruct ai; [|cbn; eauto]. cbn [negb].
  destruct Hrun as [[e ->] | [[e ->] | [(r & -> & Hp) | (r & entries & -> & Hp)]]];
    cbn; unfold parseGeminiJsonResponse; try rewrite Hp; cbn; eauto.
Qed.

(** C6: when the assist request fails, the box set after the call is the
    box set before it, as are the selection and the colour assignments, and
    [assistError] holds a non-empty message; the request fails when the
    client is missing, when the file read or the remote call rejects
    (network, authentication, quota), and when the reply cannot be parsed. *)
Theorem failed_assist_leaves_boxes_untouched (st : State) (run : RemoteRun) :
  (assistFails run (uuidsDrawn st) ->
   boxes (handleAssist st run) = boxes st /\
   selectedBoxId (handleAssist st run) = selectedBoxId st /\
   labelColors (handleAssist st run) = labelColors st /\
   exists m, assistError (handleAssist st run) = Some m /\ m <> "") /\
  (ai = false \/
   (exists e, run = FileReadRejects e) \/
   (exists e, run = GenerateContentRejects e) \/
   (exists r, run = GenerateContentResolves r /\ parsed r = None) ->
   assistFails run (uuidsDrawn st)).
Proof.
  split; [apply handleAssist_failure|].
  intros H. apply assistFails_causes. tauto.
Qed.

(** The test of the service accepts [b] with these five fields. *)
Definition wellFormed (b : JsValue) (l : string) (x y w h : Q) : Prop :=
  validBoxFields nullPropertyMessage b = inr (Some (l, x, y, w, h)).

Lemma Forall2_recoloured {A : Type} (P : A -> BoundingBox -> Prop)
    (fs : list A) (bs cs : list BoundingBox) :
  (forall f b c,
      P f b ->
      label c = label b /\ x_min c = x_min b /\ y_min c = y_min b /\
      width c = width b /\ height c = height b ->
      P f c) ->
  Forall2 P fs bs ->
  Forall2 (fun b b' =>
             box_id b' = box_id b /\ label b' = label b /\ source b' = source b /\
             x_min b' = x_min b /\ y_min b' = y_min b /\
             width b' = width b /\ height b' = height b) bs cs ->
  Forall2 P fs cs.
Proof.
  intros HP Hfs. revert cs. induction Hfs as [|f b fs bs Hfb _ IH]; intros cs Hcs.
  - apply Forall2_nil_inv_l in Hcs as ->. constructor.
  - apply Forall2_cons_inv_l in Hcs as (c & cs' & Hc & Hcs' & ->).
    constructor; [|now apply IH].
    apply (HP f b c Hfb). tauto.
Qed.

Lemma recoloured_ids (bs cs : list BoundingBox) :
  Forall2 (fun b b' =>
             box_id b' = box_id b /\ label b' = label b /\ source b' = source b /\
             x_min b' = x_min b /\ y_min b' = y_min b /\
             width b' = width b /\ height b' = height b) bs cs ->
  map box_id cs = map box_id bs /\ length cs = length bs /\
  (Forall (fun b => source b = gemini_assisted) bs ->
   Forall (fun b => source b = gemini_assisted) cs).
Proof.
  induction 1 as [|b c bs cs Hbc _ (IHids & IHlen & IHsrc)].
  - repeat split. auto.
  - destruct Hbc as (Hid & _ & Hsrc & _). cbn. rewrite Hid, IHids, IHlen.
    split; [reflexivity|]. split; [reflexivity|].
    intros Hall. apply Forall_cons in Hall as [Hb Hrest].
    constructor; [congruence | now apply IHsrc].
Qed.

(** A reply that resolves, on any box set: the boxes pushed by the
    validation are appended after the boxes of the state, which stay as
    they are. *)
Lemma handleAssist_resolved (st : State) (r : GenerateContentResponse)
    (entries : list JsValue) :
  ai = true ->
  isBlank (assistPrompt st) = false ->
  parsed r = Some (JArr entries) ->
  JNull ∉ entries ->
  exists appended,
    boxes (handleAssist st (GenerateContentResolves r)) = boxes st ++ appended /\
    Forall2 carries (acceptedFields nullPropertyMessage entries) appended /\
    map box_id appended = map randomUUID (seq (uuidsDrawn st) (length appended)) /\
    Forall (fun b => source b = gemini_assisted) appended /\
    uuidsDrawn (handleAssist st (GenerateContentResolves r))
      = (uuidsDrawn st + length appended)%nat /\
    assistError (handleAssist st (GenerateContentResolves r)) = None.
Proof.
  intros Hai Hprompt Hparsed Hnull.
  unfold handleGeminiAssistRequest. rewrite Hprompt.
  unfold onGeminiAssist, generateAssistedAnnotations. rewrite Hai. cbn [negb].
  unfold assistTry, parseGeminiJsonResponse. rewrite Hparsed.
  destruct (validateNewBoxes_pushes randomUUID nullPropertyMessage entries []
              (uuidsDrawn st) Hnull) as (pushed & -> & Hcar & Hids & Hsrc).
  cbn [app].
  pose proof (withColors_fields pushed (labelColors st)) as Hfields.
  destruct (withColors BOUNDING_BOX_COLORS pushed (labelColors st))
    as [boxesWithColors colors'].
  cbn [fst] in Hfields.
  destruct (recoloured_ids _ _ Hfields) as (Hids' & Hlen & Hsrc').
  exists boxesWithColors. cbn. rewrite Hids', Hlen.
  split; [reflexivity|]. split.
  - apply (Forall2_recoloured carries _ pushed); [|exact Hcar | exact Hfields].
    intros [[[[l x] y] w] h] b c Hb Hc. cbn in *. intuition congruence.
  - split; [exact Hids|]. split; [now apply Hsrc'|]. split; reflexivity.
Qed.

(** One existing box and a reply of two well-formed entries. *)
Lemma handleAssist_one_and_two (st : State) (existing : BoundingBox)
    (r : GenerateContentResponse) (e1 e2 : JsValue)
    (l1 l2 : string) (x1 y1 w1 h1 x2 y2 w2 h2 : Q) :
  ai = true ->
  isBlank (assistPrompt st) = false ->
  boxes st = [existing] ->
  source existing = human_added ->
  parsed r = Some (JArr [e1; e2]) ->
  wellFormed e1 l1 x1 y1 w1 h1 ->
  wellFormed e2 l2 x2 y2 w2 h2 ->
  let st' := handleAssist st (GenerateContentResolves r) in
  exists n1 n2,
    boxes st' = [existing; n1; n2] /\
    box_id n1 = randomUUID (uuidsDrawn st) /\
    box_id n2 = randomUUID (S (uuidsDrawn st)) /\
    uuidsDrawn st' = S (S (uuidsDrawn st)) /\
    source n1 = gemini_assisted /\ source n2 = gemini_assisted /\
    label n1 = l1 /\ x_min n1 = x1 /\ y_min n1 = y1 /\ width n1 = w1 /\ height n1 = h1 /\
    label n2 = l2 /\ x_min n2 = x2 /\ y_min n2 = y2 /\ width n2 = w2 /\ height n2 = h2 /\
    assistError st' = None /\
    (NoDup [box_id existing; randomUUID (uuidsDrawn st); randomUUID (S (uuidsDrawn st))] ->
     NoDup (map box_id (boxes st'))).
Proof.
  intros Hai Hprompt Hboxes Hsrc Hparsed Hwf1 Hwf2. cbn zeta.
  unfold wellFormed in *.
  unfold handleGeminiAssistRequest. rewrite Hprompt.
  unfold onGeminiAssist, generateAssistedAnnotations. rewrite Hai. cbn [negb].
  unfold assistTry, parseGeminiJsonResponse. rewrite Hparsed.
  cbn [validateNewBoxes]. rewrite Hwf1, Hwf2. cbn [app].
  set (b1 := mkBox (randomUUID (uuidsDrawn st)) l1 x1 y1 w1 h1 (payloadColor e1)
               gemini_assisted).
  set (b2 := mkBox (randomUUID (S (uuidsDrawn st))) l2 x2 y2 w2 h2 (payloadColor e2)
               gemini_assisted).
  pose proof (withColors_fields [b1; b2] (labelColors st)) as Hfields.
  destruct (withColors BOUNDING_BOX_COLORS [b1; b2] (labelColors st))
    as [coloured colors'].
  cbn [fst] in Hfields.
  apply Forall2_cons_inv_l in Hfields as (n1 & rest & Hn1 & Hrest & ->).
  apply Forall2_cons_inv_l in Hrest as (n2 & rest' & Hn2 & Hnil & ->).
  apply Forall2_nil_inv_l in Hnil as ->.
  destruct Hn1 as (? & ? & ? & ? & ? & ? & ?).
  destruct Hn2 as (? & ? & ? & ? & ? & ? & ?).
  exists n1, n2. cbn. rewrite Hboxes. cbn.
  repeat (split; [reflexivity || assumption|]).
  intros Hnd. subst b1 b2. cbn in *. congruence.
Qed.

(** C5: merging an assist reply appends the new boxes after the existing
    ones.  On any box set and for any reply that resolves (an array without
    a [null] entry), the set after the merge is the existing boxes,
    unchanged and in place, followed by one box per well-formed entry of the
    reply, in the order of the entries: each carries the label and the
    geometry of its entry, the next UUID of the browser and the source
    [gemini-assisted].  Nothing is compared with the existing boxes or among
    the entries: no entry is dropped or merged, whatever it repeats or
    overlaps.  In particular, with one human-added box in the set and a
    reply of two well-formed entries, the set after the merge is that box
    followed by two boxes with the next two UUIDs. *)
Theorem assist_merge_appends (st : State) (r : GenerateContentResponse) :
  ai = true ->
  isBlank (assistPrompt st) = false ->
  let st' := handleAssist st (GenerateContentResolves r) in
  (forall entries : list JsValue,
      parsed r = Some (JArr entries) ->
      JNull ∉ entries ->
      exists appended,
        boxes st' = boxes st ++ appended /\
        Forall2 carries (acceptedFields nullPropertyMessage entries) appended /\
        map box_id appended = map randomUUID (seq (uuidsDrawn st) (length appended)) /\
        Forall (fun b => source b = gemini_assisted) appended /\
        uuidsDrawn st' = (uuidsDrawn st + length appended)%nat /\
        assistError st' = None) /\
  (forall (existing : BoundingBox) (e1 e2 : JsValue)
          (l1 l2 : string) (x1 y1 w1 h1 x2 y2 w2 h2 : Q),
      boxes st = [existing] ->
      source existing = human_added ->
      parsed r = Some (JArr [e1; e2]) ->
      wellFormed e1 l1 x1 y1 w1 h1 ->
      wellFormed e2 l2 x2 y2 w2 h2 ->
      exists n1 n2,
        boxes st' = [existing; n1; n2] /\
        box_id n1 = randomUUID (uuidsDrawn st) /\
        box_id n2 = randomUUID (S (uuidsDrawn st)) /\
        uuidsDrawn st' = S (S (uuidsDrawn st)) /\
        source n1 = gemini_assisted /\ source n2 = gemini_assisted /\
        label n1 = l1 /\ x_min n1 = x1 /\ y_min n1 = y1 /\
        width n1 = w1 /\ height n1 = h1 /\
        label n2 = l2 /\ x_min n2 = x2 /\ y_min n2 = y2 /\
        width n2 = w2 /\ height n2 = h2 /\
        assistError st' = None /\
        (NoDup [box_id existing; randomUUID (uuidsDrawn st);
                randomUUID (S (uuidsDrawn st))] ->
         NoDup (map box_id (boxes st')))).
Proof.
  intros Hai Hprompt. cbn zeta. split.
  - intros entries Hparsed Hnull. now apply handleAssist_resolved.
  - intros existing e1 e2 l1 l2 x1 y1 w1 h1 x2 y2 w2 h2 Hboxes Hsrc Hparsed Hwf1 Hwf2.
    exact (handleAssist_one_and_two st existing r e1 e2 l1 l2 x1 y1 w1 h1 x2 y2 w2 h2
             Hai Hprompt Hboxes Hsrc Hparsed Hwf1 Hwf2).
Qed.

End Assist.

(** A stored human-added box, a reply whose two entries both repeat it, and
    a reply that is not JSON. *)
Definition humanBox : BoundingBox :=
  mkBox "h" "car" 0.2 0.2 0.4 0.4 None human_added.

Definition repeatedEntry : JsValue :=
  JObj [("label", JStr "car"); ("x_min", JNum 0.2); ("y_min", JNum 0.2);
        ("width", JNum 0.4); ("height", JNum 0.4)].

Definition repeatingReply : GenerateContentResponse :=
  mkResponse "[...]" (Some (JArr [repeatedEntry; repeatedEntry])).

Definition brokenReply : GenerateContentResponse :=
  mkResponse "Sorry, I cannot help with that." None.

(** The editor holds [humanBox] and the user has typed a prompt. *)
Definition promptedEditor : State :=
  setAssistPrompt "find the cars" (openedEditor [humanBox]).

(** Two entries that repeat the existing box are both appended. *)
Lemma assist_merge_appends_witness :
  let st' :=
    handleGeminiAssistRequest scenePalette true sceneUUID "" promptedEditor
      (GenerateContentResolves repeatingReply) in
  boxes promptedEditor = [coloured "#FF0000" humanBox] /\
  wellFormed "" repeatedEntry "car" 0.2 0.2 0.4 0.4 /\
  length (boxes st') = 3%nat /\
  head (boxes st') = Some (coloured "#FF0000" humanBox) /\
  map box_id (boxes st') = ["h"; "uuid-0"; "uuid-1"] /\
  map x_min (boxes st') = [0.2; 0.2; 0.2].
Proof.
  cbn zeta. split; [reflexivity|]. split; [reflexivity|].
  destruct (proj2 (assist_merge_appends scenePalette true sceneUUID "" promptedEditor
                     repeatingReply eq_refl eq_refl)
              (coloured "#FF0000" humanBox) repeatedEntry repeatedEntry
              "car" "car" 0.2 0.2 0.4 0.4 0.2 0.2 0.4 0.4
              eq_refl eq_refl eq_refl eq_refl eq_refl)
    as (n1 & n2 & Hb & Hid1 & Hid2 & _ & _ & _ & _ & Hx1 & _ & _ & _ & _ & Hx2 & _).
  rewrite Hb. cbn. rewrite Hid1, Hid2, Hx1, Hx2. repeat split.
Defined.

(** A reply that is not JSON: the request fails and the box stays. *)
Lemma failed_assist_leaves_boxes_untouched_witness :
  let run := GenerateContentResolves brokenReply in
  let st' := handleGeminiAssistRequest scenePalette true sceneUUID "" promptedEditor run in
  assistFails true sceneUUID "" run (uuidsDrawn promptedEditor) /\
  boxes st' = [coloured "#FF0000" humanBox] /\
  exists m, assistError st' = Some m /\ m <> "".
Proof.
  cbn zeta.
  pose proof (failed_assist_leaves_boxes_untouched scenePalette true sceneUUID ""
                promptedEditor (GenerateContentResolves brokenReply)) as [Hleft Hfails].
  assert (Hf : assistFails true sceneUUID "" (GenerateContentResolves brokenReply)
                 (uuidsDrawn promptedEditor)).
  { apply Hfails. right. right. right. exists brokenReply. split; reflexivity. }
  destruct (Hleft Hf) as (Hb & _ & _ & Herr).
  split; [exact Hf|]. split; [exact Hb | exact Herr].
Defined.

(** *** The handlers stay within the model *)

Lemma inModel_frame (st st' : State) :
  imageRenderSize st' = imageRenderSize st ->
  (currentDrawingBox st' = currentDrawingBox st \/
   currentDrawingBox st' = None \/
   exists cdb, currentDrawingBox st' = Some cdb /\ anchored cdb) ->
  inModel st -> inModel st'.
Proof.
  intros Hsize Hcdb [Hlaid Hanch]. split; [now rewrite Hsize|].
  intros cdb Hc. destruct Hcdb as [E | [E | (cdb' & E & Hok)]].
  - apply Hanch. congruence.
  - congruence.
  - congruence.
Qed.

Lemma anchored_drawTo (coords : Coords) (cdb : InteractionState) (bx by' : Q) :
  anchored cdb -> anchored (drawTo coords cdb bx by').
Proof. intros [Hs _]. split; cbn; [exact Hs | eauto]. Qed.

Lemma inModel_handleMouseDown (st : State) (clientX clientY : Q) :
  inModel st -> inModel (handleMouseDown st clientX clientY).
Proof.
  apply inModel_frame; unfold handleMouseDown;
    destruct (getNormalizedCoords st clientX clientY) as [coords|]; auto;
    destruct (interactionMode st); cbn;
    repeat match goal with
           | |- context [List.find ?f ?l] => destruct (List.find f l)
           | |- context [nearBottomRight ?a ?b ?c] => destruct (nearBottomRight a b c)
           end; cbn; auto;
    right; right; eexists; (split; [reflexivity|]);
    split; cbn; eauto.
Qed.

Lemma inModel_handleCircleMouseDown (st : State) (box : BoundingBox)
    (handle : ResizeHandle) (clientX clientY : Q) :
  inModel st -> inModel (handleCircleMouseDown st box handle clientX clientY).
Proof.
  apply inModel_frame; unfold handleCircleMouseDown;
    destruct (getNormalizedCoords st clientX clientY); cbn; auto.
  right; right. eexists. split; [reflexivity|]. split; cbn; eauto.
Qed.

Lemma inModel_handleMouseMove (st : State) (clientX clientY : Q) :
  inModel st -> inModel (handleMouseMove st clientX clientY).
Proof.
  intros Hin. apply (inModel_frame st); [| |exact Hin].
  - now destruct (handleMouseMove_spec st clientX clientY) as [(_ & _ & _ & -> & _) _].
  - destruct Hin as [_ Hanch]. unfold handleMouseMove, moveTo, resizeTo.
    destruct (getNormalizedCoords st clientX clientY) as [coords|]; auto.
    destruct (currentDrawingBox st) as [cdb|] eqn:Hcdb; auto.
    specialize (Hanch cdb eq_refl).
    destruct (interactionMode st), (part_x_min cdb), (part_y_min cdb),
      (truthyStr (selectedBoxId st)), (startX cdb), (resizeHandle st);
      cbn; auto;
      repeat match goal with
             | |- context [List.find ?f ?l] => destruct (List.find f l)
             | |- context [boxInitialX ?c] => destruct (boxInitialX c)
             | |- context [boxInitialY ?c] => destruct (boxInitialY c)
             | |- context [decide ?P] => destruct (decide P)
             end; cbn; auto;
      right; right; eexists; (split; [reflexivity|]);
      now apply anchored_drawTo.
Qed.

Lemma inModel_handleMouseUp (palette : list string) (randomUUID : nat -> string)
    (st : State) (answer : option string) :
  inModel st -> inModel (handleMouseUp palette randomUUID st answer).
Proof.
  apply inModel_frame; unfold handleMouseUp, commitDrawing.
  - destruct (interactionMode st); cbn; try reflexivity.
    destruct (currentDrawingBox st) as [cdb|]; [|reflexivity].
    destruct (truthyNum (part_width cdb) && truthyNum (part_height cdb));
      [|reflexivity].
    destruct (truthyStr answer); [|reflexivity].
    now destruct (getLabelColor palette (default "" answer) (labelColors st)).
  - right. left. now destruct (interactionMode st).
Qed.

(** An editor mounted on an image and an SVG element with positive sizes,
    once laid out, is within the model and normalizes every pointer
    event. *)
Lemma inModel_laid_out_editor (palette : list string)
    (initialAnnotations : list BoundingBox) (img : HTMLImageElement)
    (svgRect : DOMRect) (colors : ColorState) (uuids : nat) :
  0 < naturalWidth img -> 0 < naturalHeight img ->
  0 < rect_width svgRect -> 0 < rect_height svgRect ->
  let st := updateRenderSize
              (mount palette initialAnnotations (Some img) (Some svgRect) colors uuids) in
  inModel st /\
  forall clientX clientY, is_Some (getNormalizedCoords st clientX clientY).
Proof.
  intros Hnw Hnh Hw Hh. cbn zeta.
  set (st0 := mount palette initialAnnotations (Some img) (Some svgRect) colors uuids).
  assert (Himg : imageRef st0 = Some img /\ svgRef st0 = Some svgRect /\
                 currentDrawingBox st0 = None).
  { unfold st0, mount. now destruct (withColors palette initialAnnotations colors). }
  destruct Himg as (Himg & Hsvg & Hcdb).
  destruct (updateRenderSize_positive st0 img svgRect Himg Hsvg Hnw Hnh Hw Hh)
    as [Hpos _].
  pose proof (updateRenderSize_laidOut st0 img svgRect Himg Hsvg Hnw Hnh Hw Hh) as Hlaid.
  assert (Hkeep : svgRef (updateRenderSize st0) = Some svgRect /\
                  currentDrawingBox (updateRenderSize st0) = None).
  { unfold updateRenderSize. rewrite Himg, Hsvg.
    destruct (Qltb _ _); cbn; auto. }
  destruct Hkeep as [Hsvg' Hcdb']. split.
  - split; [exact Hlaid|]. intros cdb Hc. congruence.
  - intros clientX clientY. unfold getNormalizedCoords. rewrite Hsvg'.
    destruct (Qeq_bool _ 0) eqn:E; [|eauto].
    apply Qeq_bool_iff in E. rewrite E in Hpos. lra.
Qed.

(** ** Further behaviour of the editor *)

(** *** What a pointer move leaves alone *)

(** How a box [b'] of the new set relates to the box [b] at the same place
    in the old one: same id, label and colour; untouched unless it carries
    the selected id; marked [human-edited] if it changed. *)
Definition editedFrom (sel : option string) (b b' : BoundingBox) : Prop :=
  box_id b' = box_id b /\ label b' = label b /\ color b' = color b /\
  (isSelectedBox sel b = false -> b' = b) /\
  (b' = b \/ source b' = human_edited).

Lemma editedFrom_refl (sel : option string) (b : BoundingBox) : editedFrom sel b b.
Proof. repeat split; auto. Qed.

Lemma Forall2_same {A : Type} (R : A -> A -> Prop) (l : list A) :
  (forall a, R a a) -> Forall2 R l l.
Proof. intros HR. induction l; constructor; auto. Qed.

Lemma Forall2_update_selected (R : BoundingBox -> BoundingBox -> Prop)
    (sel : option string) (g : BoundingBox -> BoundingBox) (bs : list BoundingBox) :
  (forall b, R b b) ->
  (forall b, isSelectedBox sel b = true -> R b (g b)) ->
  Forall2 R bs (map (fun b => if isSelectedBox sel b then g b else b) bs).
Proof.
  intros Hrefl Hg. induction bs as [|b bs IH]; cbn; constructor; [|exact IH].
  destruct (isSelectedBox sel b) eqn:E; auto.
Qed.

Lemma handleMouseMove_edits_in_place_lemma (st : State) (clientX clientY : Q) :
  Forall2 (editedFrom (selectedBoxId st)) (boxes st)
    (boxes (handleMouseMove st clientX clientY)).
Proof.
  destruct (handleMouseMove_spec st clientX clientY) as [_ Hcases].
  destruct Hcases as [Hsame | [(coords & cdb & sx & _ & _ & ->) | (coords & handle & _ & _ & _ & _ & ->)]].
  - rewrite Hsame. apply Forall2_same. apply editedFrom_refl.
  - destruct (moveTo_spec st coords cdb sx) as [Hsame | (sb & nx & ny & _ & -> & _)].
    + rewrite Hsame. apply Forall2_same. apply editedFrom_refl.
    + apply Forall2_update_selected; [apply editedFrom_refl|].
      intros b Hb. repeat split; cbn; auto. congruence.
  - pose proof (resizeTo_spec st coords handle) as Hspec.
    destruct (List.find _ (boxes st)) as [sb|].
    + rewrite Hspec. apply Forall2_update_selected; [apply editedFrom_refl|].
      intros b Hb. repeat split; cbn; auto. congruence.
    + rewrite Hspec. apply Forall2_same. apply editedFrom_refl.
Qed.

(** A pointer move, in any mode and at any position, neither adds nor
    removes nor reorders boxes; it keeps every id, label and colour, leaves
    the boxes that do not carry the selected id as they are, and marks what
    it changes [human-edited]. *)
Theorem handleMouseMove_edits_in_place (st : State) (clientX clientY : Q) :
  length (boxes (handleMouseMove st clientX clientY)) = length (boxes st) /\
  Forall2 (editedFrom (selectedBoxId st)) (boxes st)
    (boxes (handleMouseMove st clientX clientY)).
Proof.
  pose proof (handleMouseMove_edits_in_place_lemma st clientX clientY) as H.
  split; [symmetry; exact (Forall2_length _ _ _ H) | exact H].
Qed.

(** *** Pointer-down: hit testing *)

(** The press does not fall on the bottom-right corner of the selected box
    (the only handle [handleMouseDown] itself looks for). *)
Definition offHandle (st : State) (coords : Coords) : Prop :=
  forall sb,
    List.find (isSelectedBox (selectedBoxId st)) (boxes st) = Some sb ->
    nearBottomRight (imageRenderSize st) coords sb = false.

Lemma find_app_none {A : Type} (f : A -> bool) (l m : list A) :
  Forall (fun x => f x = false) l -> List.find f (l ++ m) = List.find f m.
Proof.
  induction 1 as [|x l Hx _ IH]; [reflexivity|]. cbn. now rewrite Hx.
Qed.

(** [find] over the reversed list returns the last match. *)
Lemma find_rev_last {A : Type} (f : A -> bool) (pre post : list A) (a : A) :
  f a = true -> Forall (fun x => f x = false) post ->
  List.find f (rev (pre ++ a :: post)) = Some a.
Proof.
  intros Ha Hpost. rewrite rev_app_distr. cbn [rev]. rewrite <- app_assoc.
  rewrite find_app_none by now apply Forall_rev.
  cbn. now rewrite Ha.
Qed.

Lemma find_rev_none {A : Type} (f : A -> bool) (l : list A) :
  Forall (fun x => f x = false) l -> List.find f (rev l) = None.
Proof.
  intros H. rewrite <- (app_nil_r (rev l)).
  rewrite find_app_none by now apply Forall_rev. reflexivity.
Qed.

Lemma handleMouseDown_hit (st : State) (clientX clientY : Q)
    (coords : Coords) (pre post : list BoundingBox) (b : BoundingBox) :
  interactionMode st <> Draw ->
  getNormalizedCoords st clientX clientY = Some coords ->
  offHandle st coords ->
  boxes st = pre ++ b :: post ->
  containsPoint coords b = true ->
  Forall (fun b' => containsPoint coords b' = false) post ->
  handleMouseDown st clientX clientY =
    setCurrentDrawingBox
      (Some (moveAnchor (coords_x coords) (coords_y coords) (x_min b) (y_min b)))
      (setInteractionMode Move (setSelectedBoxId (Some (box_id b)) st)).
Proof.
  intros Hmode Hc Hoff Hboxes Hin Hpost. unfold handleMouseDown. rewrite Hc.
  assert (HonHandle :
            match List.find (isSelectedBox (selectedBoxId st)) (boxes st) with
            | Some selectedBox => nearBottomRight (imageRenderSize st) coords selectedBox
            | None => false
            end = false).
  { destruct (List.find _ (boxes st)) as [sb|] eqn:E; [now apply Hoff | reflexivity]. }
  rewrite HonHandle.
  assert (Hfind : List.find (containsPoint coords) (rev (boxes st)) = Some b)
    by (rewrite Hboxes; now apply find_rev_last).
  rewrite Hfind. now destruct (interactionMode st).
Qed.

(** A press that is off the handle and outside every box clears the
    selection and leaves the editor in the select mode (the draw tool
    apart); the box set is not touched. *)
Theorem handleMouseDown_outside_deselects (st : State) (clientX clientY : Q)
    (coords : Coords) :
  interactionMode st <> Draw ->
  getNormalizedCoords st clientX clientY = Some coords ->
  offHandle st coords ->
  Forall (fun b => containsPoint coords b = false) (boxes st) ->
  handleMouseDown st clientX clientY =
    setInteractionMode Select (setSelectedBoxId None st).
Proof.
  intros Hmode Hc Hoff Hout. unfold handleMouseDown. rewrite Hc.
  assert (HonHandle :
            match List.find (isSelectedBox (selectedBoxId st)) (boxes st) with
            | Some selectedBox => nearBottomRight (imageRenderSize st) coords selectedBox
            | None => false
            end = false).
  { destruct (List.find _ (boxes st)) as [sb|] eqn:E; [now apply Hoff | reflexivity]. }
  rewrite HonHandle, (find_rev_none _ _ Hout).
  destruct st as [bs sel mode cdb rh ap ia ae irs svg img lc ud]. cbn in *.
  now destruct mode.
Qed.

(** Outside the draw tool, a press that is off the handle and inside at
    least one box selects the topmost such box (the last in the list),
    switches to the move mode and records the press point and the corner of
    that box; the box set is not touched. *)
Theorem handleMouseDown_selects_topmost (st : State) (clientX clientY : Q)
    (coords : Coords) (pre post : list BoundingBox) (b : BoundingBox) :
  interactionMode st <> Draw ->
  getNormalizedCoords st clientX clientY = Some coords ->
  offHandle st coords ->
  boxes st = pre ++ b :: post ->
  containsPoint coords b = true ->
  Forall (fun b' => containsPoint coords b' = false) post ->
  let st' := handleMouseDown st clientX clientY in
  selectedBoxId st' = Some (box_id b) /\
  interactionMode st' = Move /\
  currentDrawingBox st' =
    Some (moveAnchor (coords_x coords) (coords_y coords) (x_min b) (y_min b)) /\
  boxes st' = boxes st.
Proof.
  intros Hmode Hc Hoff Hboxes Hin Hpost. cbn zeta.
  rewrite (handleMouseDown_hit st clientX clientY coords pre post b); auto.
Qed.

(** *** Move *)

Lemma handleMouseMove_no_anchor (st : State) (clientX clientY : Q) :
  currentDrawingBox st = None -> handleMouseMove st clientX clientY = st.
Proof.
  intros Hcdb. unfold handleMouseMove. rewrite Hcdb.
  now destruct (getNormalizedCoords st clientX clientY).
Qed.

(** Past its guards, a pointer move in the move mode is [moveTo]. *)
Lemma handleMouseMove_move (st : State) (clientX clientY : Q)
    (cdb : InteractionState) (coords : Coords) (sx : Q) :
  interactionMode st = Move ->
  truthyStr (selectedBoxId st) = true ->
  currentDrawingBox st = Some cdb ->
  startX cdb = Some sx ->
  getNormalizedCoords st clientX clientY = Some coords ->
  handleMouseMove st clientX clientY = moveTo st coords cdb sx.
Proof.
  intros Hmode Hsel Hcdb Hsx Hc.
  unfold handleMouseMove. rewrite Hc, Hcdb, Hmode, Hsel, Hsx.
  now destruct (part_x_min cdb), (part_y_min cdb), (resizeHandle st).
Qed.

Lemma moveTo_boxes (st : State) (coords : Coords) (cdb : InteractionState)
    (sx bix biy : Q) (sb : BoundingBox) :
  List.find (isSelectedBox (selectedBoxId st)) (boxes st) = Some sb ->
  boxInitialX cdb = Some bix -> boxInitialY cdb = Some biy ->
  boxes (moveTo st coords cdb sx) =
    map (fun b => if isSelectedBox (selectedBoxId st) b
                  then movedBox
                         (Qmax 0 (Qmin (bix + (coords_x coords - sx)) (1 - width sb)))
                         (Qmax 0 (Qmin (biy + (coords_y coords - asNumber (startY cdb)))
                                    (1 - height sb)))
                         b
                  else b)
      (boxes st).
Proof. intros Hf Hx Hy. unfold moveTo. now rewrite Hf, Hx, Hy. Qed.

Lemma isSelectedBox_self (b : BoundingBox) : isSelectedBox (Some (box_id b)) b = true.
Proof. apply String.eqb_refl. Qed.

(** With unique ids, [find] by the id of a box of the set returns it. *)
Lemma find_own_id (bs : list BoundingBox) (b : BoundingBox) :
  NoDup (map box_id bs) -> b ∈ bs ->
  List.find (isSelectedBox (Some (box_id b))) bs = Some b.
Proof.
  intros Hnd Hb.
  destruct (List.find (isSelectedBox (Some (box_id b))) bs) as [sb|] eqn:E.
  - f_equal. symmetry.
    apply (selected_unique (Some (box_id b)) bs sb b Hnd E Hb), isSelectedBox_self.
  - apply list_elem_of_In in Hb.
    pose proof (find_none _ _ E b Hb) as Hno. now rewrite isSelectedBox_self in Hno.
Qed.

(** A drag of a box: press at [p] on the topmost box [b], pointer move to
    [q].  When the displaced box fits in the image, it lands at its corner
    plus [q - p], with its extents unchanged, marked [human-edited]. *)
Theorem drag_moves_box_by_pointer_delta (st : State)
    (pressX pressY clientX clientY : Q) (p q : Coords)
    (pre post : list BoundingBox) (b : BoundingBox) :
  interactionMode st <> Draw ->
  getNormalizedCoords st pressX pressY = Some p ->
  getNormalizedCoords st clientX clientY = Some q ->
  offHandle st p ->
  boxes st = pre ++ b :: post ->
  containsPoint p b = true ->
  Forall (fun b' => containsPoint p b' = false) post ->
  NoDup (map box_id (boxes st)) ->
  box_id b <> "" ->
  0 <= x_min b + (coords_x q - coords_x p) <= 1 - width b ->
  0 <= y_min b + (coords_y q - coords_y p) <= 1 - height b ->
  exists b',
    List.find (isSelectedBox (Some (box_id b)))
      (boxes (handleMouseMove (handleMouseDown st pressX pressY) clientX clientY))
      = Some b' /\
    x_min b' == x_min b + (coords_x q - coords_x p) /\
    y_min b' == y_min b + (coords_y q - coords_y p) /\
    width b' = width b /\ height b' = height b /\
    source b' = human_edited.
Proof.
  intros Hmode Hp Hq Hoff Hboxes Hin Hpost Hnd Hid Hx Hy.
  rewrite (handleMouseDown_hit st pressX pressY p pre post b); auto.
  set (st1 := setCurrentDrawingBox _ _).
  assert (Hfind : List.find (isSelectedBox (Some (box_id b))) (boxes st) = Some b).
  { apply find_own_id; [exact Hnd|]. rewrite Hboxes. apply elem_of_app. right. left. }
  rewrite (handleMouseMove_move st1 clientX clientY
             (moveAnchor (coords_x p) (coords_y p) (x_min b) (y_min b)) q (coords_x p));
    try reflexivity.
  - rewrite (moveTo_boxes st1 q
               (moveAnchor (coords_x p) (coords_y p) (x_min b) (y_min b))
               (coords_x p) (x_min b) (y_min b) b Hfind eq_refl eq_refl).
    change (selectedBoxId st1) with (Some (box_id b)).
    change (boxes st1) with (boxes st).
    rewrite (find_update _ _ (movedBox_id _ _)), Hfind.
    eexists. split; [reflexivity|]. cbn [x_min y_min width height source movedBox].
    change (asNumber (startY (moveAnchor (coords_x p) (coords_y p) (x_min b) (y_min b))))
      with (coords_y p).
    split; [qcases|]. split; [qcases|]. auto.
  - cbn. destruct (String.eqb (box_id b) "") eqn:E; [|reflexivity].
    now apply String.eqb_eq in E.
  - exact Hq.
Qed.

(** A press that [handleMouseDown] itself takes for the bottom-right handle
    of the selected box starts the resize mode without recording an anchor:
    with no gesture in progress before it, the pointer moves that follow
    change no box. *)
Theorem handleMouseDown_handle_press_is_inert (st : State) (clientX clientY : Q)
    (coords : Coords) (sb : BoundingBox) (moves : list (Q * Q)) :
  interactionMode st <> Draw ->
  currentDrawingBox st = None ->
  getNormalizedCoords st clientX clientY = Some coords ->
  List.find (isSelectedBox (selectedBoxId st)) (boxes st) = Some sb ->
  nearBottomRight (imageRenderSize st) coords sb = true ->
  let st' := handleMouseDown st clientX clientY in
  interactionMode st' = Resize /\
  resizeHandle st' = Some handle_se /\
  selectedBoxId st' = selectedBoxId st /\
  handleMouseMoves st' moves = st'.
Proof.
  intros Hmode Hcdb Hc Hfind Hnear. cbn zeta.
  assert (E : handleMouseDown st clientX clientY =
              setResizeHandle (Some handle_se) (setInteractionMode Resize st)).
  { unfold handleMouseDown. rewrite Hc, Hfind, Hnear. now destruct (interactionMode st). }
  rewrite E. repeat split.
  induction moves as [|m moves IH]; [reflexivity|].
  rewrite handleMouseMoves_cons, handleMouseMove_no_anchor; [exact IH | exact Hcdb].
Qed.

(** *** Release *)

(** Pointer events leave the colour allocator and the UUID count alone. *)
Lemma handleMouseDown_world (st : State) (clientX clientY : Q) :
  labelColors (handleMouseDown st clientX clientY) = labelColors st /\
  uuidsDrawn (handleMouseDown st clientX clientY) = uuidsDrawn st.
Proof.
  unfold handleMouseDown.
  destruct (getNormalizedCoords st clientX clientY); [|auto].
  destruct (interactionMode st); cbn;
    repeat match goal with
           | |- context [List.find ?f ?l] => destruct (List.find f l)
           | |- context [nearBottomRight ?a ?b ?c] => destruct (nearBottomRight a b c)
           end; cbn; auto.
Qed.

Lemma handleMouseMove_world (st : State) (clientX clientY : Q) :
  labelColors (handleMouseMove st clientX clientY) = labelColors st /\
  uuidsDrawn (handleMouseMove st clientX clientY) = uuidsDrawn st.
Proof.
  unfold handleMouseMove, moveTo, resizeTo.
  destruct (getNormalizedCoords st clientX clientY) as [coords|]; auto.
  destruct (currentDrawingBox st) as [cdb|]; auto.
  destruct (interactionMode st), (part_x_min cdb), (part_y_min cdb),
    (truthyStr (selectedBoxId st)), (startX cdb), (resizeHandle st);
    cbn; auto;
    repeat match goal with
           | |- context [List.find ?f ?l] => destruct (List.find f l)
           | |- context [boxInitialX ?c] => destruct (boxInitialX c)
           | |- context [boxInitialY ?c] => destruct (boxInitialY c)
           | |- context [decide ?P] => destruct (decide P)
           end; cbn; auto.
Qed.

Section Release.

Variable BOUNDING_BOX_COLORS : list string.
Variable randomUUID : nat -> string.

Abbreviation release := (handleMouseUp BOUNDING_BOX_COLORS randomUUID).

Lemma handleMouseUp_draw_mode (st : State) (answer : option string) :
  interactionMode st = Draw -> interactionMode (release st answer) = Draw.
Proof.
  intros Hmode. unfold handleMouseUp, commitDrawing. rewrite Hmode. cbn.
  destruct (currentDrawingBox st) as [cdb|]; [|exact Hmode].
  destruct (truthyNum (part_width cdb) && truthyNum (part_height cdb)); [|exact Hmode].
  destruct (truthyStr answer); [|exact Hmode].
  now destruct (getLabelColor BOUNDING_BOX_COLORS (default "" answer) (labelColors st)).
Qed.

(** Every release ends the gesture: no in-progress box and no handle are
    left.  The draw tool stays active; from any other mode the editor is in
    the select mode afterwards, with the boxes, the selection, the colours
    and the UUID count as they were, whatever [prompt] would answer. *)
Theorem handleMouseUp_ends_gesture (st : State) (answer : option string) :
  currentDrawingBox (release st answer) = None /\
  resizeHandle (release st answer) = None /\
  (interactionMode st = Draw -> interactionMode (release st answer) = Draw) /\
  (interactionMode st <> Draw ->
   interactionMode (release st answer) = Select /\
   boxes (release st answer) = boxes st /\
   selectedBoxId (release st answer) = selectedBoxId st /\
   labelColors (release st answer) = labelColors st /\
   uuidsDrawn (release st answer) = uuidsDrawn st).
Proof.
  split; [reflexivity|]. split; [reflexivity|].
  split; [apply handleMouseUp_draw_mode|].
  intros Hmode. unfold handleMouseUp, commitDrawing.
  destruct (interactionMode st) eqn:E; cbn; try (now contradict Hmode);
    repeat split; auto.
Qed.

(** The commit of [handleMouseUp] on an in-progress box with an area and a
    non-empty label. *)
Lemma commitDrawing_commits (st : State) (cdb : InteractionState)
    (x y w h : Q) (newLabel : string) :
  interactionMode st = Draw ->
  currentDrawingBox st = Some cdb ->
  part_x_min cdb = Some x -> part_y_min cdb = Some y ->
  part_width cdb = Some w -> part_height cdb = Some h ->
  ~ w == 0 -> ~ h == 0 -> newLabel <> "" ->
  let newBox :=
    mkBox (randomUUID (uuidsDrawn st)) newLabel x y w h
      (fst (getLabelColor BOUNDING_BOX_COLORS newLabel (labelColors st)))
      human_added in
  boxes (release st (Some newLabel)) = boxes st ++ [newBox] /\
  selectedBoxId (release st (Some newLabel)) = Some (randomUUID (uuidsDrawn st)) /\
  uuidsDrawn (release st (Some newLabel)) = S (uuidsDrawn st) /\
  labelColors (release st (Some newLabel)) =
    snd (getLabelColor BOUNDING_BOX_COLORS newLabel (labelColors st)).
Proof.
  intros Hmode Hcdb Hx Hy Hw Hh Hw0 Hh0 Hl. cbn zeta.
  unfold handleMouseUp, commitDrawing. rewrite Hmode, Hcdb, Hx, Hy, Hw, Hh.
  assert (Ew : truthyNum (Some w) = true) by (apply truthyNum_true; eauto).
  assert (Eh : truthyNum (Some h) = true) by (apply truthyNum_true; eauto).
  assert (El : truthyStr (Some newLabel) = true).
  { cbn. destruct (String.eqb newLabel "") eqn:E; [|reflexivity].
    now apply String.eqb_eq in E. }
  rewrite Ew, Eh, El. cbn -[getLabelColor].
  now destruct (getLabelColor BOUNDING_BOX_COLORS newLabel (labelColors st)).
Qed.

(** Drawing a rectangle: with the draw tool, a press at [p], a pointer move
    to [q] off [p] on both axes, and a release answered with a non-empty
    label append one box, after the existing ones: corner at the minima of
    [p] and [q], extents their absolute differences, the next UUID, the
    allocator's colour for the label, source [human-added].  The new box is
    selected and the draw tool stays active. *)
Theorem draw_rectangle_appends_box (st : State)
    (pressX pressY clientX clientY : Q) (p q : Coords) (newLabel : string) :
  interactionMode st = Draw ->
  getNormalizedCoords st pressX pressY = Some p ->
  getNormalizedCoords st clientX clientY = Some q ->
  ~ coords_x q == coords_x p -> ~ coords_y q == coords_y p ->
  newLabel <> "" ->
  let st' := release (handleMouseMove (handleMouseDown st pressX pressY) clientX clientY)
               (Some newLabel) in
  boxes st' =
    boxes st ++
    [mkBox (randomUUID (uuidsDrawn st)) newLabel
       (Qmin (coords_x q) (coords_x p)) (Qmin (coords_y q) (coords_y p))
       (Qabs (coords_x q - coords_x p)) (Qabs (coords_y q - coords_y p))
       (fst (getLabelColor BOUNDING_BOX_COLORS newLabel (labelColors st)))
       human_added] /\
  selectedBoxId st' = Some (randomUUID (uuidsDrawn st)) /\
  interactionMode st' = Draw.
Proof.
  intros Hmode Hp Hq Hx Hy Hl. cbn zeta.
  set (dragged := handleMouseMove (handleMouseDown st pressX pressY) clientX clientY).
  pose proof (draw_first_move st pressX pressY clientX clientY p q Hmode Hp Hq) as Hcdb.
  fold dragged in Hcdb.
  destruct (handleMouseDown_draw st pressX pressY Hmode) as (Hb0 & Hm0 & _).
  destruct (handleMouseDown_world st pressX pressY) as [Hc0 Hu0].
  destruct (handleMouseMoves_draw [(clientX, clientY)] _ Hm0) as [Hb1 Hm1].
  destruct (handleMouseMove_world (handleMouseDown st pressX pressY) clientX clientY)
    as [Hc1 Hu1].
  change (handleMouseMoves (handleMouseDown st pressX pressY) [(clientX, clientY)])
    with dragged in Hb1, Hm1.
  fold dragged in Hc1, Hu1.
  assert (Habs : forall a b : Q, ~ a == b -> ~ Qabs (a - b) == 0).
  { intros a b Hab E. apply Hab.
    revert E. apply Qabs_case; intros ? E; lra. }
  destruct (commitDrawing_commits dragged _ _ _ _ _ newLabel Hm1 Hcdb
              eq_refl eq_refl eq_refl eq_refl (Habs _ _ Hx) (Habs _ _ Hy) Hl)
    as (Hboxes & Hsel & _ & _).
  rewrite Hboxes, Hsel, Hb1, Hb0, Hu1, Hu0, Hc1, Hc0.
  repeat split.
  now apply handleMouseUp_draw_mode.
Qed.

(** The in-progress box of a draw gesture lies inside the image. *)
Definition drawnInside (cdb : InteractionState) : Prop :=
  exists x y w h,
    part_x_min cdb = Some x /\ part_y_min cdb = Some y /\
    part_width cdb = Some w /\ part_height cdb = Some h /\
    0 <= x /\ 0 <= y /\ 0 <= w /\ 0 <= h /\ x + w <= 1 /\ y + h <= 1.

Lemma span_inside (c x : Q) :
  0 <= c <= 1 -> 0 <= x <= 1 ->
  0 <= Qmin c x /\ 0 <= Qabs (c - x) /\ Qmin c x + Qabs (c - x) <= 1.
Proof.
  intros Hc Hx. split; [qcases|]. split; [apply Qabs_nonneg|].
  apply Qabs_case; intros ?; qcases.
Qed.

Lemma handleMouseMove_drawnInside (st : State) (clientX clientY : Q) :
  interactionMode st = Draw ->
  (forall cdb, currentDrawingBox st = Some cdb -> drawnInside cdb) ->
  forall cdb,
    currentDrawingBox (handleMouseMove st clientX clientY) = Some cdb -> drawnInside cdb.
Proof.
  intros Hmode Hinv. unfold handleMouseMove.
  destruct (getNormalizedCoords st clientX clientY) as [coords|] eqn:Hc; [|exact Hinv].
  destruct (currentDrawingBox st) as [cdb0|] eqn:Hcdb; [|now rewrite Hcdb].
  destruct (Hinv cdb0 eq_refl)
    as (x & y & w & h & Hx & Hy & Hw & Hh & ? & ? & ? & ? & ? & ?).
  destruct (getNormalizedCoords_unit _ _ _ _ Hc) as [Hcx Hcy].
  rewrite Hmode, Hx, Hy. cbn [currentDrawingBox setCurrentDrawingBox].
  intros cdb [= <-].
  destruct (span_inside (coords_x coords) x Hcx) as (? & ? & ?); [lra|].
  destruct (span_inside (coords_y coords) y Hcy) as (? & ? & ?); [lra|].
  eexists _, _, _, _. cbn. repeat (split; [reflexivity|]).
  repeat (split; [assumption|]). assumption.
Qed.

(** Whatever the pointer does during a draw gesture, a box the release
    commits lies inside the image and has positive extents: drawing keeps a
    valid box set valid. *)
Theorem draw_commits_only_valid_boxes (st : State) (pressX pressY : Q)
    (moves : list (Q * Q)) (answer : option string) :
  interactionMode st = Draw ->
  currentDrawingBox st = None ->
  Forall validBox (boxes st) ->
  Forall validBox
    (boxes (release (handleMouseMoves (handleMouseDown st pressX pressY) moves) answer)).
Proof.
  intros Hmode Hnone Hall.
  destruct (handleMouseDown_draw st pressX pressY Hmode) as (Hb0 & Hm0 & _ & _ & Hcdb0).
  cbn zeta in *.
  assert (Hinv0 : forall cdb,
             currentDrawingBox (handleMouseDown st pressX pressY) = Some cdb ->
             drawnInside cdb).
  { rewrite Hcdb0.
    destruct (getNormalizedCoords st pressX pressY) as [p|] eqn:Hp;
      [|rewrite Hnone; discriminate].
    destruct (getNormalizedCoords_unit _ _ _ _ Hp) as [Hpx Hpy].
    intros cdb [= <-]. exists (coords_x p), (coords_y p), 0, 0. cbn.
    repeat (split; [reflexivity|]). repeat split; lra. }
  assert (Hrun : forall (ms : list (Q * Q)) (s : State),
             interactionMode s = Draw ->
             (forall cdb, currentDrawingBox s = Some cdb -> drawnInside cdb) ->
             forall cdb, currentDrawingBox (handleMouseMoves s ms) = Some cdb ->
                         drawnInside cdb).
  { induction ms as [|m ms IH]; intros s Hs Hinv; [exact Hinv|].
    rewrite handleMouseMoves_cons. apply IH.
    - now destruct (handleMouseMove_spec s (fst m) (snd m)) as [(_ & -> & _) _].
    - now apply handleMouseMove_drawnInside. }
  specialize (Hrun moves _ Hm0 Hinv0).
  destruct (handleMouseMoves_draw moves _ Hm0) as [Hb1 Hm1].
  set (s := handleMouseMoves (handleMouseDown st pressX pressY) moves) in *.
  assert (Hold : Forall validBox (boxes s)) by (rewrite Hb1, Hb0; exact Hall).
  unfold handleMouseUp, commitDrawing. rewrite Hm1.
  destruct (currentDrawingBox s) as [cdb|] eqn:Hcdb; [|exact Hold].
  destruct (Hrun cdb eq_refl)
    as (x & y & w & h & Hx & Hy & Hw & Hh & ? & ? & ? & ? & ? & ?).
  rewrite Hx, Hy, Hw, Hh.
  destruct (truthyNum (Some w)) eqn:Ew; [|exact Hold].
  destruct (truthyNum (Some h)) eqn:Eh; [|exact Hold].
  cbn [andb]. destruct (truthyStr answer); [|exact Hold].
  apply truthyNum_true in Ew as (w' & [= <-] & Hw0).
  apply truthyNum_true in Eh as (h' & [= <-] & Hh0).
  destruct (getLabelColor BOUNDING_BOX_COLORS (default "" answer) (labelColors s))
    as [c colors'].
  cbn. apply Forall_app. split; [exact Hold|].
  constructor; [|constructor]. unfold validBox. cbn.
  assert (0 < w) by (destruct (Qlt_le_dec 0 w); [assumption | exfalso; apply Hw0; lra]).
  assert (0 < h) by (destruct (Qlt_le_dec 0 h); [assumption | exfalso; apply Hh0; lra]).
  repeat (split; [assumption|]). assumption.
Qed.

End Release.

(** *** Label edit, deletion, save *)

Section PanelHandlers.

Variable BOUNDING_BOX_COLORS : list string.

(** The callback of [prev.map] in [handleLabelChange], run over the list:
    [getLabelColor(newLabel)] is called once for every box that carries the
    selected id. *)
Fixpoint relabelSelected (sel : option string) (newLabel : string)
    (prev : list BoundingBox) (colors : ColorState) : list BoundingBox * ColorState :=
  match prev with
  | [] => ([], colors)
  | b :: rest =>
      if isSelectedBox sel b then
        let '(c, colors1) := getLabelColor BOUNDING_BOX_COLORS newLabel colors in
        let '(rest', colors2) := relabelSelected sel newLabel rest colors1 in
        (mkBox (box_id b) newLabel (x_min b) (y_min b) (width b) (height b) c
           human_edited :: rest',
         colors2)
      else
        let '(rest', colors2) := relabelSelected sel newLabel rest colors in
        (b :: rest', colors2)
  end.

(** [handleLabelChange(e)]; [newLabel] is [e.target.value]. *)
Definition handleLabelChange (st : State) (newLabel : string) : State :=
  if negb (truthyStr (selectedBoxId st)) then st
  else
    let '(bs, colors') :=
      relabelSelected (selectedBoxId st) newLabel (boxes st) (labelColors st) in
    setLabelColors colors' (setBoxes (fun _ => bs) st).

(** [handleDeleteSelected()]. *)
Definition handleDeleteSelected (st : State) : State :=
  if negb (truthyStr (selectedBoxId st)) then st
  else
    setSelectedBoxId None
      (setBoxes (List.filter (fun b => negb (isSelectedBox (selectedBoxId st) b))) st).

(** [({color, ...rest}) => rest]: a box without its display colour. *)
Definition stripColor (b : BoundingBox) : BoundingBox :=
  mkBox (box_id b) (label b) (x_min b) (y_min b) (width b) (height b) None (source b).

(** [handleSave()]: the annotations handed to [onSave] (the editor is closed
    afterwards). *)
Definition handleSave (st : State) : list BoundingBox := map stripColor (boxes st).

(** The box [handleLabelChange] writes for [b], with colour [c]. *)
Definition relabelled (newLabel : string) (c : option string) (b : BoundingBox)
  : BoundingBox :=
  mkBox (box_id b) newLabel (x_min b) (y_min b) (width b) (height b) c human_edited.

Lemma relabelSelected_spec (sel : option string) (newLabel : string)
    (c : option string) (prev : list BoundingBox) :
  forall colors : ColorState,
  labelColorMap colors !! newLabel = Some c ->
  relabelSelected sel newLabel prev colors =
    (map (fun b => if isSelectedBox sel b then relabelled newLabel c b else b) prev,
     colors).
Proof.
  induction prev as [|b rest IH]; intros colors Hc; [reflexivity|].
  cbn [relabelSelected map]. destruct (isSelectedBox sel b).
  - rewrite (getLabelColor_seen _ _ _ _ Hc), (IH colors Hc). reflexivity.
  - now rewrite (IH colors Hc).
Qed.

Lemma relabelSelected_result (sel : option string) (newLabel : string)
    (prev : list BoundingBox) :
  forall colors : ColorState,
  fst (relabelSelected sel newLabel prev colors) =
    map (fun b => if isSelectedBox sel b
                  then relabelled newLabel
                         (fst (getLabelColor BOUNDING_BOX_COLORS newLabel colors)) b
                  else b) prev /\
  (Exists (fun b => isSelectedBox sel b = true) prev ->
   labelColorMap (snd (relabelSelected sel newLabel prev colors)) !! newLabel
   = Some (fst (getLabelColor BOUNDING_BOX_COLORS newLabel colors))).
Proof.
  induction prev as [|b rest IH]; intros colors.
  - split; [reflexivity|]. intros H. inversion H.
  - cbn [relabelSelected map]. destruct (isSelectedBox sel b) eqn:E.
    + pose proof (getLabelColor_records BOUNDING_BOX_COLORS newLabel colors) as Hrec.
      destruct (getLabelColor BOUNDING_BOX_COLORS newLabel colors) as [c1 colors1].
      cbn [fst snd] in *.
      rewrite (relabelSelected_spec sel newLabel c1 rest colors1 Hrec).
      cbn [fst snd]. split; [reflexivity|]. intros _. exact Hrec.
    + destruct (IH colors) as [IH1 IH2].
      destruct (relabelSelected sel newLabel rest colors) as [rest' colors2].
      cbn [fst snd] in *. split; [now rewrite IH1|].
      intros H. apply IH2. inversion H; subst; [congruence | assumption].
Qed.

(** A label edit rewrites, in place, the boxes that carry the selected id:
    new label, source [human-edited], and one colour for all of them, the
    one the allocator gives the label; ids, geometry and the other boxes
    stay.  Afterwards the allocator holds that colour for the label. *)
Theorem handleLabelChange_relabels_selection (st : State) (newLabel : string) :
  truthyStr (selectedBoxId st) = true ->
  let c := fst (getLabelColor BOUNDING_BOX_COLORS newLabel (labelColors st)) in
  let st' := handleLabelChange st newLabel in
  boxes st' =
    map (fun b => if isSelectedBox (selectedBoxId st) b
                  then relabelled newLabel c b else b)
      (boxes st) /\
  selectedBoxId st' = selectedBoxId st /\
  (Exists (fun b => isSelectedBox (selectedBoxId st) b = true) (boxes st) ->
   labelColorMap (labelColors st') !! newLabel = Some c).
Proof.
  intros Hsel. cbn zeta. unfold handleLabelChange. rewrite Hsel. cbn [negb].
  destruct (relabelSelected_result (selectedBoxId st) newLabel (boxes st) (labelColors st))
    as [H1 H2].
  destruct (relabelSelected (selectedBoxId st) newLabel (boxes st) (labelColors st))
    as [bs colors'].
  cbn [fst snd] in *. cbn. rewrite H1. repeat split. exact H2.
Qed.

(** With unique ids, deleting the selection removes exactly the selected
    box: the boxes before and after it stay, in order, and nothing is
    selected afterwards. *)
Theorem handleDeleteSelected_removes_selected (st : State)
    (pre post : list BoundingBox) (sb : BoundingBox) :
  selectedBoxId st = Some (box_id sb) ->
  box_id sb <> "" ->
  boxes st = pre ++ sb :: post ->
  NoDup (map box_id (boxes st)) ->
  boxes (handleDeleteSelected st) = pre ++ post /\
  selectedBoxId (handleDeleteSelected st) = None.
Proof.
  intros Hsel Hid Hboxes Hnd. unfold handleDeleteSelected. rewrite Hsel.
  assert (Ht : truthyStr (Some (box_id sb)) = true).
  { cbn. destruct (String.eqb (box_id sb) "") eqn:E; [|reflexivity].
    now apply String.eqb_eq in E. }
  rewrite Ht. cbn [negb]. split; [|reflexivity]. cbn [boxes setBoxes setSelectedBoxId].
  assert (Hkeep : forall b, b ∈ boxes st -> b <> sb ->
                           negb (isSelectedBox (Some (box_id sb)) b) = true).
  { intros b Hb Hne. apply negb_true_iff.
    destruct (isSelectedBox (Some (box_id sb)) b) eqn:E; [|reflexivity].
    exfalso. apply Hne.
    assert (Hsb : sb ∈ boxes st) by (rewrite Hboxes; apply elem_of_app; right; left).
    pose proof (find_own_id _ _ Hnd Hsb) as Hfind.
    exact (selected_unique _ _ _ _ Hnd Hfind Hb E). }
  assert (Hnotin : (sb ∉ pre) /\ (sb ∉ post)).
  { rewrite Hboxes, map_app in Hnd. cbn in Hnd.
    apply NoDup_app in Hnd as (_ & Hdisj & Hnd2).
    apply NoDup_cons in Hnd2 as [Hpost _]. split.
    - intros Hin. apply (Hdisj (box_id sb)).
      + now apply list_elem_of_In, in_map, list_elem_of_In.
      + left.
    - intros Hin. apply Hpost. now apply list_elem_of_In, in_map, list_elem_of_In. }
  destruct Hnotin as [Hpre Hpost].
  assert (Hfilter : forall l, (forall b, b ∈ l -> b ∈ boxes st) -> sb ∉ l ->
                              List.filter
                                (fun b => negb (isSelectedBox (Some (box_id sb)) b)) l
                              = l).
  { induction l as [|a l IH]; intros Hsub Hno; [reflexivity|]. cbn [List.filter].
    rewrite Hkeep.
    - f_equal. apply IH.
      + intros b Hb. apply Hsub. now right.
      + intros Hin. apply Hno. now right.
    - apply Hsub. left.
    - intros ->. apply Hno. left. }
  rewrite Hboxes, List.filter_app. cbn [List.filter].
  rewrite isSelectedBox_self. cbn [negb].
  rewrite !Hfilter; auto.
  - intros b Hb. rewrite Hboxes. apply elem_of_app. right. now right.
  - intros b Hb. rewrite Hboxes. apply elem_of_app. now left.
Qed.

End PanelHandlers.

(** *** Pointer coordinates and layout *)

Lemma clamp01_low (x : Q) : x <= 0 -> Qmax 0 (Qmin 1 x) == 0.
Proof. intros H. qcases. Qed.

Lemma clamp01_high (x : Q) : 1 <= x -> Qmax 0 (Qmin 1 x) == 1.
Proof. intros H. qcases. Qed.

(** One axis of [getNormalizedCoords]: [lo] is where the image starts on the
    screen, [len] its rendered length. *)
Lemma normalize_axis (client lo len : Q) :
  0 < len ->
  let t := Qmax 0 (Qmin 1 ((client - lo) / len)) in
  (client <= lo -> t == 0) /\
  (lo + len <= client -> t == 1) /\
  (lo <= client <= lo + len -> t * len + lo == client).
Proof.
  intros Hlen. cbn zeta.
  assert (Hd : (client - lo) / len * len == client - lo) by (field; lra).
  set (d := (client - lo) / len) in *. clearbody d.
  split; [|split].
  - intros H. apply clamp01_low. nra.
  - intros H. apply clamp01_high. nra.
  - intros H. rewrite clamp01_id; [lra | split; nra].
Qed.

(** On a laid-out editor every pointer position is normalized: a pointer
    over the rendered image gets the fraction of the image it is at (the
    inverse of the display transform), a pointer before the image gets 0 and
    one past it gets 1, on each axis. *)
Theorem getNormalizedCoords_clamps_to_image (st : State) (svgRect : DOMRect)
    (clientX clientY : Q) :
  svgRef st = Some svgRect ->
  0 < renderedWidth (imageRenderSize st) ->
  0 < renderedHeight (imageRenderSize st) ->
  let size := imageRenderSize st in
  let x0 := left svgRect + offsetX size in
  let y0 := top svgRect + offsetY size in
  exists coords,
    getNormalizedCoords st clientX clientY = Some coords /\
    (clientX <= x0 -> coords_x coords == 0) /\
    (x0 + renderedWidth size <= clientX -> coords_x coords == 1) /\
    (x0 <= clientX <= x0 + renderedWidth size ->
     coords_x coords * renderedWidth size + offsetX size + left svgRect == clientX) /\
    (clientY <= y0 -> coords_y coords == 0) /\
    (y0 + renderedHeight size <= clientY -> coords_y coords == 1) /\
    (y0 <= clientY <= y0 + renderedHeight size ->
     coords_y coords * renderedHeight size + offsetY size + top svgRect == clientY).
Proof.
  intros Hsvg HW HH. cbn zeta. unfold getNormalizedCoords. rewrite Hsvg.
  destruct (Qeq_bool (renderedWidth (imageRenderSize st)) 0) eqn:E.
  { apply Qeq_bool_iff in E. rewrite E in HW. lra. }
  eexists. split; [reflexivity|]. cbn [coords_x coords_y].
  set (W := renderedWidth (imageRenderSize st)) in *.
  set (H := renderedHeight (imageRenderSize st)) in *.
  set (ox := offsetX (imageRenderSize st)). set (oy := offsetY (imageRenderSize st)).
  assert (Ex : (clientX - left svgRect - ox) / W == (clientX - (left svgRect + ox)) / W)
    by (field; lra).
  assert (Ey : (clientY - top svgRect - oy) / H == (clientY - (top svgRect + oy)) / H)
    by (field; lra).
  rewrite Ex, Ey.
  destruct (normalize_axis clientX (left svgRect + ox) W HW) as (X1 & X2 & X3).
  destruct (normalize_axis clientY (top svgRect + oy) H HH) as (Y1 & Y2 & Y3).
  repeat split; auto.
  - intros Hx. specialize (X3 Hx). lra.
  - intros Hy. specialize (Y3 Hy). lra.
Qed.

(** [updateRenderSize] letterboxes: for an image and an SVG element with
    positive sizes, the rendered rectangle keeps the aspect ratio of the
    image, fits in the element, fills it along one axis and is centred. *)
Theorem updateRenderSize_letterboxes (st : State) (img : HTMLImageElement)
    (svgRect : DOMRect) :
  imageRef st = Some img -> svgRef st = Some svgRect ->
  0 < naturalWidth img -> 0 < naturalHeight img ->
  0 < rect_width svgRect -> 0 < rect_height svgRect ->
  let size := imageRenderSize (updateRenderSize st) in
  renderedWidth size * naturalHeight img == renderedHeight size * naturalWidth img /\
  renderedWidth size <= rect_width svgRect /\
  renderedHeight size <= rect_height svgRect /\
  (renderedWidth size == rect_width svgRect \/
   renderedHeight size == rect_height svgRect) /\
  0 <= offsetX size /\ 0 <= offsetY size /\
  offsetX size + renderedWidth size + offsetX size == rect_width svgRect /\
  offsetY size + renderedHeight size + offsetY size == rect_height svgRect.
Proof.
  intros Himg Hsvg Hnw Hnh Hw Hh. cbn zeta.
  unfold updateRenderSize. rewrite Himg, Hsvg.
  set (nw := naturalWidth img) in *. set (nh := naturalHeight img) in *.
  set (sw := rect_width svgRect) in *. set (sh := rect_height svgRect) in *.
  assert (Ha : nw / nh * nh == nw) by (field; lra).
  assert (Hs : sw / sh * sh == sw) by (field; lra).
  pose proof (Qdiv_pos _ _ Hnw Hnh) as Hapos.
  set (a := nw / nh) in *. set (s := sw / sh) in *.
  destruct (Qltb s a) eqn:E; [apply Qltb_true in E | apply Qltb_false in E];
    cbn [imageRenderSize setImageRenderSize renderedWidth renderedHeight offsetX offsetY].
  - assert (Hr : sw / a * a == sw) by (field; lra).
    set (rh := sw / a) in *.
    assert (Eo1 : (sw - sw) / 2 == 0) by field.
    assert (Eo2 : (sh - rh) / 2 * 2 == sh - rh) by field.
    set (oy := (sh - rh) / 2) in *.
    assert (rh <= sh) by (clearbody a s rh oy; nra).
    rewrite Eo1. clearbody a s rh oy.
    repeat split; try lra; try nra.
  - assert (Eo1 : (sw - sh * a) / 2 * 2 == sw - sh * a) by field.
    assert (Eo2 : (sh - sh) / 2 == 0) by field.
    set (ox := (sw - sh * a) / 2) in *.
    rewrite Eo2. clearbody a s ox.
    assert (sh * a <= sw) by nra.
    repeat split; try lra; try nra.
Qed.

(** *** A session of manual editing *)

(** What the user does in the editor, assist apart.  A handle circle
    belongs to a box of the set, drawn selected, and is one of those
    [getHandlePositions] returns for it. *)
Inductive Event : Type :=
  | MouseDown (clientX clientY : Q)
  | CircleMouseDown (index : nat) (handle : ResizeHandle) (clientX clientY : Q)
  | MouseMove (clientX clientY : Q)
  | MouseUp (answer : option string)
  | SelectTool
  | DrawTool
  | LabelChange (newLabel : string)
  | DeleteSelected.

Section Session.

Variable BOUNDING_BOX_COLORS : list string.
Variable randomUUID : nat -> string.

(** The handler the render function has wired to the event. *)
Definition dispatch (st : State) (e : Event) : State :=
  match e with
  | MouseDown x y => handleMouseDown st x y
  | CircleMouseDown i handle x y =>
      match boxes st !! i with
      | Some box =>
          if isSelectedBox (selectedBoxId st) box
             && bool_decide
                  (handle ∈ map handle_id (getHandlePositions (imageRenderSize st) box))
          then handleCircleMouseDown st box handle x y
          else st
      | None => st
      end
  | MouseMove x y => handleMouseMove st x y
  | MouseUp answer => handleMouseUp BOUNDING_BOX_COLORS randomUUID st answer
  | SelectTool => clickSelectTool st
  | DrawTool => clickDrawTool st
  | LabelChange newLabel => handleLabelChange BOUNDING_BOX_COLORS st newLabel
  | DeleteSelected => handleDeleteSelected st
  end.

Definition session (st : State) (events : list Event) : State :=
  fold_left dispatch events st.

(** The in-progress object is a box inside the image, or carries no box
    fields at all (the anchor of a move). *)
Definition anchorOk (cdb : InteractionState) : Prop :=
  drawnInside cdb \/ (part_x_min cdb = None /\ part_width cdb = None).

(** What a session keeps: valid boxes with unique ids, none of which is a
    UUID the browser has yet to hand out, and a sound in-progress object. *)
Definition sessionInv (st : State) : Prop :=
  Forall validBox (boxes st) /\
  NoDup (map box_id (boxes st)) /\
  (forall b k, b ∈ boxes st -> (uuidsDrawn st <= k)%nat -> box_id b <> randomUUID k) /\
  (forall cdb, currentDrawingBox st = Some cdb -> anchorOk cdb).

Lemma handleMouseMove_anchor (st : State) (clientX clientY : Q) :
  currentDrawingBox (handleMouseMove st clientX clientY) = currentDrawingBox st \/
  exists coords cdb x y,
    getNormalizedCoords st clientX clientY = Some coords /\
    currentDrawingBox st = Some cdb /\
    part_x_min cdb = Some x /\ part_y_min cdb = Some y /\
    currentDrawingBox (handleMouseMove st clientX clientY) = Some (drawTo coords cdb x y).
Proof.
  unfold handleMouseMove, moveTo, resizeTo.
  destruct (getNormalizedCoords st clientX clientY) as [coords|]; auto.
  destruct (currentDrawingBox st) as [cdb|] eqn:Hcdb; auto.
  destruct (interactionMode st), (part_x_min cdb) eqn:Hx, (part_y_min cdb) eqn:Hy,
    (truthyStr (selectedBoxId st)), (startX cdb), (resizeHandle st);
    cbn; auto;
    repeat match goal with
           | |- context [List.find ?f ?l] => destruct (List.find f l)
           | |- context [boxInitialX ?c] => destruct (boxInitialX c)
           | |- context [boxInitialY ?c] => destruct (boxInitialY c)
           | |- context [decide ?P] => destruct (decide P)
           end; cbn; auto;
    right; eexists _, _, _, _; repeat split; eauto.
Qed.

Lemma drawTo_inside (coords : Coords) (cdb : InteractionState) (x y : Q) :
  0 <= coords_x coords <= 1 -> 0 <= coords_y coords <= 1 ->
  part_x_min cdb = Some x -> part_y_min cdb = Some y ->
  anchorOk cdb -> drawnInside (drawTo coords cdb x y).
Proof.
  intros Hcx Hcy Hx Hy [Hin | [Hno _]]; [|congruence].
  destruct Hin as (x' & y' & w & h & Hx' & Hy' & _ & _ & ? & ? & ? & ? & ? & ?).
  assert (x' = x) as -> by congruence. assert (y' = y) as -> by congruence.
  destruct (span_inside (coords_x coords) x Hcx) as (? & ? & ?); [lra|].
  destruct (span_inside (coords_y coords) y Hcy) as (? & ? & ?); [lra|].
  eexists _, _, _, _. cbn. repeat (split; [reflexivity|]).
  repeat (split; [assumption|]). assumption.
Qed.

Lemma editedFrom_ids (sel : option string) (bs bs' : list BoundingBox) :
  Forall2 (editedFrom sel) bs bs' -> map box_id bs' = map box_id bs.
Proof.
  induction 1 as [|b b' bs bs' (Hid & _) _ IH]; [reflexivity|]. cbn. now rewrite Hid, IH.
Qed.

Lemma ids_not_future (bs bs' : list BoundingBox) (n : nat) :
  map box_id bs' = map box_id bs ->
  (forall b k, b ∈ bs -> (n <= k)%nat -> box_id b <> randomUUID k) ->
  forall b k, b ∈ bs' -> (n <= k)%nat -> box_id b <> randomUUID k.
Proof.
  intros Hids Hold b k Hb Hk Heq.
  assert (Hin : box_id b ∈ map box_id bs).
  { rewrite <- Hids. now apply list_elem_of_In, in_map, list_elem_of_In. }
  apply list_elem_of_In, in_map_iff in Hin as (b0 & Hid0 & Hb0).
  apply list_elem_of_In in Hb0. apply (Hold b0 k Hb0 Hk). congruence.
Qed.

Lemma validBox_drawn (cdb : InteractionState) (bid l : string) (c : option string) :
  drawnInside cdb ->
  truthyNum (part_width cdb) && truthyNum (part_height cdb) = true ->
  validBox (mkBox bid l (asNumber (part_x_min cdb)) (asNumber (part_y_min cdb))
              (asNumber (part_width cdb)) (asNumber (part_height cdb)) c human_added).
Proof.
  intros (x & y & w & h & Hx & Hy & Hw & Hh & ? & ? & ? & ? & ? & ?) Ht.
  rewrite Hx, Hy, Hw, Hh in *. apply andb_true_iff in Ht as [Ew Eh].
  apply truthyNum_true in Ew as (w' & [= <-] & Hw0).
  apply truthyNum_true in Eh as (h' & [= <-] & Hh0).
  unfold validBox. cbn.
  assert (0 < w) by (destruct (Qlt_le_dec 0 w); [assumption | exfalso; apply Hw0; lra]).
  assert (0 < h) by (destruct (Qlt_le_dec 0 h); [assumption | exfalso; apply Hh0; lra]).
  repeat (split; [assumption|]). assumption.
Qed.

Hypothesis randomUUID_inj : forall m n, randomUUID m = randomUUID n -> m = n.

Ltac conj_lra := repeat match goal with |- _ /\ _ => split end; lra.

Lemma handleMouseDown_anchor (st : State) (clientX clientY : Q) :
  boxes (handleMouseDown st clientX clientY) = boxes st /\
  (currentDrawingBox (handleMouseDown st clientX clientY) = currentDrawingBox st \/
   exists cdb, currentDrawingBox (handleMouseDown st clientX clientY) = Some cdb /\
               anchorOk cdb).
Proof.
  unfold handleMouseDown.
  destruct (getNormalizedCoords st clientX clientY) as [coords|] eqn:Hc; [|auto].
  destruct (getNormalizedCoords_unit _ _ _ _ Hc) as [Hcx Hcy].
  destruct (interactionMode st); cbn;
    repeat match goal with
           | |- context [List.find ?f ?l] => destruct (List.find f l)
           | |- context [nearBottomRight ?a ?b ?c] => destruct (nearBottomRight a b c)
           end; cbn; (split; [reflexivity|]); auto;
    right; eexists; (split; [reflexivity|]).
  all: try (right; split; reflexivity).
  left. eexists _, _, _, _. cbn. repeat (split; [reflexivity|]). conj_lra.
Qed.

Lemma sessionInv_handleMouseDown (st : State) (clientX clientY : Q) :
  sessionInv st -> sessionInv (handleMouseDown st clientX clientY).
Proof.
  intros (Hv & Hnd & Hfut & Hcdb).
  destruct (handleMouseDown_anchor st clientX clientY) as [Hb Hc].
  destruct (handleMouseDown_world st clientX clientY) as [_ Hu].
  unfold sessionInv. rewrite Hb, Hu. repeat split; auto.
  intros cdb E. destruct Hc as [Hc | (cdb' & Hc & Hok)]; [|congruence].
  apply Hcdb. congruence.
Qed.

Lemma sessionInv_handleCircleMouseDown (st : State) (box : BoundingBox)
    (handle : ResizeHandle) (clientX clientY : Q) :
  box ∈ boxes st ->
  sessionInv st -> sessionInv (handleCircleMouseDown st box handle clientX clientY).
Proof.
  intros Hbox (Hv & Hnd & Hfut & Hcdb). unfold handleCircleMouseDown.
  destruct (getNormalizedCoords st clientX clientY); unfold sessionInv; cbn;
    repeat split; auto.
  intros cdb [= <-]. left.
  rewrite Forall_forall in Hv. destruct (Hv box Hbox) as (? & ? & ? & ? & ? & ?).
  eexists _, _, _, _. cbn. repeat (split; [reflexivity|]). conj_lra.
Qed.

Lemma sessionInv_handleMouseMove (st : State) (clientX clientY : Q) :
  sessionInv st -> sessionInv (handleMouseMove st clientX clientY).
Proof.
  intros (Hv & Hnd & Hfut & Hcdb).
  destruct (handleMouseMove_all_valid st clientX clientY Hv Hnd) as [Hv' Hnd'].
  destruct (handleMouseMove_world st clientX clientY) as [_ Hu].
  pose proof (editedFrom_ids _ _ _ (handleMouseMove_edits_in_place_lemma st clientX clientY))
    as Hids.
  unfold sessionInv. rewrite Hu. repeat split; auto.
  - now apply (ids_not_future (boxes st)).
  - intros cdb E.
    destruct (handleMouseMove_anchor st clientX clientY)
      as [Hc | (coords & cdb0 & x & y & Hcoords & Hcdb0 & Hx & Hy & Hc)].
    + apply Hcdb. congruence.
    + destruct (getNormalizedCoords_unit _ _ _ _ Hcoords) as [Hcx Hcy].
      rewrite Hc in E. injection E as <-. left.
      apply drawTo_inside; auto.
Qed.

Lemma sessionInv_handleMouseUp (st : State) (answer : option string) :
  sessionInv st -> sessionInv (handleMouseUp BOUNDING_BOX_COLORS randomUUID st answer).
Proof.
  intros (Hv & Hnd & Hfut & Hcdb).
  assert (Hcommit : sessionInv (commitDrawing BOUNDING_BOX_COLORS randomUUID st answer)).
  { pose proof (conj Hv (conj Hnd (conj Hfut Hcdb)) : sessionInv st) as Hinv.
    unfold commitDrawing.
    destruct (interactionMode st); try exact Hinv.
    destruct (currentDrawingBox st) as [cdb|] eqn:E; [|exact Hinv].
    destruct (truthyNum (part_width cdb) && truthyNum (part_height cdb)) eqn:Ht;
      [|exact Hinv].
    destruct (truthyStr answer); [|exact Hinv].
    destruct (getLabelColor BOUNDING_BOX_COLORS (default "" answer) (labelColors st))
      as [c colors'].
    assert (Hin : drawnInside cdb).
    { destruct (Hcdb cdb eq_refl) as [Hin | [_ Hw]]; [exact Hin|].
      rewrite Hw in Ht. discriminate. }
    unfold sessionInv. cbn. repeat split.
    - apply Forall_app. split; [exact Hv|]. constructor; [|constructor].
      now apply validBox_drawn.
    - rewrite map_app. cbn. apply NoDup_app. repeat split; [exact Hnd | |].
      + intros i Hi Hi'. apply list_elem_of_singleton in Hi'. subst i.
        apply list_elem_of_In, in_map_iff in Hi as (b0 & Hid0 & Hb0).
        apply list_elem_of_In in Hb0. exact (Hfut b0 _ Hb0 (le_n _) Hid0).
      + apply NoDup_singleton.
    - intros b k Hb Hk. apply elem_of_app in Hb as [Hb | Hb].
      + apply Hfut; [exact Hb | lia].
      + apply list_elem_of_singleton in Hb. subst b. cbn.
        intros Heq. apply randomUUID_inj in Heq. lia.
    - intros cdb' E'. rewrite E in E'. injection E' as <-. auto. }
  destruct Hcommit as (Hv' & Hnd' & Hfut' & _).
  unfold handleMouseUp. unfold sessionInv.
  destruct (interactionMode st); cbn; repeat split; auto; discriminate.
Qed.

Lemma sessionInv_handleLabelChange (st : State) (newLabel : string) :
  sessionInv st -> sessionInv (handleLabelChange BOUNDING_BOX_COLORS st newLabel).
Proof.
  intros Hinv. unfold handleLabelChange.
  destruct (negb (truthyStr (selectedBoxId st))); [exact Hinv|].
  destruct Hinv as (Hv & Hnd & Hfut & Hcdb).
  destruct (relabelSelected_result BOUNDING_BOX_COLORS (selectedBoxId st) newLabel
              (boxes st) (labelColors st)) as [H1 _].
  destruct (relabelSelected BOUNDING_BOX_COLORS (selectedBoxId st) newLabel (boxes st)
              (labelColors st)) as [bs colors'].
  cbn [fst] in H1. subst bs.
  set (c := fst (getLabelColor BOUNDING_BOX_COLORS newLabel (labelColors st))).
  assert (Hids : map box_id
                   (map (fun b => if isSelectedBox (selectedBoxId st) b
                                  then relabelled newLabel c b else b) (boxes st))
                 = map box_id (boxes st))
    by (apply update_ids; reflexivity).
  unfold sessionInv.
  cbn [boxes setBoxes setLabelColors currentDrawingBox uuidsDrawn]. repeat split.
  - apply Forall_update; [exact Hv|]. intros b Hb _.
    rewrite Forall_forall in Hv. exact (Hv b Hb).
  - now rewrite Hids.
  - now apply (ids_not_future (boxes st)).
  - exact Hcdb.
Qed.

Lemma sessionInv_handleDeleteSelected (st : State) :
  sessionInv st -> sessionInv (handleDeleteSelected st).
Proof.
  intros Hinv. unfold handleDeleteSelected.
  destruct (negb (truthyStr (selectedBoxId st))); [exact Hinv|].
  destruct Hinv as (Hv & Hnd & Hfut & Hcdb).
  set (keep := fun b => negb (isSelectedBox (selectedBoxId st) b)).
  unfold sessionInv.
  cbn [boxes setBoxes setSelectedBoxId currentDrawingBox uuidsDrawn]. fold keep.
  repeat split.
  - rewrite Forall_forall in *. intros b Hb. apply Hv.
    apply list_elem_of_In, List.filter_In in Hb as [Hb _]. now apply list_elem_of_In.
  - clear Hv Hfut Hcdb. induction (boxes st) as [|a l IH]; [constructor|].
    cbn in Hnd. apply NoDup_cons in Hnd as [Ha Hnd]. cbn.
    destruct (keep a); [|now apply IH]. cbn. apply NoDup_cons. split; [|now apply IH].
    intros Hin. apply Ha.
    apply list_elem_of_In, in_map_iff in Hin as (b0 & Hid0 & Hb0).
    apply List.filter_In in Hb0 as [Hb0 _]. rewrite <- Hid0.
    now apply list_elem_of_In, in_map.
  - intros b k Hb. apply Hfut.
    apply list_elem_of_In, List.filter_In in Hb as [Hb _]. now apply list_elem_of_In.
  - exact Hcdb.
Qed.

Lemma sessionInv_dispatch (st : State) (e : Event) :
  sessionInv st -> sessionInv (dispatch st e).
Proof.
  intros Hinv. destruct e; cbn [dispatch].
  - now apply sessionInv_handleMouseDown.
  - destruct (boxes st !! index) as [box|] eqn:E; [|exact Hinv].
    destruct (isSelectedBox _ box && _); [|exact Hinv].
    apply sessionInv_handleCircleMouseDown; [|exact Hinv].
    now apply list_elem_of_lookup_2 in E.
  - now apply sessionInv_handleMouseMove.
  - now apply sessionInv_handleMouseUp.
  - exact Hinv.
  - exact Hinv.
  - now apply sessionInv_handleLabelChange.
  - now apply sessionInv_handleDeleteSelected.
Qed.

(** Manual editing keeps the box set sound.  From a state whose boxes are
    valid and carry unique ids, none of them a UUID the browser has yet to
    hand out, any sequence of presses, handle presses, pointer moves,
    releases, tool changes, label edits and deletions leads to a state whose
    boxes are all valid and still carry unique ids, provided the browser
    never repeats a UUID. *)
Theorem manual_editing_keeps_boxes_sound (st : State) (events : list Event) :
  sessionInv st ->
  Forall validBox (boxes (session st events)) /\
  NoDup (map box_id (boxes (session st events))).
Proof.
  intros Hinv.
  assert (H : sessionInv (session st events)).
  { revert st Hinv. induction events as [|e events IH]; intros st Hinv; [exact Hinv|].
    cbn. apply IH. now apply sessionInv_dispatch. }
  destruct H as (Hv & Hnd & _). split; assumption.
Qed.

End Session.

(** An editor opened on valid annotations with unique ids, none of them a
    UUID yet to come, starts a session soundly. *)
Lemma sessionInv_mount (palette : list string) (randomUUID : nat -> string)
    (initialAnnotations : list BoundingBox) (img : option HTMLImageElement)
    (svg : option DOMRect) (colors : ColorState) (uuids : nat) :
  Forall validBox initialAnnotations ->
  NoDup (map box_id initialAnnotations) ->
  (forall b k, b ∈ initialAnnotations -> (uuids <= k)%nat -> box_id b <> randomUUID k) ->
  sessionInv randomUUID
    (updateRenderSize (mount palette initialAnnotations img svg colors uuids)).
Proof.
  intros Hv Hnd Hfut.
  pose proof (withColors_fields palette initialAnnotations colors) as Hf.
  assert (Hst : forall st : State,
             st = mount palette initialAnnotations img svg colors uuids ->
             sessionInv randomUUID st).
  { intros st ->. unfold mount.
    destruct (withColors palette initialAnnotations colors) as [bs colors'].
    cbn [fst] in Hf.
    assert (Hids : map box_id bs = map box_id initialAnnotations).
    { clear Hv Hnd Hfut. induction Hf as [|b b' l l' (Hid & _) _ IH]; [reflexivity|].
      cbn. now rewrite Hid, IH. }
    unfold sessionInv. cbn. repeat split.
    - clear Hnd Hfut Hids. induction Hf as [|b b' l l' Hb _ IH]; [constructor|].
      apply Forall_cons in Hv as [Hvb Hv]. constructor; [|now apply IH].
      destruct Hb as (_ & _ & _ & Hx & Hy & Hw & Hh).
      unfold validBox in *. now rewrite Hx, Hy, Hw, Hh.
    - now rewrite Hids.
    - now apply (ids_not_future randomUUID initialAnnotations).
    - discriminate. }
  specialize (Hst _ eq_refl).
  unfold updateRenderSize.
  destruct (imageRef _); [|exact Hst]. destruct (svgRef _); [|exact Hst].
  destruct (Qltb _ _); exact Hst.
Qed.

(** *** Scenarios for the further behaviour *)

(** Two overlapping stored boxes; [dogBox] is drawn on top. *)
Definition carBox : BoundingBox := mkBox "a" "car" 0.1 0.1 0.5 0.5 None gemini.
Definition dogBox : BoundingBox := mkBox "b" "dog" 0.3 0.3 0.5 0.5 None gemini.

Definition twoBoxEditor : State := openedEditor [carBox; dogBox].

(** A source of UUIDs that never repeats: [n] letters [u]. *)
Fixpoint tallyUUID (n : nat) : string :=
  match n with
  | O => "u"
  | S k => "u" +:+ tallyUUID k
  end.

Lemma tallyUUID_inj (m n : nat) : tallyUUID m = tallyUUID n -> m = n.
Proof.
  revert n. induction m as [|m IH]; intros [|n] H; cbn in H.
  - reflexivity.
  - destruct n; discriminate.
  - destruct m; discriminate.
  - f_equal. apply IH. now injection H.
Qed.

Lemma tallyUUID_head (n : nat) : exists rest, tallyUUID n = "u" +:+ rest.
Proof. destruct n; cbn; eauto. Qed.

(** A press at the normalized point (0.4, 0.4), inside both boxes, selects
    the one on top. *)
Lemma handleMouseDown_selects_topmost_witness :
  selectedBoxId (handleMouseDown twoBoxEditor 160 120) = Some "b" /\
  interactionMode (handleMouseDown twoBoxEditor 160 120) = Move.
Proof.
  assert (Hc : exists coords, getNormalizedCoords twoBoxEditor 160 120 = Some coords)
    by (eexists; vm_compute; reflexivity).
  destruct Hc as [coords Hc].
  assert (Hc' := Hc). vm_compute in Hc'. injection Hc' as <-.
  destruct (handleMouseDown_selects_topmost twoBoxEditor 160 120 _
              [coloured "#FF0000" carBox] [] (coloured "#00FF00" dogBox)
              ltac:(discriminate) Hc
              ltac:(intros sb H; discriminate H)
              eq_refl eq_refl ltac:(constructor))
    as (Hsel & Hmode & _).
  split; [exact Hsel | exact Hmode].
Defined.

(** A press at the normalized point (0.95, 0.95), outside both boxes. *)
Lemma handleMouseDown_outside_deselects_witness :
  selectedBoxId (handleMouseDown (handleMouseDown twoBoxEditor 160 120) 380 285) = None.
Proof.
  set (st := handleMouseDown twoBoxEditor 160 120).
  assert (Hc : exists coords, getNormalizedCoords st 380 285 = Some coords)
    by (eexists; vm_compute; reflexivity).
  destruct Hc as [coords Hc].
  assert (Hc' := Hc). vm_compute in Hc'. injection Hc' as <-.
  rewrite (handleMouseDown_outside_deselects st 380 285 _
             ltac:(discriminate) Hc
             ltac:(intros sb H; vm_compute in H; injection H as <-; reflexivity)
             ltac:(repeat constructor)).
  reflexivity.
Defined.

Ltac normalized_at st x y :=
  let coords := fresh "coords" in
  let H := fresh "Hcoords" in
  let H' := fresh in
  assert (exists coords, getNormalizedCoords st x y = Some coords) as [coords H]
    by (eexists; vm_compute; reflexivity);
  assert (H' := H); vm_compute in H'; injection H' as <-.

(** The top box, pressed at (0.4, 0.4) and dragged to (0.45, 0.5), lands at
    (0.35, 0.4). *)
Lemma drag_moves_box_by_pointer_delta_witness :
  exists b',
    List.find (isSelectedBox (Some "b"))
      (boxes (handleMouseMove (handleMouseDown twoBoxEditor 160 120) 180 150)) = Some b' /\
    x_min b' == 0.35 /\ y_min b' == 0.4 /\ width b' = 0.5 /\ height b' = 0.5 /\
    source b' = human_edited.
Proof.
  normalized_at twoBoxEditor 160 120.
  normalized_at twoBoxEditor 180 150.
  destruct (drag_moves_box_by_pointer_delta twoBoxEditor 160 120 180 150 _ _
              [coloured "#FF0000" carBox] [] (coloured "#00FF00" dogBox)
              ltac:(discriminate) Hcoords Hcoords0
              ltac:(intros sb H; discriminate H)
              eq_refl eq_refl ltac:(constructor)
              ltac:(repeat constructor; rewrite ?elem_of_cons, ?elem_of_nil;
                    intros H; repeat destruct H as [H | H]; discriminate || contradiction)
              ltac:(discriminate)
              ltac:(cbn; lra) ltac:(cbn; lra))
    as (b' & Hfind & Hx & Hy & Hw & Hh & Hs).
  exists b'. cbn in Hx, Hy.
  split; [exact Hfind|]. split; [rewrite Hx; reflexivity|].
  split; [rewrite Hy; reflexivity|]. auto.
Defined.

(** With the top box selected, a press on the SVG element close to its
    bottom-right corner (0.8, 0.8). *)
Lemma handleMouseDown_handle_press_is_inert_witness :
  let selected :=
    handleMouseUp scenePalette sceneUUID (handleMouseDown twoBoxEditor 160 120) None in
  let st' := handleMouseDown selected 322 238 in
  interactionMode st' = Resize /\
  boxes (handleMouseMoves st' [(360, 280); (200, 100)]) = boxes selected.
Proof.
  cbn zeta.
  set (selected := handleMouseUp scenePalette sceneUUID
                     (handleMouseDown twoBoxEditor 160 120) None).
  normalized_at selected 322 238.
  destruct (handleMouseDown_handle_press_is_inert selected 322 238 _
              (coloured "#00FF00" dogBox) [(360, 280); (200, 100)]
              ltac:(discriminate) eq_refl Hcoords eq_refl eq_refl)
    as (Hmode & _ & _ & Hmoves).
  split; [exact Hmode|]. rewrite Hmoves. reflexivity.
Defined.

(** The release that ends the drag of the witness above. *)
Lemma handleMouseUp_ends_gesture_witness :
  let dragged := handleMouseMove (handleMouseDown twoBoxEditor 160 120) 180 150 in
  let st' := handleMouseUp scenePalette sceneUUID dragged (Some "ignored") in
  interactionMode dragged = Move /\
  interactionMode st' = Select /\ currentDrawingBox st' = None /\
  boxes st' = boxes dragged /\ selectedBoxId st' = Some "b".
Proof.
  cbn zeta.
  set (dragged := handleMouseMove (handleMouseDown twoBoxEditor 160 120) 180 150).
  destruct (handleMouseUp_ends_gesture scenePalette sceneUUID dragged (Some "ignored"))
    as (Hcdb & _ & _ & Hother).
  destruct (Hother ltac:(discriminate)) as (Hmode & Hboxes & Hsel & _).
  split; [reflexivity|]. split; [exact Hmode|]. split; [exact Hcdb|].
  split; [exact Hboxes|]. rewrite Hsel. reflexivity.
Defined.

(** A rectangle drawn from (0.5, 0.5) up and left to (0.2, 0.3), labelled
    "cat", on the editor with two boxes. *)
Lemma draw_rectangle_appends_box_witness :
  let st := clickDrawTool twoBoxEditor in
  let st' := handleMouseUp scenePalette sceneUUID
               (handleMouseMove (handleMouseDown st 200 150) 80 90) (Some "cat") in
  exists newBox,
    boxes st' = boxes st ++ [newBox] /\
    box_id newBox = "uuid-0" /\ label newBox = "cat" /\ source newBox = human_added /\
    x_min newBox == 0.2 /\ y_min newBox == 0.3 /\
    width newBox == 0.3 /\ height newBox == 0.2 /\
    color newBox = Some "#0000FF" /\
    selectedBoxId st' = Some "uuid-0".
Proof.
  cbn zeta. set (st := clickDrawTool twoBoxEditor).
  normalized_at st 200 150.
  normalized_at st 80 90.
  destruct (draw_rectangle_appends_box scenePalette sceneUUID st 200 150 80 90 _ _ "cat"
              eq_refl Hcoords Hcoords0 ltac:(discriminate) ltac:(discriminate)
              ltac:(discriminate))
    as (Hboxes & Hsel & _).
  eexists. split; [exact Hboxes|]. cbn.
  repeat (split; [reflexivity|]). exact Hsel.
Defined.

(** A draw gesture that wanders out of the image on every side. *)
Lemma draw_commits_only_valid_boxes_witness :
  let st := clickDrawTool twoBoxEditor in
  Forall validBox (boxes st) /\
  Forall validBox
    (boxes (handleMouseUp scenePalette sceneUUID
              (handleMouseMoves (handleMouseDown st 200 150)
                 [(-50, 90); (900, -10); (120, 700)])
              (Some "cat"))) /\
  length (boxes (handleMouseUp scenePalette sceneUUID
                   (handleMouseMoves (handleMouseDown st 200 150)
                      [(-50, 90); (900, -10); (120, 700)])
                   (Some "cat"))) = 3%nat.
Proof.
  cbn zeta. set (st := clickDrawTool twoBoxEditor).
  assert (Hall : Forall validBox (boxes st)).
  { repeat constructor; cbn; lra. }
  split; [exact Hall|]. split; [|reflexivity].
  exact (draw_commits_only_valid_boxes scenePalette sceneUUID st 200 150
           [(-50, 90); (900, -10); (120, 700)] (Some "cat") eq_refl eq_refl Hall).
Defined.

(** The top box, selected, is renamed "cat": it takes the third colour of
    the palette and the box below keeps its own. *)
Lemma handleLabelChange_relabels_selection_witness :
  let selected :=
    handleMouseUp scenePalette sceneUUID (handleMouseDown twoBoxEditor 160 120) None in
  boxes (handleLabelChange scenePalette selected "cat") =
    [coloured "#FF0000" carBox;
     mkBox "b" "cat" 0.3 0.3 0.5 0.5 (Some "#0000FF") human_edited].
Proof.
  cbn zeta.
  set (selected := handleMouseUp scenePalette sceneUUID
                     (handleMouseDown twoBoxEditor 160 120) None).
  destruct (handleLabelChange_relabels_selection scenePalette selected "cat" eq_refl)
    as (Hboxes & _).
  rewrite Hboxes. reflexivity.
Defined.

(** The bottom box of three is selected and deleted. *)
Lemma handleDeleteSelected_removes_selected_witness :
  let st := setSelectedBoxId (Some "a") (openedEditor [dogBox; carBox; humanBox]) in
  map box_id (boxes (handleDeleteSelected st)) = ["b"; "h"] /\
  selectedBoxId (handleDeleteSelected st) = None.
Proof.
  cbn zeta.
  set (st := setSelectedBoxId (Some "a") (openedEditor [dogBox; carBox; humanBox])).
  destruct (handleDeleteSelected_removes_selected st
              [coloured "#FF0000" dogBox] [coloured "#00FF00" humanBox]
              (coloured "#00FF00" carBox)
              eq_refl ltac:(discriminate) eq_refl
              ltac:(repeat constructor; rewrite ?elem_of_cons, ?elem_of_nil;
                    intros H; repeat destruct H as [H | H]; discriminate || contradiction))
    as [Hboxes Hsel].
  rewrite Hboxes. split; [reflexivity | exact Hsel].
Defined.

(** A pointer above and to the left of the image, and one at its centre. *)
Lemma getNormalizedCoords_clamps_to_image_witness :
  exists outside inside,
    getNormalizedCoords twoBoxEditor (-20) (-5) = Some outside /\
    coords_x outside == 0 /\ coords_y outside == 0 /\
    getNormalizedCoords twoBoxEditor 200 150 = Some inside /\
    coords_x inside * renderedWidth (imageRenderSize twoBoxEditor) == 200.
Proof.
  assert (HW : 0 < renderedWidth (imageRenderSize twoBoxEditor)) by reflexivity.
  assert (HH : 0 < renderedHeight (imageRenderSize twoBoxEditor)) by reflexivity.
  destruct (getNormalizedCoords_clamps_to_image twoBoxEditor (mkRect 0 0 400 300)
              (-20) (-5) eq_refl HW HH)
    as (outside & Hout & Hx0 & _ & _ & Hy0 & _).
  destruct (getNormalizedCoords_clamps_to_image twoBoxEditor (mkRect 0 0 400 300)
              200 150 eq_refl HW HH)
    as (inside & Hin & _ & _ & Hx & _).
  exists outside, inside.
  split; [exact Hout|]. split; [apply Hx0; vm_compute; discriminate|].
  split; [apply Hy0; vm_compute; discriminate|]. split; [exact Hin|].
  assert (Hrange : left (mkRect 0 0 400 300) + offsetX (imageRenderSize twoBoxEditor) <= 200
                   <= left (mkRect 0 0 400 300) + offsetX (imageRenderSize twoBoxEditor)
                      + renderedWidth (imageRenderSize twoBoxEditor))
    by (split; discriminate).
  specialize (Hx Hrange).
  assert (Eo : offsetX (imageRenderSize twoBoxEditor) == 0) by reflexivity.
  cbn [left] in Hx. lra.
Defined.

(** A square image in a 400 by 300 element: rendered 300 by 300, with a
    margin of 50 on the left and on the right. *)
Lemma updateRenderSize_letterboxes_witness :
  let st := updateRenderSize
              (mount scenePalette [] (Some (mkImage 1000 1000))
                 (Some (mkRect 0 0 400 300)) ColorUtils.initial 0) in
  renderedWidth (imageRenderSize st) == 300 /\
  renderedHeight (imageRenderSize st) == 300 /\
  offsetX (imageRenderSize st) == 50 /\ offsetY (imageRenderSize st) == 0 /\
  renderedWidth (imageRenderSize st) <= 400.
Proof.
  cbn zeta.
  destruct (updateRenderSize_letterboxes
              (mount scenePalette [] (Some (mkImage 1000 1000))
                 (Some (mkRect 0 0 400 300)) ColorUtils.initial 0)
              (mkImage 1000 1000) (mkRect 0 0 400 300)
              eq_refl eq_refl eq_refl eq_refl eq_refl eq_refl)
    as (_ & Hfit & _).
  repeat (split; [reflexivity|]). exact Hfit.
Defined.

(** A session on the editor with two boxes: the top box is dragged out of
    the image, a rectangle is drawn and labelled, the new box is renamed and
    the selection deleted. *)
Lemma manual_editing_keeps_boxes_sound_witness :
  let events :=
    [MouseDown 160 120; MouseMove 5000 (-40); MouseUp None;
     DrawTool; MouseDown 200 150; MouseMove 80 900; MouseUp (Some "cat");
     LabelChange "dog"; SelectTool; MouseDown 60 60; DeleteSelected] in
  Forall validBox (boxes (session scenePalette tallyUUID twoBoxEditor events)) /\
  NoDup (map box_id (boxes (session scenePalette tallyUUID twoBoxEditor events))) /\
  map box_id (boxes (session scenePalette tallyUUID twoBoxEditor events)) = ["b"; "u"].
Proof.
  cbn zeta.
  assert (Hinv : sessionInv tallyUUID twoBoxEditor).
  { apply sessionInv_mount.
    - repeat constructor; cbn; lra.
    - repeat constructor; rewrite ?elem_of_cons, ?elem_of_nil;
        intros H; repeat destruct H as [H | H]; discriminate || contradiction.
    - intros b k Hb _. destruct (tallyUUID_head k) as [rest ->].
      rewrite !elem_of_cons, elem_of_nil in Hb.
      destruct Hb as [-> | [-> | []]]; discriminate. }
  destruct (manual_editing_keeps_boxes_sound scenePalette tallyUUID tallyUUID_inj
              twoBoxEditor
              [MouseDown 160 120; MouseMove 5000 (-40); MouseUp None;
               DrawTool; MouseDown 200 150; MouseMove 80 900; MouseUp (Some "cat");
               LabelChange "dog"; SelectTool; MouseDown 60 60; DeleteSelected]
              Hinv) as [Hv Hnd].
  split; [exact Hv|]. split; [exact Hnd | reflexivity].
Defined.

(** The round trip at the box (0.25, 0.25, 0.5, 0.5) of the opened editor. *)
Lemma display_roundtrip_witness :
  exists disp topLeft,
    toDisplayCoords (imageRenderSize (openedEditor []))
      (partialOfBox (interiorBox 0.25 0.25 0.5 0.5)) = Some disp /\
    getNormalizedCoords (openedEditor []) (disp_x disp + 0) (disp_y disp + 0)
      = Some topLeft /\
    coords_x topLeft == 0.25 /\ coords_y topLeft == 0.25.
Proof.
  destruct (display_roundtrip (openedEditor []) (mkRect 0 0 400 300)
              (interiorBox 0.25 0.25 0.5 0.5) eq_refl
              ltac:(vm_compute; discriminate) ltac:(vm_compute; discriminate)
              ltac:(vm_compute; discriminate) ltac:(vm_compute; discriminate)
              ltac:(vm_compute; discriminate) ltac:(vm_compute; discriminate)
              ltac:(vm_compute; discriminate) ltac:(vm_compute; discriminate)
              ltac:(vm_compute; discriminate) ltac:(vm_compute; discriminate)
              ltac:(vm_compute; discriminate) ltac:(vm_compute; discriminate))
    as (disp & topLeft & _ & Hdisp & Htl & _ & Hx & Hy & _).
  exists disp, topLeft. split; [exact Hdisp|]. split; [exact Htl|].
  split; [exact Hx | exact Hy].
Defined.

(** The box (0.1, 0.1, 0.2, 0.2) grabbed by its [se] handle, the pointer
    taken to the middle of the element. *)
Lemma resize_se_tracks_pointer_witness :
  let st := grabHandle (interiorBox 0.1 0.1 0.2 0.2) 80 60 handle_se 120 90 in
  exists coords sb',
    getNormalizedCoords st 200 150 = Some coords /\
    List.find (isSelectedBox (selectedBoxId st)) (boxes (handleMouseMove st 200 150))
      = Some sb' /\
    width sb' == Qmax 0.01 (coords_x coords - 0.1) /\
    height sb' == Qmax 0.01 (coords_y coords - 0.1).
Proof.
  cbn zeta.
  set (st := grabHandle (interiorBox 0.1 0.1 0.2 0.2) 80 60 handle_se 120 90).
  assert (Hcdb : exists cdb, currentDrawingBox st = Some cdb)
    by (eexists; vm_compute; reflexivity).
  assert (Hc : exists coords, getNormalizedCoords st 200 150 = Some coords)
    by (eexists; vm_compute; reflexivity).
  destruct Hcdb as [cdb Hcdb], Hc as [coords Hc].
  destruct (resize_se_tracks_pointer st 200 150 cdb coords
              (coloured "#FF0000" (interiorBox 0.1 0.1 0.2 0.2))
              eq_refl eq_refl eq_refl Hcdb Hc eq_refl
              ltac:(vm_compute; discriminate) ltac:(vm_compute; discriminate))
    as (sb' & Hfind & _ & _ & Hw & Hh).
  exists coords, sb'. split; [exact Hc|]. split; [exact Hfind|].
  split; [exact Hw | exact Hh].
Defined.

End Annotator.

(** ** The box overlay of the image grid ([components/BoundingBox.tsx]) *)

Module BoundingBoxView.

Import Annotator.

Local Open Scope Q_scope.

(** The rectangle the component draws for [box]: [x], [y], [w], [h]. *)
Definition rect (box : BoundingBox)
    (imageWidth imageHeight containerWidth containerHeight : Q) : DisplayRect :=
  let imageAspectRatio := imageWidth / imageHeight in
  let containerAspectRatio := containerWidth / containerHeight in
  let displayScaleFactor :=
    if Qltb containerAspectRatio imageAspectRatio
    then containerWidth / imageWidth
    else containerHeight / imageHeight in
  let displayedImageWidth := imageWidth * displayScaleFactor in
  let displayedImageHeight := imageHeight * displayScaleFactor in
  let offsetX := (containerWidth - displayedImageWidth) / 2 in
  let offsetY := (containerHeight - displayedImageHeight) / 2 in
  mkDisplay (x_min box * displayedImageWidth + offsetX)
    (y_min box * displayedImageHeight + offsetY)
    (width box * displayedImageWidth)
    (height box * displayedImageHeight).

(** [labelText]: the label, hidden when the drawn box is tiny. *)
Definition labelText (box : BoundingBox)
    (imageWidth imageHeight containerWidth containerHeight : Q) : string :=
  let r := rect box imageWidth imageHeight containerWidth containerHeight in
  if Qltb (disp_width r) 30 || Qltb (disp_height r) 20 then "" else label box.

(** The grid and the editor place a box alike: for an image and a
    container with positive sizes, the rectangle of the grid overlay is the
    one [toDisplayCoords] returns in an editor laid out on the same image and
    container, whenever the editor displays the box at all. *)
Theorem rect_agrees_with_editor (st : State) (img : HTMLImageElement)
    (svgRect : DOMRect) (box : BoundingBox) (shown : DisplayRect) :
  imageRef st = Some img -> svgRef st = Some svgRect ->
  0 < naturalWidth img -> 0 < naturalHeight img ->
  0 < rect_width svgRect -> 0 < rect_height svgRect ->
  toDisplayCoords (imageRenderSize (updateRenderSize st)) (partialOfBox box)
    = Some shown ->
  let r := rect box (naturalWidth img) (naturalHeight img)
             (rect_width svgRect) (rect_height svgRect) in
  disp_x r == disp_x shown /\ disp_y r == disp_y shown /\
  disp_width r == disp_width shown /\ disp_height r == disp_height shown.
Proof.
  intros Himg Hsvg Hnw Hnh Hw Hh Hshown. cbn zeta.
  unfold toDisplayCoords in Hshown.
  destruct (_ || _) in Hshown; [discriminate|]. injection Hshown as <-.
  cbn [disp_x disp_y disp_width disp_height partialOfBox part_x_min part_y_min
       part_width part_height asNumber default from_option id].
  unfold updateRenderSize, rect. rewrite Himg, Hsvg.
  set (nw := naturalWidth img) in *. set (nh := naturalHeight img) in *.
  set (sw := rect_width svgRect) in *. set (sh := rect_height svgRect) in *.
  destruct (Qltb (sw / sh) (nw / nh));
    cbn [imageRenderSize setImageRenderSize renderedWidth renderedHeight offsetX
         offsetY disp_x disp_y disp_width disp_height];
    repeat split; field; lra.
Qed.

(** The box at the left edge of an 800 by 600 image, which the editor does
    not display, is drawn by the grid at the left edge of the container. *)
Example rect_draws_left_edge_box :
  toDisplayCoords (imageRenderSize (openedEditor [leftEdgeBox]))
    (partialOfBox leftEdgeBox) = None /\
  disp_x (rect leftEdgeBox 800 600 400 300) == 0 /\
  disp_y (rect leftEdgeBox 800 600 400 300) == 75 /\
  disp_width (rect leftEdgeBox 800 600 400 300) == 200 /\
  disp_height (rect leftEdgeBox 800 600 400 300) == 150.
Proof. repeat split. Qed.

(** The interior box of the display scenario, in the same editor. *)
Lemma rect_agrees_with_editor_witness :
  exists shown,
    toDisplayCoords (imageRenderSize (openedEditor []))
      (partialOfBox (interiorBox 0.25 0.25 0.5 0.5)) = Some shown /\
    disp_x (rect (interiorBox 0.25 0.25 0.5 0.5) 800 600 400 300) == disp_x shown /\
    disp_width (rect (interiorBox 0.25 0.25 0.5 0.5) 800 600 400 300) == disp_width shown.
Proof.
  set (st0 := mount scenePalette [] (Some (mkImage 800 600)) (Some (mkRect 0 0 400 300))
                ColorUtils.initial 0).
  assert (Hs : exists shown,
             toDisplayCoords (imageRenderSize (updateRenderSize st0))
               (partialOfBox (interiorBox 0.25 0.25 0.5 0.5)) = Some shown)
    by (eexists; vm_compute; reflexivity).
  destruct Hs as [shown Hs]. exists shown. split; [exact Hs|].
  destruct (rect_agrees_with_editor st0 (mkImage 800 600) (mkRect 0 0 400 300)
              (interiorBox 0.25 0.25 0.5 0.5) shown
              eq_refl eq_refl eq_refl eq_refl eq_refl eq_refl Hs)
    as (Hx & _ & Hw & _).
  split; [exact Hx | exact Hw].
Defined.

End BoundingBoxView.

(** ** Detection and the validation of replies ([services/geminiService]) *)

Module Detection.

Import GeminiService.

(** [UploadedImage], without the [File] and the data URL, which are only
    handed to the browser. *)
Record UploadedImage := mkImage {
  image_id : string;
  image_name : string;
  image_naturalWidth : Q;
  image_naturalHeight : Q
}.

(** [ProcessedImageResult]. *)
Record ProcessedImageResult := mkResult {
  imageId : string;
  originalFileName : string;
  originalWidth : Q;
  originalHeight : Q;
  resultBoxes : list BoundingBox
}.

Section Service.

Variable ai : bool.
Variable randomUUID : nat -> string.

(** Messages of the [TypeError]s for a property of [null] and of
    [undefined], and the text of the template literal of the count-mismatch
    error, given the parsed reply and the number of images. *)
Variable nullPropertyMessage : string.
Variable undefinedPropertyMessage : string.
Variable mismatchMessage : JsValue -> nat -> string.

(** [boxesFromApi.forEach(b => ...)] of the detection: as for the assist
    call, with the source [gemini]. *)
Fixpoint validateDetectedBoxes (raw : list JsValue) (validatedBoxes : list BoundingBox)
    (n : nat) : (Thrown + list BoundingBox) * nat :=
  match raw with
  | [] => (inr validatedBoxes, n)
  | b :: rest =>
      match validBoxFields nullPropertyMessage b with
      | inl e => (inl e, n)
      | inr (Some (l, x, y, w, h)) =>
          validateDetectedBoxes rest
            (validatedBoxes ++ [mkBox (randomUUID n) l x y w h (payloadColor b) gemini])
            (S n)
      | inr None => validateDetectedBoxes rest validatedBoxes n
      end
  end.

(** [resultsPerImageRaw.map((boxesFromApi, index) => ...)], from [index]
    on. *)
Fixpoint resultsFrom (uploadedImages : list UploadedImage) (raws : list JsValue)
    (index n : nat) : (Thrown + list ProcessedImageResult) * nat :=
  match raws with
  | [] => (inr [], n)
  | boxesFromApi :: rest =>
      let validated :=
        match boxesFromApi with
        | JArr items => validateDetectedBoxes items [] n
        | _ => (inr [], n)
        end in
      match validated with
      | (inl e, n1) => (inl e, n1)
      | (inr validatedBoxes, n1) =>
          match uploadedImages !! index with
          | None => (inl (ThrownError undefinedPropertyMessage), n1)
          | Some originalImage =>
              match resultsFrom uploadedImages rest (S index) n1 with
              | (inl e, n2) => (inl e, n2)
              | (inr results, n2) =>
                  (inr (mkResult (image_id originalImage) (image_name originalImage)
                          (image_naturalWidth originalImage)
                          (image_naturalHeight originalImage) validatedBoxes
                        :: results),
                   n2)
              end
          end
      end
  end.

(** The body of the [try] block of [generateBoundingBoxesForImages]. *)
Definition detectTry (uploadedImages : list UploadedImage) (run : RemoteRun) (n : nat)
  : (Thrown + list ProcessedImageResult) * nat :=
  match run with
  | FileReadRejects e => (inl e, n)
  | GenerateContentRejects e => (inl e, n)
  | GenerateContentResolves r =>
      match parseGeminiJsonResponse r with
      | inl e => (inl e, n)
      | inr (JArr resultsPerImageRaw) =>
          if (length resultsPerImageRaw =? length uploadedImages)%nat
          then resultsFrom uploadedImages resultsPerImageRaw 0 n
          else (inl (ThrownError
                       (mismatchMessage (JArr resultsPerImageRaw) (length uploadedImages))),
                n)
      | inr JNull => (inl (ThrownError nullPropertyMessage), n)
      | inr other =>
          (inl (ThrownError (mismatchMessage other (length uploadedImages))), n)
      end
  end.

(** The [catch] block: the message of the [Error] it throws. *)
Definition detectCatch (error : Thrown) : string :=
  let errorMessage :=
    match error with
    | ThrownError m => m
    | ThrownOther => "Failed to generate bounding boxes."
    end in
  match error with
  | ThrownError m =>
      if includes m "API key not valid" then
        "Invalid Gemini API Key. Please check your configuration."
      else if includes m "resource has been exhausted" || includes m "Quota exceeded" then
        "Gemini API quota exceeded. Please try again later."
      else errorMessage
  | ThrownOther => errorMessage
  end.

(** [generateBoundingBoxesForImages(uploadedImages, userPrompt)]: [inl
    message] when the promise rejects, [inr results] when it resolves, and
    the number of UUIDs drawn so far.  The prompt only goes into the request,
    whose effect is [run]. *)
Definition generateBoundingBoxesForImages (uploadedImages : list UploadedImage)
    (run : RemoteRun) (n : nat) : (string + list ProcessedImageResult) * nat :=
  if negb ai then
    (inl "Gemini API client is not initialized. API_KEY might be missing.", n)
  else if (length uploadedImages =? 0)%nat then (inr [], n)
  else
    match detectTry uploadedImages run n with
    | (inr results, n') => (inr results, n')
    | (inl error, n') => (inl (detectCatch error), n')
    end.

(** *** Validation of the assist reply *)

Lemma validBoxFields_throws (b : JsValue) :
  (exists e, validBoxFields nullPropertyMessage b = inl e) <-> b = JNull.
Proof.
  split.
  - intros [e H]. destruct b; try reflexivity; discriminate.
  - intros ->. cbn. eauto.
Qed.

Lemma validateNewBoxes_success (raw : list JsValue) :
  forall (validated out : list BoundingBox) (n n' : nat),
  validateNewBoxes randomUUID nullPropertyMessage raw validated n = (inr out, n') ->
  exists new,
    out = validated ++ new /\
    map box_id new = map randomUUID (seq n (length new)) /\
    n' = (n + length new)%nat /\
    Forall (fun b => source b = gemini_assisted) new /\
    (length new <= length raw)%nat /\
    JNull ∉ raw.
Proof.
  induction raw as [|b rest IH]; intros validated out n n' H; cbn in H.
  - injection H as <- <-. exists []. rewrite app_nil_r. cbn.
    split; [reflexivity|]. split; [reflexivity|]. split; [lia|].
    split; [constructor|]. split; [lia | apply not_elem_of_nil].
  - destruct (validBoxFields nullPropertyMessage b) as [e | [[[[[l x] y] w] h]|]] eqn:E;
      [discriminate| |].
    + apply IH in H as (new & -> & Hids & -> & Hsrc & Hlen & Hnull).
      eexists (_ :: new). rewrite <- app_assoc. cbn.
      split; [reflexivity|]. split; [now rewrite Hids|]. split; [lia|].
      split; [constructor; [reflexivity | exact Hsrc]|]. split; [lia|].
      rewrite not_elem_of_cons. split; [|exact Hnull].
      intros <-. discriminate.
    + apply IH in H as (new & -> & Hids & -> & Hsrc & Hlen & Hnull).
      exists new. split; [reflexivity|]. split; [exact Hids|]. split; [reflexivity|].
      split; [exact Hsrc|]. split; [cbn; lia|].
      rewrite not_elem_of_cons. split; [|exact Hnull].
      intros <-. discriminate.
Qed.

Lemma validateNewBoxes_failure (raw : list JsValue) :
  forall (validated : list BoundingBox) (n n' : nat) (e : Thrown),
  validateNewBoxes randomUUID nullPropertyMessage raw validated n = (inl e, n') ->
  JNull ∈ raw.
Proof.
  induction raw as [|b rest IH]; intros validated n n' e H; cbn in H; [discriminate|].
  destruct (validBoxFields nullPropertyMessage b) as [e' | [[[[[l x] y] w] h]|]] eqn:E.
  - assert (b = JNull) as -> by (apply validBoxFields_throws; eauto). left.
  - right. eapply IH, H.
  - right. eapply IH, H.
Qed.

(** What an assist call that resolves returns: boxes that carry, in order,
    the UUIDs the browser handed out during the call, one per box and no
    other, and the source [gemini-assisted]; never more boxes than the reply
    has entries. *)
Theorem generateAssistedAnnotations_resolved (run : RemoteRun) (n n' : nat)
    (validatedNewBoxes : list BoundingBox) :
  generateAssistedAnnotations ai randomUUID nullPropertyMessage run n
    = (inr validatedNewBoxes, n') ->
  map box_id validatedNewBoxes = map randomUUID (seq n (length validatedNewBoxes)) /\
  n' = (n + length validatedNewBoxes)%nat /\
  Forall (fun b => source b = gemini_assisted) validatedNewBoxes /\
  (forall r items, run = GenerateContentResolves r -> parsed r = Some (JArr items) ->
                   (length validatedNewBoxes <= length items)%nat).
Proof.
  unfold generateAssistedAnnotations. destruct ai; cbn [negb]; [|discriminate].
  destruct (assistTry randomUUID nullPropertyMessage run n) as [[e|out] m] eqn:Htry;
    [discriminate|].
  intros [= <- <-]. unfold assistTry in Htry.
  destruct run as [e | e | r]; try discriminate.
  unfold parseGeminiJsonResponse in Htry.
  destruct (parsed r) as [v|] eqn:Hp; [|discriminate].
  destruct v as [| | | | items |];
    try (injection Htry as <- <-; cbn; repeat split; auto; try lia;
         intros r' items' [= <-] Hp'; cbn; lia).
  apply validateNewBoxes_success in Htry as (new & -> & Hids & -> & Hsrc & Hlen & _).
  cbn [app]. repeat split; auto.
  intros r' items' [= <-] Hp'. rewrite Hp in Hp'. now injection Hp' as <-.
Qed.

(** A parsed reply makes the assist call fail exactly when it is an array
    with a [null] entry; in every other case (an array of entries, well
    formed or not, or a value that is not an array) the call resolves. *)
Theorem generateAssistedAnnotations_fails_on_null_entry (r : GenerateContentResponse)
    (v : JsValue) (n : nat) :
  ai = true ->
  parsed r = Some v ->
  (exists message,
      fst (generateAssistedAnnotations ai randomUUID nullPropertyMessage
             (GenerateContentResolves r) n) = inl message) <->
  (exists items, v = JArr items /\ JNull ∈ items).
Proof.
  intros Hai Hp. unfold generateAssistedAnnotations, assistTry, parseGeminiJsonResponse.
  rewrite Hai, Hp. cbn [negb].
  destruct v as [| | | | items |];
    try (split; [intros [m H]; discriminate | intros (items & H & _); discriminate]).
  split.
  - intros [m H]. exists items. split; [reflexivity|].
    destruct (validateNewBoxes randomUUID nullPropertyMessage items [] n)
      as [[e|out] n'] eqn:E; [|discriminate].
    exact (validateNewBoxes_failure _ _ _ _ _ E).
  - intros (items' & [= <-] & Hin).
    destruct (validateNewBoxes randomUUID nullPropertyMessage items [] n)
      as [[e|out] n'] eqn:E; [cbn; eauto|].
    apply validateNewBoxes_success in E as (_ & _ & _ & _ & _ & _ & Hnot).
    contradiction.
Qed.

(** *** Detection *)

(** The result [r] belongs to the image [im]. *)
Definition resultOf (im : UploadedImage) (r : ProcessedImageResult) : Prop :=
  imageId r = image_id im /\ originalFileName r = image_name im /\
  originalWidth r = image_naturalWidth im /\ originalHeight r = image_naturalHeight im.

Lemma validateDetectedBoxes_success (raw : list JsValue) :
  forall (validated out : list BoundingBox) (n n' : nat),
  validateDetectedBoxes raw validated n = (inr out, n') ->
  Forall (fun b => source b = gemini) validated ->
  Forall (fun b => source b = gemini) out.
Proof.
  induction raw as [|b rest IH]; intros validated out n n' H Hsrc; cbn in H.
  - now injection H as <- <-.
  - destruct (validBoxFields nullPropertyMessage b) as [e | [[[[[l x] y] w] h]|]];
      [discriminate| |].
    + apply IH in H; [exact H|]. apply Forall_app. split; [exact Hsrc|].
      constructor; [reflexivity | constructor].
    + now apply IH in H.
Qed.

Lemma resultsFrom_success (uploadedImages : list UploadedImage) (raws : list JsValue) :
  forall (index n n' : nat) (results : list ProcessedImageResult),
  resultsFrom uploadedImages raws index n = (inr results, n') ->
  Forall2 resultOf (take (length raws) (drop index uploadedImages)) results /\
  (length raws <= length (drop index uploadedImages))%nat /\
  Forall (fun r => Forall (fun b => source b = gemini) (resultBoxes r)) results.
Proof.
  induction raws as [|raw rest IH]; intros index n n' results H; cbn in H.
  - injection H as <- <-. cbn. repeat split; [constructor | lia | constructor].
  - set (validated := match raw with
                      | JArr items => validateDetectedBoxes items [] n
                      | _ => (inr [], n)
                      end) in *.
    assert (Hsrc : forall bs m, validated = (inr bs, m) ->
                                Forall (fun b => source b = gemini) bs).
    { intros bs m E. unfold validated in E.
      destruct raw; try (injection E as <- <-; constructor).
      eapply validateDetectedBoxes_success; [exact E | constructor]. }
    destruct validated as [[e|bs] n1] eqn:Ev; [discriminate|].
    destruct (uploadedImages !! index) as [im|] eqn:Him; [|discriminate].
    destruct (resultsFrom uploadedImages rest (S index) n1) as [[e|rs] n2] eqn:Er;
      [discriminate|].
    injection H as <- <-.
    destruct (IH _ _ _ _ Er) as (Hal & Hlen & Hs).
    rewrite (drop_S _ _ _ Him). cbn. split; [|split].
    + constructor; [repeat split | exact Hal].
    + lia.
    + constructor; [cbn; now apply (Hsrc bs n1) | exact Hs].
Qed.

Lemma generateBoundingBoxesForImages_resolved (uploadedImages : list UploadedImage)
    (run : RemoteRun) (n n' : nat) (results : list ProcessedImageResult) :
  generateBoundingBoxesForImages uploadedImages run n = (inr results, n') ->
  Forall2 resultOf uploadedImages results /\
  Forall (fun r => Forall (fun b => source b = gemini) (resultBoxes r)) results.
Proof.
  unfold generateBoundingBoxesForImages.
  destruct ai; cbn [negb]; [|discriminate].
  destruct (length uploadedImages =? 0)%nat eqn:E0.
  - intros [= <- <-]. apply Nat.eqb_eq in E0.
    destruct uploadedImages; [|discriminate]. split; constructor.
  - destruct (detectTry uploadedImages run n) as [[e|rs] m] eqn:Htry; [discriminate|].
    intros [= <- <-]. unfold detectTry in Htry.
    destruct run as [e | e | r]; try discriminate.
    destruct (parseGeminiJsonResponse r) as [e|v]; [discriminate|].
    destruct v as [| | | | items |]; try discriminate.
    destruct (length items =? length uploadedImages)%nat eqn:El; [|discriminate].
    apply Nat.eqb_eq in El.
    apply resultsFrom_success in Htry as (Hal & _ & Hs).
    rewrite drop_0, El, firstn_all in Hal. split; assumption.
Qed.

(** The contract of the detection.  When the call resolves, it returns one
    result per image, in the order of the images, each carrying the id, the
    name and the size of its image, and every box it returns has the source
    [gemini].  When the reply parses to anything but an array with exactly
    one entry per image, the call fails: no result is returned for any
    image. *)
Theorem generateBoundingBoxesForImages_contract (uploadedImages : list UploadedImage)
    (run : RemoteRun) (n : nat) :
  (forall results n',
      generateBoundingBoxesForImages uploadedImages run n = (inr results, n') ->
      Forall2 resultOf uploadedImages results /\
      Forall (fun r => Forall (fun b => source b = gemini) (resultBoxes r)) results) /\
  (forall r v,
      ai = true -> uploadedImages <> [] ->
      run = GenerateContentResolves r -> parsed r = Some v ->
      (forall items, v = JArr items -> length items <> length uploadedImages) ->
      exists message,
        fst (generateBoundingBoxesForImages uploadedImages run n) = inl message).
Proof.
  split.
  - intros results n'. apply generateBoundingBoxesForImages_resolved.
  - intros r v Hai Hne -> Hp Hmis. unfold generateBoundingBoxesForImages.
    rewrite Hai. cbn [negb].
    destruct uploadedImages as [|im ims]; [contradiction|]. cbn [length Nat.eqb].
    unfold detectTry, parseGeminiJsonResponse. rewrite Hp.
    destruct v as [| | | | items |]; cbn; eauto.
    destruct (length items =? S (length ims))%nat eqn:El; [|cbn; eauto].
    apply Nat.eqb_eq in El. exfalso. exact (Hmis items eq_refl El).
Qed.

End Service.

(** Two images and a reply with one entry too few; then a reply with an
    entry per image, the second of which is not an array. *)
Definition twoImages : list UploadedImage :=
  [mkImage "img-1" "street.jpg" 800 600; mkImage "img-2" "park.png" 640 480].

Definition carEntry : JsValue :=
  JObj [("label", JStr "car"); ("x_min", JNum 0.2); ("y_min", JNum 0.2);
        ("width", JNum 0.4); ("height", JNum 0.4)].

Definition numberedUUID (n : nat) : string :=
  match n with
  | O => "uuid-0"
  | 1%nat => "uuid-1"
  | _ => "uuid-2"
  end.

Definition noMessage (_ : JsValue) (_ : nat) : string := "unexpected number of results".

Lemma generateBoundingBoxesForImages_contract_witness :
  (exists message,
      fst (generateBoundingBoxesForImages true numberedUUID "" "" noMessage twoImages
             (GenerateContentResolves (mkResponse "[[...]]" (Some (JArr [JArr [carEntry]]))))
             0) = inl message) /\
  (exists results,
      fst (generateBoundingBoxesForImages true numberedUUID "" "" noMessage twoImages
             (GenerateContentResolves
                (mkResponse "[[...], 3]" (Some (JArr [JArr [carEntry; JStr "?"]; JNum 3]))))
             0) = inr results /\
      map imageId results = ["img-1"; "img-2"] /\
      map (fun r => length (resultBoxes r)) results = [1%nat; 0%nat]).
Proof.
  split.
  - apply (proj2 (generateBoundingBoxesForImages_contract true numberedUUID "" ""
                    noMessage twoImages _ 0)
             (mkResponse "[[...]]" (Some (JArr [JArr [carEntry]])))
             (JArr [JArr [carEntry]]) eq_refl ltac:(discriminate) eq_refl eq_refl).
    intros items [= <-]. discriminate.
  - eexists. split; [vm_compute; reflexivity|].
    destruct (proj1 (generateBoundingBoxesForImages_contract true numberedUUID "" ""
                       noMessage twoImages
                       (GenerateContentResolves
                          (mkResponse "[[...], 3]"
                             (Some (JArr [JArr [carEntry; JStr "?"]; JNum 3])))) 0)
                _ _ eq_refl) as [_ _].
    split; reflexivity.
Defined.

(** A reply with a well-formed entry, an entry without geometry and a
    number. *)
Lemma generateAssistedAnnotations_resolved_witness :
  exists boxes,
    generateAssistedAnnotations true numberedUUID ""
      (GenerateContentResolves
         (mkResponse "[...]" (Some (JArr [carEntry; JObj [("label", JStr "x")]; JNum 1;
                                          carEntry])))) 0
    = (inr boxes, 2%nat) /\
    map box_id boxes = ["uuid-0"; "uuid-1"].
Proof.
  assert (H : exists boxes,
             generateAssistedAnnotations true numberedUUID ""
               (GenerateContentResolves
                  (mkResponse "[...]"
                     (Some (JArr [carEntry; JObj [("label", JStr "x")]; JNum 1; carEntry]))))
               0 = (inr boxes, 2%nat))
    by (eexists; vm_compute; reflexivity).
  destruct H as [boxes H]. exists boxes. split; [exact H|].
  destruct (generateAssistedAnnotations_resolved true numberedUUID "" _ 0 2 boxes H)
    as (Hids & _).
  rewrite Hids.
  assert (Hlen : length boxes = 2%nat).
  { vm_compute in H. now injection H as <-. }
  rewrite Hlen. reflexivity.
Defined.

(** A reply whose second entry is [null]. *)
Lemma generateAssistedAnnotations_fails_on_null_entry_witness :
  exists message,
    fst (generateAssistedAnnotations true numberedUUID "Cannot read properties of null"
           (GenerateContentResolves (mkResponse "[...]" (Some (JArr [carEntry; JNull]))))
           0) = inl message.
Proof.
  apply (proj2 (generateAssistedAnnotations_fails_on_null_entry true numberedUUID
                  "Cannot read properties of null"
                  (mkResponse "[...]" (Some (JArr [carEntry; JNull])))
                  (JArr [carEntry; JNull]) 0 eq_refl eq_refl)).
  exists [carEntry; JNull]. split; [reflexivity|]. right. left.
Defined.

End Detection.

(** ** The application ([App.tsx]) *)

Module App.

Import ColorUtils GeminiService Detection.

(** [AnnotationMode], without [null]. *)
Inductive AnnotationMode : Type := automatic | assistive.

(** [EditingImageState]. *)
Record EditingImageState := mkEditing {
  editing_image : UploadedImage;
  annotations : list BoundingBox
}.

(** The state of [App] (the loading message, a text for display, is left
    out), then the colour allocator and the number of UUIDs handed out. *)
Record AppState := mkApp {
  annotationMode : option AnnotationMode;
  uploadedImages : list UploadedImage;
  promptText : string;
  processedResults : list ProcessedImageResult;
  isLoading : bool;
  error : option string;
  apiKeyMissingError : bool;
  editingState : option EditingImageState;
  labelColors : ColorState;
  uuidsDrawn : nat
}.

Definition setAnnotationMode (v : option AnnotationMode) (st : AppState) : AppState :=
  mkApp v (uploadedImages st) (promptText st) (processedResults st)
    (isLoading st) (error st) (apiKeyMissingError st) (editingState st)
    (labelColors st) (uuidsDrawn st).

Definition setUploadedImages (v : list UploadedImage) (st : AppState) : AppState :=
  mkApp (annotationMode st) v (promptText st) (processedResults st)
    (isLoading st) (error st) (apiKeyMissingError st) (editingState st)
    (labelColors st) (uuidsDrawn st).

Definition setPromptText (v : string) (st : AppState) : AppState :=
  mkApp (annotationMode st) (uploadedImages st) v (processedResults st)
    (isLoading st) (error st) (apiKeyMissingError st) (editingState st)
    (labelColors st) (uuidsDrawn st).

Definition setProcessedResults (v : list ProcessedImageResult) (st : AppState) : AppState :=
  mkApp (annotationMode st) (uploadedImages st) (promptText st) v
    (isLoading st) (error st) (apiKeyMissingError st) (editingState st)
    (labelColors st) (uuidsDrawn st).

Definition setIsLoading (v : bool) (st : AppState) : AppState :=
  mkApp (annotationMode st) (uploadedImages st) (promptText st)
    (processedResults st) v (error st) (apiKeyMissingError st)
    (editingState st) (labelColors st) (uuidsDrawn st).

Definition setError (v : option string) (st : AppState) : AppState :=
  mkApp (annotationMode st) (uploadedImages st) (promptText st)
    (processedResults st) (isLoading st) v (apiKeyMissingError st)
    (editingState st) (labelColors st) (uuidsDrawn st).

Definition setApiKeyMissingError (v : bool) (st : AppState) : AppState :=
  mkApp (annotationMode st) (uploadedImages st) (promptText st)
    (processedResults st) (isLoading st) (error st) v (editingState st)
    (labelColors st) (uuidsDrawn st).

Definition setEditingState (v : option EditingImageState) (st : AppState) : AppState :=
  mkApp (annotationMode st) (uploadedImages st) (promptText st)
    (processedResults st) (isLoading st) (error st) (apiKeyMissingError st) v
    (labelColors st) (uuidsDrawn st).

Definition setLabelColors (v : ColorState) (st : AppState) : AppState :=
  mkApp (annotationMode st) (uploadedImages st) (promptText st)
    (processedResults st) (isLoading st) (error st) (apiKeyMissingError st)
    (editingState st) v (uuidsDrawn st).

Definition setUuidsDrawn (v : nat) (st : AppState) : AppState :=
  mkApp (annotationMode st) (uploadedImages st) (promptText st)
    (processedResults st) (isLoading st) (error st) (apiKeyMissingError st)
    (editingState st) (labelColors st) v.

(** The state of the first render, with the API key configured or not. *)
Definition initialApp (apiKey : bool) : AppState :=
  mkApp None []
    "Identify all distinct objects such as cars, people, signs, and animals."
    [] false
    (if apiKey then None
     else Some "Critical: Gemini API Key (API_KEY) is not configured in the environment. The application cannot function.")
    (negb apiKey) None ColorUtils.initial 0.

(** [map.set(key, value)] on a [Map] kept in insertion order: a key already
    present keeps its place and takes the new value. *)
Fixpoint mapSet (key : string) (value : UploadedImage)
    (m : list (string * UploadedImage)) : list (string * UploadedImage) :=
  match m with
  | [] => [(key, value)]
  | (k, v) :: rest =>
      if String.eqb k key then (key, value) :: rest
      else (k, v) :: mapSet key value rest
  end.

(** [Array.from(new Map(combinedImages.map(img => [img.id, img])).values())]. *)
Definition uniqueById (combinedImages : list UploadedImage) : list UploadedImage :=
  map snd (fold_left (fun m img => mapSet (image_id img) img m) combinedImages []).

(** The empty result created for an image. *)
Definition emptyResult (img : UploadedImage) : ProcessedImageResult :=
  mkResult (image_id img) (image_name img) (image_naturalWidth img)
    (image_naturalHeight img) [].

(** [processedResults.some(pr => pr.imageId === img.id)]. *)
Definition hasResult (results : list ProcessedImageResult) (img : UploadedImage) : bool :=
  existsb (fun pr => String.eqb (imageId pr) (image_id img)) results.

(** [handleImagesUploaded(newImages)].  The callback is memoised on
    [annotationMode] and [processedResults], and [ImageUploader] calls the
    callback of the render on which the files were chosen, once it has read
    them: [render] is the state of that render, of which the callback reads
    the mode and the results.  [st] is the state when the updaters run:
    [prevImages] and [prev] are its images and its results.  The updater of
    [setUploadedImages] is taken to run once. *)
Definition handleImagesUploaded (render st : AppState)
    (newImages : list UploadedImage) : AppState :=
  let combinedImages := uploadedImages st ++ newImages in
  let uniqueImages := uniqueById combinedImages in
  let st1 :=
    if (0 <? length uniqueImages)%nat
    then setLabelColors (resetLabelColors (labelColors st)) (setError None st)
    else st in
  let st2 :=
    match annotationMode render with
    | Some assistive =>
        let newResultsForAssistive :=
          map emptyResult
            (List.filter (fun img => negb (hasResult (processedResults render) img))
               uniqueImages) in
        setProcessedResults (processedResults st ++ newResultsForAssistive) st1
    | _ => setProcessedResults [] st1
    end in
  setUploadedImages uniqueImages st2.

(** [handleClearAll()]. *)
Definition handleClearAll (st : AppState) : AppState :=
  setLabelColors (resetLabelColors (labelColors st))
    (setEditingState None
       (setError None (setProcessedResults [] (setUploadedImages [] st)))).

(** The button of the assistive workflow on the mode screen. *)
Definition chooseAssistive (st : AppState) : AppState :=
  let st1 := setAnnotationMode (Some assistive) st in
  if (0 <? length (uploadedImages st))%nat && (length (processedResults st) =? 0)%nat
  then setProcessedResults (map emptyResult (uploadedImages st)) st1
  else st1.

(** [r.imageId === imageId]. *)
Definition isResultOf (imageId' : string) (r : ProcessedImageResult) : bool :=
  String.eqb (imageId r) imageId'.

(** [handleOpenEditor(image, result)]. *)
Definition handleOpenEditor (st : AppState) (image : UploadedImage) : AppState :=
  let existingResult := List.find (isResultOf (image_id image)) (processedResults st) in
  let '(annotationsForImage, st1) :=
    match existingResult, annotationMode st with
    | Some r, _ => (resultBoxes r, st)
    | None, Some assistive =>
        (resultBoxes (emptyResult image),
         setProcessedResults (processedResults st ++ [emptyResult image]) st)
    | None, _ => ([], st)
    end in
  setLabelColors (resetLabelColors (labelColors st))
    (setEditingState (Some (mkEditing image annotationsForImage)) st1).

(** [handleCloseEditor()]. *)
Definition handleCloseEditor (st : AppState) : AppState := setEditingState None st.

(** The updater of [setProcessedResults] in [handleSaveAnnotations]. *)
Fixpoint replaceBoxes (imageId' : string) (updatedAnnotations : list BoundingBox)
    (prevResults : list ProcessedImageResult) : option (list ProcessedImageResult) :=
  match prevResults with
  | [] => None
  | r :: rest =>
      if isResultOf imageId' r then
        Some (mkResult (imageId r) (originalFileName r) (originalWidth r)
                (originalHeight r) updatedAnnotations :: rest)
      else (fun rest' => r :: rest') <$> replaceBoxes imageId' updatedAnnotations rest
  end.

(** [handleSaveAnnotations(imageId, updatedAnnotations)]: the result with
    that image id, the first if there are several, takes the new boxes; if
    there is none and the image is uploaded, a result is appended. *)
Definition handleSaveAnnotations (st : AppState) (imageId' : string)
    (updatedAnnotations : list BoundingBox) : AppState :=
  let results :=
    match replaceBoxes imageId' updatedAnnotations (processedResults st) with
    | Some updatedResults => updatedResults
    | None =>
        match List.find (fun img => String.eqb (image_id img) imageId')
                (uploadedImages st) with
        | Some imageMeta =>
            processedResults st ++
            [mkResult imageId' (image_name imageMeta) (image_naturalWidth imageMeta)
               (image_naturalHeight imageMeta) updatedAnnotations]
        | None => processedResults st
        end
    end in
  setEditingState None
    (setLabelColors (resetLabelColors (labelColors st))
       (setProcessedResults results st)).

Section Submit.

Variable ai : bool.
Variable randomUUID : nat -> string.
Variable nullPropertyMessage : string.
Variable undefinedPropertyMessage : string.
Variable mismatchMessage : JsValue -> nat -> string.

(** [GEMINI_IMAGE_BATCH_SIZE], imported from [./constants]: a positive
    number of images per request. *)
Variable GEMINI_IMAGE_BATCH_SIZE : nat.

Abbreviation detect :=
  (generateBoundingBoxesForImages ai randomUUID nullPropertyMessage
     undefinedPropertyMessage mismatchMessage).

(** [Math.ceil(totalImages / GEMINI_IMAGE_BATCH_SIZE)], for a positive batch
    size. *)
Definition numBatches (totalImages : nat) : nat :=
  (totalImages + (GEMINI_IMAGE_BATCH_SIZE - 1)) / GEMINI_IMAGE_BATCH_SIZE.

(** [uploadedImages.slice(batchStart, batchEnd)] of batch [i]. *)
Definition imageBatch (images : list UploadedImage) (i : nat) : list UploadedImage :=
  take GEMINI_IMAGE_BATCH_SIZE (drop (i * GEMINI_IMAGE_BATCH_SIZE) images).

(** The [for] loop of [handleSubmitForAnnotation], with [steps] batches to
    go from batch [i]; [runs i] is what the network does on batch [i].  The
    message is that of the rejection that ended the loop, if any; with it,
    [allResults] and the number of UUIDs drawn. *)
Fixpoint batchLoop (images : list UploadedImage) (runs : nat -> RemoteRun)
    (steps i : nat) (allResults : list ProcessedImageResult) (n : nat)
  : option string * list ProcessedImageResult * nat :=
  match steps with
  | O => (None, allResults, n)
  | S steps' =>
      match detect (imageBatch images i) (runs i) n with
      | (inl message, n') => (Some message, allResults, n')
      | (inr batchResults, n') =>
          batchLoop images runs steps' (S i) (allResults ++ batchResults) n'
      end
  end.

(** [allResults.every(r => r.boxes.length === 0)]. *)
Definition noObjects (allResults : list ProcessedImageResult) : bool :=
  forallb (fun r => (length (resultBoxes r) =? 0)%nat) allResults.

(** [handleSubmitForAnnotation()], from the click to the end of the last
    batch. *)
Definition handleSubmitForAnnotation (st : AppState) (runs : nat -> RemoteRun)
  : AppState :=
  if apiKeyMissingError st then
    setError (Some "Cannot proceed: Gemini API Key is not configured.") st
  else if (length (uploadedImages st) =? 0)%nat then
    setError (Some "Please upload at least one image.") st
  else if Annotator.isBlank (promptText st) then
    setError (Some "Please enter a text prompt describing what to detect.") st
  else
    let st1 :=
      setLabelColors (resetLabelColors (labelColors st))
        (setProcessedResults [] (setError None (setIsLoading true st))) in
    let '(failure, allResults, n) :=
      batchLoop (uploadedImages st) runs (numBatches (length (uploadedImages st))) 0 []
        (uuidsDrawn st) in
    let st2 :=
      match failure with
      | None =>
          let st' := setProcessedResults allResults st1 in
          if noObjects allResults then
            setError
              (Some "Gemini processed all images, but no objects matching your query were found.")
              st'
          else st'
      | Some message =>
          setProcessedResults allResults
            (setError
               (Some (if String.eqb message ""
                      then "An unknown error occurred while generating annotations."
                      else message))
               st1)
      end in
    setIsLoading false (setUuidsDrawn n st2).

End Submit.

(** *** Saving *)

Lemma isResultOf_true (i : string) (r : ProcessedImageResult) :
  isResultOf i r = true <-> imageId r = i.
Proof. apply String.eqb_eq. Qed.

Lemma replaceBoxes_None (i : string) (bs : list BoundingBox)
    (results : list ProcessedImageResult) :
  replaceBoxes i bs results = None <-> List.find (isResultOf i) results = None.
Proof.
  induction results as [|r rest IH]; cbn; [tauto|].
  destruct (isResultOf i r); [split; discriminate|].
  destruct (replaceBoxes i bs rest); cbn; [|tauto].
  split; [discriminate|]. intros H. apply IH in H. discriminate.
Qed.

Lemma replaceBoxes_Some (i : string) (bs : list BoundingBox)
    (results updated : list ProcessedImageResult) :
  replaceBoxes i bs results = Some updated ->
  (exists r', List.find (isResultOf i) updated = Some r' /\
              resultBoxes r' = bs /\ imageId r' = i) /\
  (forall other, other <> i ->
                 List.find (isResultOf other) updated = List.find (isResultOf other) results) /\
  map imageId updated = map imageId results.
Proof.
  revert updated. induction results as [|r rest IH]; intros updated H; cbn in H;
    [discriminate|].
  destruct (isResultOf i r) eqn:E.
  - injection H as <-. apply isResultOf_true in E. split; [|split].
    + eexists. cbn. unfold isResultOf at 1. cbn. rewrite E, String.eqb_refl.
      repeat split.
    + intros other Hne. cbn. unfold isResultOf. cbn.
      destruct (String.eqb (imageId r) other) eqn:Eo; [|reflexivity].
      apply String.eqb_eq in Eo. congruence.
    + reflexivity.
  - destruct (replaceBoxes i bs rest) as [rest'|]; [|discriminate].
    injection H as <-. destruct (IH rest' eq_refl) as ((r' & Hf & Hb & Hi) & Hother & Hids).
    split; [|split].
    + exists r'. cbn. rewrite E. auto.
    + intros other Hne. cbn. now rewrite (Hother other Hne).
    + cbn. now rewrite Hids.
Qed.

Lemma find_app_Some {A : Type} (f : A -> bool) (l m : list A) :
  List.find f (l ++ m) =
    match List.find f l with
    | Some a => Some a
    | None => List.find f m
    end.
Proof.
  induction l as [|a l IH]; [reflexivity|]. cbn. now destruct (f a).
Qed.

(** What [handleSaveAnnotations] leaves in the results. *)
Lemma handleSaveAnnotations_results (st : AppState) (i : string)
    (updatedAnnotations : list BoundingBox) :
  let st' := handleSaveAnnotations st i updatedAnnotations in
  (forall other, other <> i ->
      List.find (isResultOf other) (processedResults st')
      = List.find (isResultOf other) (processedResults st)) /\
  (List.find (isResultOf i) (processedResults st) <> None \/
   (exists img, img ∈ uploadedImages st /\ image_id img = i) ->
   exists r', List.find (isResultOf i) (processedResults st') = Some r' /\
              resultBoxes r' = updatedAnnotations /\ imageId r' = i) /\
  (List.find (isResultOf i) (processedResults st) = None ->
   (forall img, img ∈ uploadedImages st -> image_id img <> i) ->
   processedResults st' = processedResults st).
Proof.
  cbn zeta. unfold handleSaveAnnotations. cbn [processedResults setEditingState
    setLabelColors setProcessedResults].
  destruct (replaceBoxes i updatedAnnotations (processedResults st)) as [updated|] eqn:E.
  - destruct (replaceBoxes_Some _ _ _ _ E) as (Hr & Hother & _).
    split; [exact Hother|]. split; [intros _; exact Hr|].
    intros Hnone.
    apply (proj2 (replaceBoxes_None i updatedAnnotations (processedResults st))) in Hnone.
    congruence.
  - apply replaceBoxes_None in E.
    destruct (List.find (fun img => String.eqb (image_id img) i) (uploadedImages st))
      as [imageMeta|] eqn:Ef.
    + split; [|split].
      * intros other Hne. rewrite find_app_Some.
        destruct (List.find (isResultOf other) (processedResults st)); [reflexivity|].
        cbn. unfold isResultOf. cbn.
        destruct (String.eqb i other) eqn:Eo; [|reflexivity].
        apply String.eqb_eq in Eo. congruence.
      * intros _. rewrite find_app_Some, E. cbn. unfold isResultOf. cbn.
        rewrite String.eqb_refl. eauto.
      * intros _ Hno. apply find_some in Ef as [Hin Heq].
        apply String.eqb_eq in Heq. apply list_elem_of_In in Hin.
        now apply Hno in Hin.
    + split; [reflexivity|]. split; [|reflexivity].
      intros [Hsome | (img & Hin & Hid)]; [contradiction|].
      apply list_elem_of_In in Hin.
      pose proof (find_none _ _ Ef img Hin) as Hno. cbn in Hno.
      rewrite Hid, String.eqb_refl in Hno. discriminate.
Qed.

(** Saving is an upsert by image id.  The saved boxes become the boxes of
    the first result of that image, or of a new last result if the image is
    uploaded and has none; what is stored for any other image id is
    unchanged; and with neither a result nor an uploaded image of that id,
    the save is dropped. *)
Theorem handleSaveAnnotations_upserts (st : AppState) (i : string)
    (updatedAnnotations : list BoundingBox) :
  let st' := handleSaveAnnotations st i updatedAnnotations in
  (forall other, other <> i ->
      List.find (isResultOf other) (processedResults st')
      = List.find (isResultOf other) (processedResults st)) /\
  (List.find (isResultOf i) (processedResults st) <> None \/
   (exists img, img ∈ uploadedImages st /\ image_id img = i) ->
   exists r', List.find (isResultOf i) (processedResults st') = Some r' /\
              resultBoxes r' = updatedAnnotations /\ imageId r' = i) /\
  (List.find (isResultOf i) (processedResults st) = None ->
   (forall img, img ∈ uploadedImages st -> image_id img <> i) ->
   processedResults st' = processedResults st).
Proof. apply handleSaveAnnotations_results. Qed.

Lemma stripColor_withColors (palette : list string) (bs : list BoundingBox) :
  forall colors : ColorState,
  map Annotator.stripColor (fst (Annotator.withColors palette bs colors))
  = map Annotator.stripColor bs.
Proof.
  induction bs as [|b bs IH]; intros colors; [reflexivity|].
  cbn [Annotator.withColors].
  destruct (getLabelColor palette (label b) colors) as [c colors1].
  specialize (IH colors1).
  destruct (Annotator.withColors palette bs colors1) as [rest colors2].
  cbn [fst map] in *. now rewrite IH.
Qed.

Lemma mount_boxes (palette : list string) (bs : list BoundingBox)
    (img : option Annotator.HTMLImageElement) (svg : option Annotator.DOMRect)
    (colors : ColorState) (n : nat) :
  Annotator.boxes (Annotator.mount palette bs img svg colors n)
  = fst (Annotator.withColors palette bs colors).
Proof.
  unfold Annotator.mount. now destruct (Annotator.withColors palette bs colors).
Qed.

Lemma stripColor_idempotent (bs : list BoundingBox) :
  map Annotator.stripColor (map Annotator.stripColor bs) = map Annotator.stripColor bs.
Proof. rewrite map_map. reflexivity. Qed.

(** Save and reopen.  After the editor saves the boxes of an uploaded
    image, opening the editor on that image again starts it on the same
    boxes, in the same order, with their ids, labels, geometry and sources;
    only the display colours are assigned afresh, from a reset allocator. *)
Theorem save_then_reopen_restores_boxes (palette : list string) (st : AppState)
    (image : UploadedImage) (editor : Annotator.State)
    (img : option Annotator.HTMLImageElement) (svg : option Annotator.DOMRect) :
  image ∈ uploadedImages st ->
  let saved := handleSaveAnnotations st (image_id image) (Annotator.handleSave editor) in
  let opened := handleOpenEditor saved image in
  exists es,
    editingState opened = Some es /\
    editing_image es = image /\
    labelColors opened = ColorUtils.initial /\
    map Annotator.stripColor
      (Annotator.boxes
         (Annotator.mount palette (annotations es) img svg (labelColors opened)
            (uuidsDrawn opened)))
    = map Annotator.stripColor (Annotator.boxes editor).
Proof.
  intros Himage. cbn zeta.
  destruct (handleSaveAnnotations_results st (image_id image) (Annotator.handleSave editor))
    as (_ & Hsaved & _).
  destruct Hsaved as (r' & Hfind & Hboxes & _); [right; eauto|].
  unfold handleOpenEditor. rewrite Hfind. cbn.
  eexists. split; [reflexivity|]. cbn [editing_image annotations].
  split; [reflexivity|]. split; [reflexivity|].
  rewrite mount_boxes, stripColor_withColors, Hboxes. apply stripColor_idempotent.
Qed.

(** *** Uploads *)

(** The values of a [Map] keyed by image id after [set(img.id, img)]: the
    image with that id gives its place to [img]; without one, [img] goes
    last. *)
Fixpoint putImage (img : UploadedImage) (images : list UploadedImage)
  : list UploadedImage :=
  match images with
  | [] => [img]
  | a :: rest =>
      if String.eqb (image_id a) (image_id img) then img :: rest
      else a :: putImage img rest
  end.

(** Every key of the map is the id of its image. *)
Definition keyedById (m : list (string * UploadedImage)) : Prop :=
  Forall (fun p => fst p = image_id (snd p)) m.

Lemma mapSet_keyedById (img : UploadedImage) (m : list (string * UploadedImage)) :
  keyedById m ->
  keyedById (mapSet (image_id img) img m) /\
  map snd (mapSet (image_id img) img m) = putImage img (map snd m).
Proof.
  unfold keyedById. induction m as [|[k v] rest IH]; intros Hm; cbn.
  - split; [repeat constructor | reflexivity].
  - apply Forall_cons in Hm as [Hk Hrest]. cbn in Hk. subst k.
    destruct (String.eqb (image_id v) (image_id img)).
    + split; [constructor; [reflexivity | exact Hrest] | reflexivity].
    + destruct (IH Hrest) as [Hinv Heq]. split.
      * constructor; [reflexivity | exact Hinv].
      * cbn. now rewrite Heq.
Qed.

Lemma fold_mapSet_keyedById (l : list UploadedImage) :
  forall m, keyedById m ->
            keyedById (fold_left (fun m img => mapSet (image_id img) img m) l m).
Proof.
  induction l as [|img l IH]; intros m Hm; [exact Hm|].
  cbn. apply IH. now apply mapSet_keyedById.
Qed.

Lemma uniqueById_snoc (l : list UploadedImage) (img : UploadedImage) :
  uniqueById (l ++ [img]) = putImage img (uniqueById l).
Proof.
  unfold uniqueById. rewrite fold_left_app. cbn [fold_left].
  apply mapSet_keyedById, fold_mapSet_keyedById. constructor.
Qed.

Lemma putImage_new (img : UploadedImage) (images : list UploadedImage) :
  image_id img ∉ map image_id images -> putImage img images = images ++ [img].
Proof.
  induction images as [|a rest IH]; intros Hnew; [reflexivity|].
  cbn in *. apply not_elem_of_cons in Hnew as [Hne Hrest].
  destruct (String.eqb (image_id a) (image_id img)) eqn:E.
  - apply String.eqb_eq in E. congruence.
  - now rewrite IH.
Qed.

Lemma putImage_ids (img : UploadedImage) (images : list UploadedImage) :
  image_id img ∈ map image_id images ->
  map image_id (putImage img images) = map image_id images.
Proof.
  induction images as [|a rest IH]; intros Hin; [now apply elem_of_nil in Hin|].
  cbn in *. destruct (String.eqb (image_id a) (image_id img)) eqn:E.
  - apply String.eqb_eq in E. cbn. now rewrite E.
  - apply String.eqb_neq in E. apply elem_of_cons in Hin as [Heq | Hin]; [congruence|].
    cbn. now rewrite IH.
Qed.

Lemma putImage_ids_grow (img : UploadedImage) (images : list UploadedImage) :
  exists added,
    map image_id (putImage img images) = map image_id images ++ added.
Proof.
  destruct (decide (image_id img ∈ map image_id images)) as [Hin | Hnew].
  - exists []. rewrite app_nil_r. now apply putImage_ids.
  - exists [image_id img]. rewrite (putImage_new _ _ Hnew). apply map_app.
Qed.

Lemma putImage_NoDup (img : UploadedImage) (images : list UploadedImage) :
  NoDup (map image_id images) -> NoDup (map image_id (putImage img images)).
Proof.
  intros Hnd. destruct (decide (image_id img ∈ map image_id images)) as [Hin | Hnew].
  - now rewrite putImage_ids.
  - rewrite (putImage_new _ _ Hnew), map_app. apply NoDup_app.
    split; [exact Hnd|]. split; [|apply NoDup_singleton].
    intros i Hi Hi'. cbn in Hi'. apply list_elem_of_singleton in Hi'. now subst i.
Qed.

Lemma putImage_elem (img x : UploadedImage) (images : list UploadedImage) :
  NoDup (map image_id images) ->
  x ∈ putImage img images <->
  x = img \/ (x ∈ images /\ image_id x <> image_id img).
Proof.
  induction images as [|a rest IH]; intros Hnd; cbn.
  - rewrite list_elem_of_singleton. split; [auto|].
    intros [H | [H _]]; [exact H | now apply elem_of_nil in H].
  - cbn in Hnd. apply NoDup_cons in Hnd as [Ha Hrest].
    destruct (String.eqb (image_id a) (image_id img)) eqn:E.
    + apply String.eqb_eq in E. rewrite !elem_of_cons. split.
      * intros [H | H]; [auto|]. right. split; [auto|].
        intros Heq. apply Ha. rewrite E, <- Heq. now apply list_elem_of_fmap_2.
      * intros [H | [[H | H] Hne]]; [auto | subst x; congruence | auto].
    + apply String.eqb_neq in E. rewrite !elem_of_cons, (IH Hrest). split.
      * intros [H | [H | [H Hne]]]; [subst x|..]; auto.
      * intros [H | [[H | H] Hne]]; auto.
Qed.

Lemma uniqueById_NoDup (l : list UploadedImage) :
  NoDup (map image_id (uniqueById l)).
Proof.
  induction l as [|img l IH] using rev_ind; [constructor|].
  rewrite uniqueById_snoc. now apply putImage_NoDup.
Qed.

Lemma uniqueById_elem (l : list UploadedImage) (x : UploadedImage) :
  x ∈ uniqueById l <->
  List.find (fun o => String.eqb (image_id o) (image_id x)) (rev l) = Some x.
Proof.
  induction l as [|img l IH] using rev_ind.
  - cbn. split; [intros H; now apply elem_of_nil in H | discriminate].
  - rewrite uniqueById_snoc, rev_app_distr. cbn [rev app List.find].
    rewrite (putImage_elem _ _ _ (uniqueById_NoDup l)), IH.
    destruct (String.eqb (image_id img) (image_id x)) eqn:E.
    + apply String.eqb_eq in E. split.
      * intros [H | [_ Hne]]; [now subst x | congruence].
      * intros [= ->]. now left.
    + apply String.eqb_neq in E. split.
      * intros [H | [H _]]; [subst x; congruence | exact H].
      * intros H. right. split; [exact H | congruence].
Qed.

Lemma uniqueById_ids_grow (prev new : list UploadedImage) :
  exists added,
    map image_id (uniqueById (prev ++ new)) = map image_id (uniqueById prev) ++ added.
Proof.
  induction new as [|img new IH] using rev_ind.
  - exists []. now rewrite !app_nil_r.
  - destruct IH as [added IH]. rewrite app_assoc, uniqueById_snoc.
    destruct (putImage_ids_grow img (uniqueById (prev ++ new))) as [more Hmore].
    exists (added ++ more). now rewrite Hmore, IH, app_assoc.
Qed.

Lemma uniqueById_fixed (l : list UploadedImage) :
  NoDup (map image_id l) -> uniqueById l = l.
Proof.
  induction l as [|img l IH] using rev_ind; intros Hnd; [reflexivity|].
  rewrite map_app in Hnd. apply NoDup_app in Hnd as (Hl & Hdis & _).
  rewrite uniqueById_snoc, (IH Hl). apply putImage_new.
  intros Hin. apply (Hdis _ Hin). cbn. left.
Qed.

Lemma handleImagesUploaded_images (render st : AppState)
    (newImages : list UploadedImage) :
  uploadedImages (handleImagesUploaded render st newImages)
  = uniqueById (uploadedImages st ++ newImages).
Proof. reflexivity. Qed.

(** After an upload no two images share an id, whatever render the upload
    was started on.  Of the earlier images and the new ones taken in that
    order, exactly the last image of each id is kept: a re-upload replaces
    the earlier image.  And when the earlier images had distinct ids, they
    keep their places in the list, the new ids following them. *)
Theorem handleImagesUploaded_keeps_last_image_of_each_id (render st : AppState)
    (newImages : list UploadedImage) :
  let st' := handleImagesUploaded render st newImages in
  NoDup (map image_id (uploadedImages st')) /\
  (forall img,
      img ∈ uploadedImages st' <->
      List.find (fun o => String.eqb (image_id o) (image_id img))
        (rev (uploadedImages st ++ newImages)) = Some img) /\
  (NoDup (map image_id (uploadedImages st)) ->
   exists added,
     map image_id (uploadedImages st') = map image_id (uploadedImages st) ++ added).
Proof.
  cbn zeta. rewrite handleImagesUploaded_images. split; [apply uniqueById_NoDup|].
  split; [intros img; apply uniqueById_elem|].
  intros Hnd. destruct (uniqueById_ids_grow (uploadedImages st) newImages) as [added H].
  exists added. now rewrite H, (uniqueById_fixed _ Hnd).
Qed.

Lemma hasResult_spec (results : list ProcessedImageResult) (img : UploadedImage) :
  hasResult results img = true <-> image_id img ∈ map imageId results.
Proof.
  unfold hasResult. induction results as [|r rest IH]; cbn.
  - split; [discriminate | intros H; now apply elem_of_nil in H].
  - rewrite orb_true_iff, IH, elem_of_cons, String.eqb_eq. intuition congruence.
Qed.

Lemma handleImagesUploaded_assistive (render st : AppState)
    (newImages : list UploadedImage) :
  annotationMode render = Some assistive ->
  processedResults (handleImagesUploaded render st newImages)
  = processedResults st ++
    map emptyResult
      (List.filter (fun img => negb (hasResult (processedResults render) img))
         (uniqueById (uploadedImages st ++ newImages))).
Proof.
  intros Hmode. unfold handleImagesUploaded. rewrite Hmode.
  now destruct (0 <? length (uniqueById (uploadedImages st ++ newImages)))%nat.
Qed.

Lemma NoDup_filter_map {A B : Type} (f : A -> B) (p : A -> bool) (l : list A) :
  NoDup (map f l) -> NoDup (map f (List.filter p l)).
Proof.
  induction l as [|a l IH]; intros Hnd; [constructor|].
  cbn in Hnd. apply NoDup_cons in Hnd as [Ha Hl]. cbn [List.filter].
  destruct (p a); [|now apply IH]. cbn. apply NoDup_cons. split; [|now apply IH].
  intros Hin. apply Ha. apply list_elem_of_fmap in Hin as (x & -> & Hx).
  apply list_elem_of_fmap_2. apply list_elem_of_In in Hx.
  apply filter_In in Hx as [Hx _]. now apply list_elem_of_In.
Qed.

(** The render the upload was started on knows no result id that the state
    has lost since. *)
Definition resultsKept (render st : AppState) : Prop :=
  forall i, i ∈ map imageId (processedResults render) ->
            i ∈ map imageId (processedResults st).

(** The render the upload was started on knows every result id of the
    state: no result was added since. *)
Definition resultsKnown (render st : AppState) : Prop :=
  forall i, i ∈ map imageId (processedResults st) ->
            i ∈ map imageId (processedResults render).

Lemma handleImagesUploaded_assistive_results (render st : AppState)
    (newImages : list UploadedImage) :
  annotationMode render = Some assistive ->
  let st' := handleImagesUploaded render st newImages in
  (exists created,
      processedResults st' = processedResults st ++ created /\
      Forall (fun r => resultBoxes r = []) created) /\
  (resultsKept render st ->
   forall img, img ∈ uploadedImages st' -> hasResult (processedResults st') img = true) /\
  (resultsKnown render st ->
   NoDup (map imageId (processedResults st)) ->
   NoDup (map imageId (processedResults st'))).
Proof.
  intros Hmode. cbn zeta.
  rewrite handleImagesUploaded_images, (handleImagesUploaded_assistive _ _ _ Hmode).
  set (uniqueImages := uniqueById (uploadedImages st ++ newImages)).
  set (fresh := List.filter (fun img => negb (hasResult (processedResults render) img))
                  uniqueImages).
  split; [|split].
  - eexists. split; [reflexivity|]. apply Forall_forall. intros r Hr.
    apply list_elem_of_fmap in Hr as (img & -> & _). reflexivity.
  - intros Hkept img Himg. apply hasResult_spec. rewrite map_app, elem_of_app.
    destruct (hasResult (processedResults render) img) eqn:E.
    + left. now apply Hkept, hasResult_spec.
    + right. rewrite map_map. cbn.
      apply (list_elem_of_fmap_2 image_id). apply list_elem_of_In, filter_In.
      split; [now apply list_elem_of_In | now rewrite E].
  - intros Hknown Hnd. rewrite map_app. apply NoDup_app. split; [exact Hnd|]. split.
    + intros i Hold Hnew. rewrite map_map in Hnew. cbn in Hnew.
      apply list_elem_of_fmap in Hnew as (img & -> & Himg).
      apply list_elem_of_In, filter_In in Himg as [_ Hno].
      apply negb_true_iff in Hno. apply Hknown, hasResult_spec in Hold. congruence.
    + rewrite map_map. cbn. apply NoDup_filter_map, uniqueById_NoDup.
Qed.

(** An upload in the assistive workflow keeps the earlier results as they
    are and appends results with no boxes.  If the render the upload was
    started on knows no result id that has been lost since (so when it is
    the current render), every image has a result afterwards.  If that
    render knows every result id of the state (so when it is the current
    render), no image gets a second result: stored results with distinct
    image ids still have distinct image ids. *)
Theorem handleImagesUploaded_assistive_gives_each_image_a_result
    (render st : AppState) (newImages : list UploadedImage) :
  annotationMode render = Some assistive ->
  let st' := handleImagesUploaded render st newImages in
  (exists created,
      processedResults st' = processedResults st ++ created /\
      Forall (fun r => resultBoxes r = []) created) /\
  (resultsKept render st ->
   forall img, img ∈ uploadedImages st' -> hasResult (processedResults st') img = true) /\
  (resultsKnown render st ->
   NoDup (map imageId (processedResults st)) ->
   NoDup (map imageId (processedResults st'))).
Proof. apply handleImagesUploaded_assistive_results. Qed.

(** *** The assistive workflow *)

(** What happens on the screen of the assistive workflow.  An upload ends
    when the files are read: [age] is the number of events since the files
    were chosen, [0] when nothing happened in between. *)
Inductive AssistEvent : Type :=
  | ImagesUploaded (age : nat) (newImages : list UploadedImage)
  | ClearAll
  | OpenEditor (image : UploadedImage)
  | CloseEditor
  | SaveAnnotations (imageId' : string) (updatedAnnotations : list BoundingBox).

(** The state [age] events ago, [past] holding the earlier states, the
    latest first; the first state of the session when [age] goes beyond
    it. *)
Definition renderAt (past : list AppState) (st : AppState) (age : nat) : AppState :=
  nth age (st :: past) (List.last past st).

Definition dispatch (past : list AppState) (st : AppState) (e : AssistEvent)
  : AppState :=
  match e with
  | ImagesUploaded age newImages =>
      handleImagesUploaded (renderAt past st age) st newImages
  | ClearAll => handleClearAll st
  | OpenEditor image => handleOpenEditor st image
  | CloseEditor => handleCloseEditor st
  | SaveAnnotations imageId' updatedAnnotations =>
      handleSaveAnnotations st imageId' updatedAnnotations
  end.

(** The state after [events], oldest first. *)
Fixpoint session (past : list AppState) (st : AppState) (events : list AssistEvent)
  : AppState :=
  match events with
  | [] => st
  | e :: rest => session (st :: past) (dispatch past st e) rest
  end.

(** Nothing happened between the choice of the files and the end of the
    upload. *)
Definition onCurrentRender (e : AssistEvent) : Prop :=
  match e with
  | ImagesUploaded age _ => age = 0%nat
  | _ => True
  end.

(** The assistive workflow with one result per image: the uploaded images
    have distinct ids, so have the results, and every image has one. *)
Definition oneResultPerImage (st : AppState) : Prop :=
  annotationMode st = Some assistive /\
  NoDup (map image_id (uploadedImages st)) /\
  NoDup (map imageId (processedResults st)) /\
  (forall img, img ∈ uploadedImages st -> hasResult (processedResults st) img = true).

Lemma handleImagesUploaded_mode (render st : AppState)
    (newImages : list UploadedImage) :
  annotationMode (handleImagesUploaded render st newImages) = annotationMode st.
Proof.
  unfold handleImagesUploaded.
  destruct (0 <? length (uniqueById (uploadedImages st ++ newImages)))%nat;
    destruct (annotationMode render) as [[|]|]; reflexivity.
Qed.

Lemma handleOpenEditor_images (st : AppState) (image : UploadedImage) :
  uploadedImages (handleOpenEditor st image) = uploadedImages st.
Proof.
  unfold handleOpenEditor.
  destruct (List.find (isResultOf (image_id image)) (processedResults st));
    [reflexivity|].
  now destruct (annotationMode st) as [[|]|].
Qed.

Lemma handleOpenEditor_results (st : AppState) (image : UploadedImage) :
  annotationMode st = Some assistive ->
  uploadedImages (handleOpenEditor st image) = uploadedImages st /\
  annotationMode (handleOpenEditor st image) = annotationMode st /\
  processedResults (handleOpenEditor st image)
  = match List.find (isResultOf (image_id image)) (processedResults st) with
    | Some _ => processedResults st
    | None => processedResults st ++ [emptyResult image]
    end.
Proof.
  intros Hmode. unfold handleOpenEditor. rewrite Hmode.
  now destruct (List.find (isResultOf (image_id image)) (processedResults st)).
Qed.

Lemma find_isResultOf_None (i : string) (results : list ProcessedImageResult) :
  List.find (isResultOf i) results = None <-> i ∉ map imageId results.
Proof.
  induction results as [|r rest IH]; cbn.
  - split; [intros _; apply not_elem_of_nil | reflexivity].
  - rewrite not_elem_of_cons. unfold isResultOf at 1.
    destruct (String.eqb (imageId r) i) eqn:E.
    + apply String.eqb_eq in E. split; [discriminate | intros [Hne _]; congruence].
    + apply String.eqb_neq in E. rewrite IH. split; [intros H; split; congruence | tauto].
Qed.

Lemma NoDup_snoc_ids (i : string) (ids : list string) :
  NoDup ids -> i ∉ ids -> NoDup (ids ++ [i]).
Proof.
  intros Hnd Hi. apply NoDup_app. split; [exact Hnd|]. split; [|apply NoDup_singleton].
  intros x Hx Hx'. apply list_elem_of_singleton in Hx'. now subst x.
Qed.

Lemma handleSaveAnnotations_ids (st : AppState) (i : string)
    (updatedAnnotations : list BoundingBox) :
  uploadedImages (handleSaveAnnotations st i updatedAnnotations) = uploadedImages st /\
  annotationMode (handleSaveAnnotations st i updatedAnnotations) = annotationMode st /\
  (map imageId (processedResults (handleSaveAnnotations st i updatedAnnotations))
   = map imageId (processedResults st) \/
   ((i ∉ map imageId (processedResults st)) /\
    map imageId (processedResults (handleSaveAnnotations st i updatedAnnotations))
    = map imageId (processedResults st) ++ [i])).
Proof.
  split; [reflexivity|]. split; [reflexivity|].
  unfold handleSaveAnnotations.
  cbn [processedResults setEditingState setLabelColors setProcessedResults].
  destruct (replaceBoxes i updatedAnnotations (processedResults st)) as [updated|] eqn:E.
  - left. now apply replaceBoxes_Some in E as (_ & _ & Hids).
  - apply replaceBoxes_None, find_isResultOf_None in E.
    destruct (List.find _ (uploadedImages st)); [|now left].
    right. split; [exact E|]. now rewrite map_app.
Qed.

(** Distinct image ids survive every event, an upload that ends late
    included. *)
Lemma distinctImages_dispatch (past : list AppState) (st : AppState) (e : AssistEvent) :
  NoDup (map image_id (uploadedImages st)) ->
  NoDup (map image_id (uploadedImages (dispatch past st e))).
Proof.
  intros Hnd. destruct e as [age newImages | | image | | i updatedAnnotations];
    cbn [dispatch].
  - rewrite handleImagesUploaded_images. apply uniqueById_NoDup.
  - constructor.
  - now rewrite handleOpenEditor_images.
  - exact Hnd.
  - exact Hnd.
Qed.

Lemma oneResultPerImage_dispatch (past : list AppState) (st : AppState)
    (e : AssistEvent) :
  onCurrentRender e ->
  oneResultPerImage st -> oneResultPerImage (dispatch past st e).
Proof.
  intros Hcurrent (Hmode & Himgs & Hres & Hcov).
  destruct e as [age newImages | | image | | i updatedAnnotations]; cbn [dispatch];
    unfold oneResultPerImage.
  - cbn in Hcurrent. subst age. change (renderAt past st 0) with st.
    destruct (handleImagesUploaded_assistive_results st st newImages Hmode)
      as (_ & Hcov' & Hres').
    split; [now rewrite handleImagesUploaded_mode|].
    split; [rewrite handleImagesUploaded_images; apply uniqueById_NoDup|].
    split; [apply Hres'; [intros i Hi; exact Hi | exact Hres]|].
    apply Hcov'. intros i Hi. exact Hi.
  - split; [exact Hmode|]. cbn. split; [constructor|]. split; [constructor|].
    intros img H. now apply elem_of_nil in H.
  - destruct (handleOpenEditor_results st image Hmode) as (-> & -> & ->).
    split; [exact Hmode|]. split; [exact Himgs|].
    destruct (List.find (isResultOf (image_id image)) (processedResults st)) eqn:E;
      [now split|].
    apply find_isResultOf_None in E. split.
    + rewrite map_app. now apply NoDup_snoc_ids.
    + intros img Himg. apply hasResult_spec. rewrite map_app, elem_of_app. left.
      now apply hasResult_spec, Hcov.
  - split; [exact Hmode|]. split; [exact Himgs|]. split; [exact Hres | exact Hcov].
  - destruct (handleSaveAnnotations_ids st i updatedAnnotations)
      as (-> & -> & [Hids | [Hnew Hids]]).
    + split; [exact Hmode|]. split; [exact Himgs|]. rewrite Hids.
      split; [exact Hres|]. intros img Himg. apply hasResult_spec. rewrite Hids.
      now apply hasResult_spec, Hcov.
    + split; [exact Hmode|]. split; [exact Himgs|]. rewrite Hids.
      split; [now apply NoDup_snoc_ids|]. intros img Himg. apply hasResult_spec.
      rewrite Hids, elem_of_app. left. now apply hasResult_spec, Hcov.
Qed.

Lemma oneResultPerImage_chooseAssistive (apiKey : bool) :
  oneResultPerImage (chooseAssistive (initialApp apiKey)).
Proof.
  split; [reflexivity|]. cbn. split; [constructor|]. split; [constructor|].
  intros img H. now apply elem_of_nil in H.
Qed.

Lemma distinctImages_session (events : list AssistEvent) :
  forall (past : list AppState) (st : AppState),
  NoDup (map image_id (uploadedImages st)) ->
  NoDup (map image_id (uploadedImages (session past st events))).
Proof.
  induction events as [|e events IH]; intros past st Hnd; [exact Hnd|].
  cbn [session]. now apply IH, distinctImages_dispatch.
Qed.

(** The assistive workflow keeps one result per image as long as no upload
    ends late.  From a state with one result per image, after any sequence
    of uploads, openings and closings of the editor, saves and clearings in
    which every upload ends before anything else happens, image ids are
    distinct, result ids are distinct, and every uploaded image has a
    result.  Image ids stay distinct in every session, late uploads
    included. *)
Theorem assistive_workflow_keeps_one_result_per_image (past : list AppState)
    (st : AppState) (events : list AssistEvent) :
  oneResultPerImage st ->
  NoDup (map image_id (uploadedImages (session past st events))) /\
  (Forall onCurrentRender events -> oneResultPerImage (session past st events)).
Proof.
  intros Hinv. split.
  - apply distinctImages_session. now destruct Hinv as (_ & Himgs & _).
  - intros Hcurrent. revert past st Hinv.
    induction Hcurrent as [|e events He _ IH]; intros past st Hinv; [exact Hinv|].
    cbn [session]. now apply IH, oneResultPerImage_dispatch.
Qed.

(** *** Detection in batches *)

Section Batches.

Variable ai : bool.
Variable randomUUID : nat -> string.
Variable nullPropertyMessage : string.
Variable undefinedPropertyMessage : string.
Variable mismatchMessage : JsValue -> nat -> string.
Variable GEMINI_IMAGE_BATCH_SIZE : nat.

Hypothesis batch_size_positive : (0 < GEMINI_IMAGE_BATCH_SIZE)%nat.

Lemma numBatches_covers (totalImages : nat) :
  (totalImages <= numBatches GEMINI_IMAGE_BATCH_SIZE totalImages * GEMINI_IMAGE_BATCH_SIZE)%nat.
Proof.
  unfold numBatches.
  pose proof (Nat.mul_succ_div_gt (totalImages + (GEMINI_IMAGE_BATCH_SIZE - 1))
                GEMINI_IMAGE_BATCH_SIZE ltac:(lia)) as H.
  nia.
Qed.

Lemma batchLoop_prefix (images : list UploadedImage) (runs : nat -> RemoteRun) :
  forall (steps i : nat) (allResults : list ProcessedImageResult) (n : nat)
         (failure : option string) (final : list ProcessedImageResult) (n' : nat),
  batchLoop ai randomUUID nullPropertyMessage undefinedPropertyMessage mismatchMessage
    GEMINI_IMAGE_BATCH_SIZE images runs steps i allResults n = (failure, final, n') ->
  Forall2 resultOf (take (i * GEMINI_IMAGE_BATCH_SIZE) images) allResults ->
  exists k,
    (i <= k <= i + steps)%nat /\
    Forall2 resultOf (take (k * GEMINI_IMAGE_BATCH_SIZE) images) final /\
    (failure = None -> k = (i + steps)%nat).
Proof.
  induction steps as [|steps IH]; intros i allResults n failure final n' H Hacc;
    cbn [batchLoop] in H.
  - injection H as <- <- <-. exists i. split; [lia|]. split; [exact Hacc | intros _; lia].
  - destruct (generateBoundingBoxesForImages ai randomUUID nullPropertyMessage
                undefinedPropertyMessage mismatchMessage
                (imageBatch GEMINI_IMAGE_BATCH_SIZE images i) (runs i) n)
      as [[message | batchResults] n1] eqn:E.
    + injection H as <- <- <-. exists i. split; [lia|]. split; [exact Hacc | discriminate].
    + apply generateBoundingBoxesForImages_resolved in E as [Hbatch _].
      apply IH in H as (k & Hk & Hfinal & Hall).
      * exists k. split; [lia|]. split; [exact Hfinal|]. intros Hnone.
        rewrite (Hall Hnone). lia.
      * replace (S i * GEMINI_IMAGE_BATCH_SIZE)%nat
          with (i * GEMINI_IMAGE_BATCH_SIZE + GEMINI_IMAGE_BATCH_SIZE)%nat by lia.
        rewrite <- take_take_drop. now apply Forall2_app.
Qed.

Lemma noObjects_false (allResults : list ProcessedImageResult) :
  noObjects allResults = false ->
  exists r, r ∈ allResults /\ resultBoxes r <> [].
Proof.
  unfold noObjects. induction allResults as [|r rest IH]; cbn; [discriminate|].
  destruct (resultBoxes r) as [|b bs] eqn:E; cbn.
  - intros H. destruct (IH H) as (r' & Hin & Hne). exists r'. split; [now right | exact Hne].
  - intros _. exists r. split; [left | now rewrite E].
Qed.

(** A submission that passes the checks (an API key, an image, a prompt
    that is not blank) ends with the loading flag down and with results for
    a whole number of batches from the first one on: one result per image,
    in the order of the images, each naming its image, none for a later
    image before an earlier one.  If no error is reported at the end, every
    uploaded image has its result and some result has a box. *)
Theorem handleSubmitForAnnotation_results_follow_images (st : AppState)
    (runs : nat -> RemoteRun) :
  apiKeyMissingError st = false ->
  uploadedImages st <> [] ->
  Annotator.isBlank (promptText st) = false ->
  let st' := handleSubmitForAnnotation ai randomUUID nullPropertyMessage
               undefinedPropertyMessage mismatchMessage GEMINI_IMAGE_BATCH_SIZE st runs in
  isLoading st' = false /\
  uploadedImages st' = uploadedImages st /\
  (exists k,
      Forall2 resultOf (take (k * GEMINI_IMAGE_BATCH_SIZE) (uploadedImages st))
        (processedResults st')) /\
  (error st' = None ->
   Forall2 resultOf (uploadedImages st) (processedResults st') /\
   exists r, r ∈ processedResults st' /\ resultBoxes r <> []).
Proof.
  intros Hkey Himages Hprompt. cbn zeta. unfold handleSubmitForAnnotation.
  rewrite Hkey, Hprompt.
  destruct (length (uploadedImages st) =? 0)%nat eqn:E0.
  { apply Nat.eqb_eq in E0. destruct (uploadedImages st); [contradiction | discriminate]. }
  destruct (batchLoop ai randomUUID nullPropertyMessage undefinedPropertyMessage
              mismatchMessage GEMINI_IMAGE_BATCH_SIZE (uploadedImages st) runs
              (numBatches GEMINI_IMAGE_BATCH_SIZE (length (uploadedImages st))) 0 []
              (uuidsDrawn st)) as [[failure final] n'] eqn:Hloop.
  apply batchLoop_prefix in Hloop as (k & _ & Hfinal & Hall); [|constructor].
  destruct failure as [message|].
  - cbn. split; [reflexivity|]. split; [reflexivity|]. split; [eauto | discriminate].
  - specialize (Hall eq_refl). cbn [Nat.add] in Hall. subst k.
    rewrite take_ge in Hfinal by apply numBatches_covers.
    destruct (noObjects final) eqn:En; cbn.
    + split; [reflexivity|]. split; [reflexivity|]. split; [|discriminate].
      exists (numBatches GEMINI_IMAGE_BATCH_SIZE (length (uploadedImages st))).
      rewrite take_ge by apply numBatches_covers. exact Hfinal.
    + split; [reflexivity|]. split; [reflexivity|]. split.
      * exists (numBatches GEMINI_IMAGE_BATCH_SIZE (length (uploadedImages st))).
        rewrite take_ge by apply numBatches_covers. exact Hfinal.
      * intros _. split; [exact Hfinal | now apply noObjects_false].
Qed.

End Batches.

(** *** Scenarios *)

(** The assistive workflow with two images uploaded. *)
Definition assistiveApp : AppState :=
  handleImagesUploaded (chooseAssistive (initialApp true))
    (chooseAssistive (initialApp true)) twoImages.

(** The first image uploaded again under another name and size, with a
    third image. *)
Definition reupload : list UploadedImage :=
  [mkImage "img-1" "street-v2.jpg" 1024 768; mkImage "img-3" "yard.jpg" 320 240].

(** The automatic workflow with the two images, one image per request; the
    first request is answered with one box, the second one is rejected. *)
Definition automaticApp : AppState :=
  handleImagesUploaded (setAnnotationMode (Some automatic) (initialApp true))
    (setAnnotationMode (Some automatic) (initialApp true)) twoImages.

Definition secondRequestRejected (i : nat) : RemoteRun :=
  match i with
  | O => GenerateContentResolves (mkResponse "[[...]]" (Some (JArr [JArr [carEntry]])))
  | _ => GenerateContentRejects (ThrownError "Quota exceeded")
  end.

Lemma handleSaveAnnotations_upserts_witness :
  exists r',
    List.find (isResultOf "img-2")
      (processedResults (handleSaveAnnotations assistiveApp "img-2" [Annotator.carBox]))
    = Some r' /\
    resultBoxes r' = [Annotator.carBox] /\ imageId r' = "img-2".
Proof.
  apply (proj1 (proj2 (handleSaveAnnotations_upserts assistiveApp "img-2"
                         [Annotator.carBox]))).
  left. vm_compute. discriminate.
Defined.

Lemma save_then_reopen_restores_boxes_witness :
  exists es,
    editingState
      (handleOpenEditor
         (handleSaveAnnotations assistiveApp "img-1"
            (Annotator.handleSave Annotator.twoBoxEditor))
         (mkImage "img-1" "street.jpg" 800 600)) = Some es /\
    map Annotator.stripColor
      (Annotator.boxes
         (Annotator.mount Annotator.scenePalette (annotations es) None None
            ColorUtils.initial 0))
    = map Annotator.stripColor (Annotator.boxes Annotator.twoBoxEditor).
Proof.
  destruct (save_then_reopen_restores_boxes Annotator.scenePalette assistiveApp
              (mkImage "img-1" "street.jpg" 800 600) Annotator.twoBoxEditor None None)
    as (es & Hes & _ & _ & Hboxes).
  - vm_compute. left.
  - exists es. split; [exact Hes | exact Hboxes].
Defined.

Lemma handleImagesUploaded_keeps_last_image_of_each_id_witness :
  mkImage "img-1" "street-v2.jpg" 1024 768
    ∈ uploadedImages (handleImagesUploaded assistiveApp assistiveApp reupload) /\
  exists added,
    map image_id (uploadedImages (handleImagesUploaded assistiveApp assistiveApp reupload))
    = ["img-1"; "img-2"] ++ added.
Proof.
  destruct (handleImagesUploaded_keeps_last_image_of_each_id assistiveApp assistiveApp
              reupload)
    as (_ & Hin & Hgrow).
  split.
  - apply Hin. vm_compute. reflexivity.
  - apply Hgrow. vm_compute. apply NoDup_cons. split.
    + intros H. apply list_elem_of_singleton in H. discriminate.
    + apply NoDup_singleton.
Defined.

(** The re-upload ends on the render it was started on. *)
Lemma handleImagesUploaded_assistive_gives_each_image_a_result_witness :
  hasResult (processedResults (handleImagesUploaded assistiveApp assistiveApp reupload))
    (mkImage "img-3" "yard.jpg" 320 240) = true /\
  NoDup (map imageId
           (processedResults (handleImagesUploaded assistiveApp assistiveApp reupload))).
Proof.
  destruct (handleImagesUploaded_assistive_gives_each_image_a_result assistiveApp
              assistiveApp reupload eq_refl) as (_ & Hcov & Hnd).
  split.
  - apply Hcov; [intros i Hi; exact Hi|]. vm_compute. right. right. left.
  - apply Hnd; [intros i Hi; exact Hi|]. vm_compute. apply NoDup_cons. split.
    + intros H. apply list_elem_of_singleton in H. discriminate.
    + apply NoDup_singleton.
Defined.

(** Two uploads that overlap: the second one was started before the first
    one ended, so its callback knows no result, and the image of the first
    upload gets a second result. *)
Example overlapping_uploads_duplicate_results :
  map imageId
    (processedResults
       (session [] (chooseAssistive (initialApp true))
          [ImagesUploaded 0 [mkImage "img-1" "street.jpg" 800 600];
           ImagesUploaded 1 [mkImage "img-2" "park.png" 640 480]]))
  = ["img-1"; "img-1"; "img-2"].
Proof. vm_compute. reflexivity. Qed.

Lemma handleSubmitForAnnotation_results_follow_images_witness :
  isLoading
    (handleSubmitForAnnotation true numberedUUID "" "" noMessage 1 automaticApp
       secondRequestRejected) = false /\
  exists k,
    Forall2 resultOf (take (k * 1) (uploadedImages automaticApp))
      (processedResults
         (handleSubmitForAnnotation true numberedUUID "" "" noMessage 1 automaticApp
            secondRequestRejected)).
Proof.
  destruct (handleSubmitForAnnotation_results_follow_images true numberedUUID "" ""
              noMessage 1 ltac:(lia) automaticApp secondRequestRejected
              eq_refl ltac:(discriminate) eq_refl) as (Hloading & _ & Hprefix & _).
  split; [exact Hloading | exact Hprefix].
Defined.

Lemma assistive_workflow_keeps_one_result_per_image_witness :
  oneResultPerImage
    (session [] (chooseAssistive (initialApp true))
       [ImagesUploaded 0 twoImages; OpenEditor (mkImage "img-2" "park.png" 640 480);
        SaveAnnotations "img-2" [Annotator.carBox]; ImagesUploaded 0 reupload;
        SaveAnnotations "img-9" []; CloseEditor]).
Proof.
  apply (proj2 (assistive_workflow_keeps_one_result_per_image []
                  (chooseAssistive (initialApp true)) _
                  (oneResultPerImage_chooseAssistive true))).
  repeat constructor.
Defined.

End App.

(** ** Label file names of the YOLO package ([components/ExportControls.tsx]) *)

Module ExportControls.

(** The character [.]. *)
Definition dot : Ascii.ascii := Ascii.ascii_of_nat 46.

(** [s.lastIndexOf('.')]; [None] is -1. *)
Fixpoint lastIndexOf (s : string) : option nat :=
  match s with
  | EmptyString => None
  | String c rest =>
      match lastIndexOf rest with
      | Some i => Some (S i)
      | None => if Ascii.eqb c dot then Some 0%nat else None
      end
  end.

(** [result.originalFileName.substring(0, result.originalFileName.lastIndexOf('.'))
    || result.originalFileName]: [substring] takes the end -1 for 0, and the
    empty string is falsy. *)
Definition baseFileName (originalFileName : string) : string :=
  let stem :=
    match lastIndexOf originalFileName with
    | Some i => String.substring 0 i originalFileName
    | None => EmptyString
    end in
  if String.eqb stem EmptyString then originalFileName else stem.

Lemma lastIndexOf_append (stem ext : string) :
  lastIndexOf ext = None ->
  lastIndexOf (String.append stem (String dot ext)) = Some (String.length stem).
Proof.
  intros Hext. induction stem as [|c stem IH].
  - change (String.append EmptyString (String dot ext)) with (String dot ext).
    cbn [lastIndexOf]. rewrite Hext. reflexivity.
  - change (String.append (String c stem) (String dot ext))
      with (String c (String.append stem (String dot ext))).
    cbn [lastIndexOf String.length]. now rewrite IH.
Qed.

Lemma substring_append (stem rest : string) :
  String.substring 0 (String.length stem) (String.append stem rest) = stem.
Proof.
  induction stem as [|c stem IH].
  - change (String.append EmptyString rest) with rest. now destruct rest.
  - change (String.append (String c stem) rest) with (String c (String.append stem rest)).
    cbn [String.length String.substring]. now rewrite IH.
Qed.

(** The label file of an image is named after the image file without its
    last extension: a name [stem.ext], with a stem that is not empty and an
    extension without a dot, gives [stem], whatever the extension, so two
    images that differ only in their extension share a label file name.  A
    name without a dot, and a name whose only dot comes first, are kept
    whole. *)
Theorem baseFileName_strips_last_extension (stem ext : string) :
  lastIndexOf ext = None ->
  (stem <> EmptyString -> baseFileName (String.append stem (String dot ext)) = stem) /\
  baseFileName ext = ext /\
  baseFileName (String dot ext) = String dot ext.
Proof.
  intros Hext. split; [|split].
  - intros Hstem. unfold baseFileName.
    rewrite (lastIndexOf_append _ _ Hext), substring_append.
    destruct stem; [contradiction | reflexivity].
  - unfold baseFileName. now rewrite Hext.
  - unfold baseFileName. cbn [lastIndexOf]. rewrite Hext. cbn. reflexivity.
Qed.

Lemma baseFileName_strips_last_extension_witness :
  baseFileName "street.v2.jpg" = "street.v2" /\ baseFileName "README" = "README".
Proof.
  split.
  - apply (proj1 (baseFileName_strips_last_extension "street.v2" "jpg" eq_refl)).
    discriminate.
  - apply (proj1 (proj2 (baseFileName_strips_last_extension "x" "README" eq_refl))).
Defined.

End ExportControls.
